(** * Race-telemetry analytics: lap reconstruction, estimators, metric
      extraction and the batch aggregator

    A shallow embedding of [data_processing.py], [telemetry.py] and
    [preprocess_telemetry.py].

    Conventions of the embedding.
    - A pandas scalar is a [cell]; a [DataFrame] is a list of column labels
      and a list of rows, each row a list of cells aligned with the labels.
    - A float is a rational [Q]; "absent" (NaN, NaT, <NA>) is [None].
      Durations are kept in reduced form ([Qred]) so that equal values are
      equal terms.
    - A timestamp is its number of nanoseconds since the epoch, in [Z].
    - A raised Python exception is [Raise e]; a normal return is [Ok v].
    - The scalar conversions of pandas ([astype(str)], [to_numeric],
      [to_datetime]) are the fields of the class [PandasConv]: the general
      theorems hold whatever these conversions compute. *)

From Stdlib Require Import ZArith QArith Qabs String Ascii List Bool Lia.
From Stdlib Require Import Permutation Sorted DecimalString.
From stdpp Require gmap strings.
Import ListNotations.

Local Open Scope string_scope.
Local Open Scope list_scope.

(** ** Exceptions *)

Inductive exn := KeyError | TypeError | ValueError | OSError.

Inductive result (A : Type) : Type :=
| Ok (a : A)
| Raise (e : exn).
Arguments Ok {A} a.
Arguments Raise {A} e.

Definition bind {A B} (m : result A) (k : A -> result B) : result B :=
  match m with
  | Ok a => k a
  | Raise e => Raise e
  end.

Notation "x <- m ;; k" := (bind m (fun x => k))
  (at level 62, m at next level, right associativity).

Fixpoint mapR {A B} (f : A -> result B) (l : list A) : result (list B) :=
  match l with
  | [] => Ok []
  | a :: t => b <- f a ;; bs <- mapR f t ;; Ok (b :: bs)
  end.

(** ** Scalars and frames *)

Inductive cell :=
| CNull
| CInt (z : Z)
| CFloat (q : Q)
| CStr (s : string)
| CTime (ns : Z).

Record DataFrame := mkFrame {
  columns : list cell;
  rows : list (list cell)
}.

(** [pd.DataFrame()] *)
Definition empty_frame : DataFrame := mkFrame [] [].

(** [df.empty]: some axis has length zero. *)
Definition df_empty (df : DataFrame) : bool :=
  match columns df, rows df with
  | [], _ => true
  | _, [] => true
  | _, _ => false
  end.

Definition is_label (name : string) (c : cell) : bool :=
  match c with
  | CStr s => String.eqb name s
  | _ => false
  end.

(** [name in df.columns] *)
Definition has_column (df : DataFrame) (name : string) : bool :=
  existsb (is_label name) (columns df).

Fixpoint position (name : string) (cols : list cell) : option nat :=
  match cols with
  | [] => None
  | c :: t => if is_label name c then Some O
              else option_map S (position name t)
  end.

(** [df[name]]: the cells of one column, [KeyError] without it. *)
Definition getitem (df : DataFrame) (name : string) : result (list cell) :=
  match position name (columns df) with
  | Some i => Ok (map (fun r => nth i r CNull) (rows df))
  | None => Raise KeyError
  end.

(** ** Orders *)

Section InsertionSort.
Context {A : Type} (leb : A -> A -> bool).

(** Stable: an element is placed before the first one it does not
    exceed, so equal keys keep their order ([sort_values] with several
    keys is a stable lexicographic sort). *)
Fixpoint place (x : A) (l : list A) : list A :=
  match l with
  | [] => [x]
  | y :: t => if leb x y then x :: y :: t else y :: place x t
  end.

Definition isort (l : list A) : list A := fold_right place [] l.
End InsertionSort.

(** Absent values sort last ([na_position="last"]). *)
Definition opt_compare (a b : option Z) : comparison :=
  match a, b with
  | Some x, Some y => Z.compare x y
  | Some _, None => Lt
  | None, Some _ => Gt
  | None, None => Eq
  end.

Definition lex (c1 c2 : comparison) : comparison :=
  match c1 with
  | Eq => c2
  | c => c
  end.

Definition is_le (c : comparison) : bool :=
  match c with
  | Gt => false
  | _ => true
  end.

(** ** Lap records *)

Record LapRow := mkLap {
  vehicle_id : string;
  lap : option Z;
  lap_time_s : option Q
}.

(** A row of [base] after the three coercions, with its index label. *)
Record BaseRow := mkBase {
  b_index : nat;
  b_id : string;
  b_lap : option Z;
  b_ts : option Z
}.

(** ** Scalar conversions of pandas *)

Class PandasConv := {
  (** [astype(str)] on one value *)
  astype_str : cell -> string;
  (** [pd.to_numeric(errors="coerce")] on one value, [None] for NaN *)
  to_numeric : cell -> option Q;
  (** [pd.to_datetime(errors="coerce", utc=True)] on one value; it may
      raise in spite of the coercion *)
  to_datetime_utc : cell -> result (option Z);
  (** [pd.to_datetime(errors="coerce")] on one value *)
  to_datetime : cell -> result (option Z)
}.

(** The values of a signed 64-bit integer. *)
Definition int64_range (z : Z) : bool :=
  (Z.leb (- 2 ^ 63) z && Z.ltb z (2 ^ 63))%bool.

(** [astype("Int64")]: a number that is not whole, or is whole and
    outside the 64-bit integers, cannot be cast. *)
Definition astype_Int64 (v : option Q) : result (option Z) :=
  match v with
  | None => Ok None
  | Some q => let r := Qred q in
              if (Pos.eqb (Qden r) 1 && int64_range (Qnum r))%bool
              then Ok (Some (Qnum r)) else Raise TypeError
  end.

(** [Timedelta.total_seconds] *)
Definition total_seconds (d : option Z) : option Q :=
  option_map (fun ns => Qred (ns # 1000000000)) d.

Definition key_compare (k1 k2 : string * option Z) : comparison :=
  lex (String.compare (fst k1) (fst k2)) (opt_compare (snd k1) (snd k2)).

Definition lap_key (r : LapRow) : string * option Z := (vehicle_id r, lap r).

Definition opt_Z_eqb (a b : option Z) : bool :=
  match a, b with
  | Some x, Some y => Z.eqb x y
  | None, None => true
  | _, _ => false
  end.

Definition same_key (r1 r2 : LapRow) : bool :=
  String.eqb (vehicle_id r1) (vehicle_id r2) && opt_Z_eqb (lap r1) (lap r2).

(** The values of a series that are not absent. *)
Definition present (s : list (option Q)) : list Q :=
  flat_map (fun o => match o with Some q => [q] | None => [] end) s.

(** ** [config.py] *)

Module Config.

Definition ID_COL := "vehicle_id".
Definition LAP_COL := "lap".
Definition TIME_COLS_END := ["timestamp"; "meta_time"].
Definition TIME_COLS_TIME := ["timestamp"].

(** [SHEET_NAMES] *)
Definition SHEET_NAMES (k : string) : string :=
  if String.eqb k "R1_end" then "R1_barber_lap_end"
  else if String.eqb k "R2_end" then "R2_barber_lap_end"
  else if String.eqb k "R1_time" then "R1_barber_lap_time"
  else if String.eqb k "R2_time" then "R2_barber_lap_time"
  else "".

Definition TELEMETRY_R1_PATH := "R1_barber_telemetry_data.csv".
Definition TELEMETRY_R2_PATH := "R2_barber_telemetry_data.csv".
Definition TELEMETRY_R1_AGGREGATED_PATH := "R1_barber_telemetry_aggregated.parquet".
Definition TELEMETRY_R2_AGGREGATED_PATH := "R2_barber_telemetry_aggregated.parquet".

End Config.

(** ** [data_processing.py] *)

Module DataProcessing.
Import Config.

(** A workbook: what [pd.read_excel] gives for a sheet name, [None] when
    the read raises. *)
Definition workbook := string -> option DataFrame.

(** [read_sheet]: the frame, or [None] on any exception. *)
Definition read_sheet (file_or_buffer : workbook) (sheet : string)
  : option DataFrame :=
  file_or_buffer sheet.

Section Reconstruction.
Context {conv : PandasConv}.

(** [to_dt]: UTC-aware parse, then the lenient parse, then all-NaT. *)
Definition to_dt (s : list cell) : list (option Z) :=
  match mapR to_datetime_utc s with
  | Ok r => r
  | Raise _ =>
      match mapR to_datetime s with
      | Ok r => r
      | Raise _ => map (fun _ => None) s
      end
  end.

(** [g.sort_values([lap_col, "__ts__"])] *)
Definition row_leb (r1 r2 : BaseRow) : bool :=
  is_le (lex (opt_compare (b_lap r1) (b_lap r2))
             (opt_compare (b_ts r1) (b_ts r2))).

Definition sort_values (g : list BaseRow) : list BaseRow := isort row_leb g.

Definition delta (prev cur : option Z) : option Z :=
  match prev, cur with
  | Some p, Some c => Some (c - p)%Z
  | _, _ => None
  end.

(** [g["__ts__"].diff().dt.total_seconds()], selected with the two key
    columns; the index label of each row is kept beside it. *)
Fixpoint diff_from (prev : option Z) (g : list BaseRow)
  : list (nat * LapRow) :=
  match g with
  | [] => []
  | r :: t =>
      (b_index r, mkLap (b_id r) (b_lap r) (total_seconds (delta prev (b_ts r))))
        :: diff_from (b_ts r) t
  end.

Definition diff (g : list BaseRow) : list (nat * LapRow) :=
  match g with
  | [] => []
  | r :: t => (b_index r, mkLap (b_id r) (b_lap r) None) :: diff_from (b_ts r) t
  end.

Definition per_id (g : list BaseRow) : list (nat * LapRow) :=
  diff (sort_values g).

(** The groups of [base.groupby(id_col)]: keys ascending, rows of a
    group in frame order. *)
Definition group_keys (base : list BaseRow) : list string :=
  isort String.leb (nodup string_dec (map b_id base)).

Definition group_of (base : list BaseRow) (k : string) : list BaseRow :=
  filter (fun r => String.eqb (b_id r) k) base.

Definition groups (base : list BaseRow) : list (list BaseRow) :=
  map (group_of base) (group_keys base).

(** A group result is "indexed like" its group when the index labels
    come back in the same order. *)
Definition indexed_like (g : list BaseRow) (res : list (nat * LapRow)) : bool :=
  if list_eq_dec Nat.eq_dec (map b_index g) (map fst res) then true else false.

(** [result.reindex(ax)] for the original axis [ax]. *)
Definition reindex (ax : list nat) (res : list (nat * LapRow))
  : list (nat * LapRow) :=
  flat_map (fun i => filter (fun p => Nat.eqb (fst p) i) res) ax.

(** [base.groupby(id_col, group_keys=False).apply(per_id)]: the group
    results are concatenated in key order; when every result is indexed
    like its group, pandas restores the order of the original axis. *)
Definition groupby_apply (base : list BaseRow) : list (nat * LapRow) :=
  let gs := groups base in
  let values := map per_id gs in
  let mutated := negb (forallb (fun g => indexed_like g (per_id g)) gs) in
  if mutated then List.concat values
  else reindex (map b_index base) (List.concat values).

(** [drop_duplicates(subset=[id_col, lap_col], keep="last")] *)
Fixpoint drop_duplicates (l : list (nat * LapRow)) : list (nat * LapRow) :=
  match l with
  | [] => []
  | p :: t =>
      if existsb (fun p' => same_key (snd p) (snd p')) t
      then drop_duplicates t
      else p :: drop_duplicates t
  end.

(** [reset_index(drop=True)] *)
Definition reset_index (l : list (nat * LapRow)) : list LapRow := map snd l.

Fixpoint mk_base (i : nat) (ids : list string) (laps ts : list (option Z))
  : list BaseRow :=
  match ids, laps, ts with
  | v :: ids', l :: laps', t :: ts' =>
      mkBase i v l t :: mk_base (S i) ids' laps' ts'
  | _, _, _ => []
  end.

(** The three coercions of [base]: ids to text, laps to nullable
    integers, the chosen time column to timestamps. *)
Definition coerce (df : DataFrame) (id_col lap_col ts_col : string)
  : result (list BaseRow) :=
  ids <- getitem df id_col ;;
  lapc <- getitem df lap_col ;;
  laps <- mapR astype_Int64 (map to_numeric lapc) ;;
  tsc <- getitem df ts_col ;;
  Ok (mk_base 0 (map astype_str ids) laps (to_dt tsc)).

Definition compute_lap_time_from_timestamps
  (df : option DataFrame) (id_col lap_col : string) (time_cols : list string)
  : result (list LapRow) :=
  match df with
  | None => Ok []
  | Some df =>
      if df_empty df then Ok []
      else if negb (has_column df id_col) || negb (has_column df lap_col)
      then Ok []
      else
        match find (has_column df) time_cols with
        | None => Ok []
        | Some ts_col =>
            base <- coerce df id_col lap_col ts_col ;;
            Ok (reset_index (drop_duplicates (groupby_apply base)))
        end
  end.

(** [pd.merge(left[[ID_COL, LAP_COL]], right, on=[ID_COL, LAP_COL],
    how="outer")]: every left key with the matching right rows, or an
    absent duration when there is none, then the right rows without a
    left key. *)
Definition merge_row (right : list LapRow) (l : LapRow) : list LapRow :=
  match filter (same_key l) right with
  | [] => [mkLap (vehicle_id l) (lap l) None]
  | ms => map (fun r => mkLap (vehicle_id l) (lap l) (lap_time_s r)) ms
  end.

Definition merge_outer (left right : list LapRow) : list LapRow :=
  flat_map (merge_row right) left
  ++ filter (fun r => negb (existsb (fun l => same_key l r) left)) right.

(** [merged.dropna(subset=[LAP_COL])] *)
Definition dropna_lap (l : list LapRow) : list LapRow :=
  filter (fun r => match lap r with Some _ => true | None => false end) l.

(** [sort_values([ID_COL, LAP_COL])] *)
Definition lap_leb (r1 r2 : LapRow) : bool :=
  is_le (key_compare (lap_key r1) (lap_key r2)).

(** The end-log and time-log sheets of a race. *)
Definition race_sheets (race : string) : string * string :=
  if String.eqb race "Race 1"
  then (SHEET_NAMES "R1_end", SHEET_NAMES "R1_time")
  else (SHEET_NAMES "R2_end", SHEET_NAMES "R2_time").

Definition end_laps_of (file_or_buffer : workbook) (race : string)
  : result (list LapRow) :=
  compute_lap_time_from_timestamps
    (read_sheet file_or_buffer (fst (race_sheets race)))
    ID_COL LAP_COL TIME_COLS_END.

Definition time_laps_of (file_or_buffer : workbook) (race : string)
  : result (list LapRow) :=
  compute_lap_time_from_timestamps
    (read_sheet file_or_buffer (snd (race_sheets race)))
    ID_COL LAP_COL TIME_COLS_TIME.

(** The merge step: the time-log result joined on the keys of the
    end-log result when it is not empty, else the end-log result. *)
Definition merge_sources (end_laps time_laps : list LapRow) : list LapRow :=
  match time_laps with
  | _ :: _ => merge_outer end_laps time_laps
  | [] => end_laps
  end.

(** The last block.  On the typed rows of [merged] its two re-coercions
    ([astype(str)] on text, [to_numeric] and [astype("Int64")] on a
    nullable integer column) change nothing; what remains is the
    [dropna] and the sort. *)
Definition finalize (merged : list LapRow) : list LapRow :=
  match merged with
  | [] => merged
  | _ :: _ => isort lap_leb (dropna_lap merged)
  end.

Definition build_laps (file_or_buffer : workbook) (race : string)
  : result (list LapRow) :=
  end_laps <- end_laps_of file_or_buffer race ;;
  time_laps <- time_laps_of file_or_buffer race ;;
  Ok (finalize (merge_sources end_laps time_laps)).

End Reconstruction.

(** *** Estimators *)

(** Positions [i - w + 1 .. i] of a series, cut at its start. *)
Definition window_at (w i : nat) (s : list (option Q)) : list (option Q) :=
  map (fun j => nth j s None) (seq (S i - w) (Nat.min w (S i))).

(** Median: the middle of the sorted values, or the mean of the two
    middle ones. *)
Definition median (l : list Q) : Q :=
  let s := isort Qle_bool l in
  let n := length s in
  if Nat.even n
  then (nth (n / 2 - 1) s 0 + nth (n / 2) s 0) / 2
  else nth (n / 2) s 0.

(** [s.rolling(window, min_periods=m).median()]: at each position the
    median of the values present in the window, absent with fewer than
    [m] of them; pandas rejects a negative window and one shorter than
    [m]. *)
Definition rolling_median (window : Z) (min_periods : nat)
  (s : list (option Q)) : result (list (option Q)) :=
  if (window <? 0)%Z then Raise ValueError
  else if (window <? Z.of_nat min_periods)%Z then Raise ValueError
  else
    Ok (map (fun i =>
               let obs := present (window_at (Z.to_nat window) i s) in
               if Nat.leb min_periods (length obs) then Some (median obs)
               else None)
            (seq 0 (length s))).

(** [(x - med).abs()] *)
Definition abs_deviation (x med : list (option Q)) : list (option Q) :=
  map (fun p => match p with
                | (Some a, Some b) => Some (Qabs (a - b))
                | _ => None
                end) (combine x med).

Definition rolling_consistency (x : list (option Q)) (window : Z)
  : result (list (option Q)) :=
  med <- rolling_median window 3 x ;;
  mad <- rolling_median window 3 (abs_deviation x med) ;;
  Ok (map (option_map (Qmult (14826 # 10000))) mad).

Definition qmin (m v : Q) : Q := if Qle_bool m v then m else v.

(** [np.nanmin]: the least value present, NaN when there is none. *)
Definition nanmin (s : list (option Q)) : option Q :=
  match present s with
  | [] => None
  | q :: t => Some (fold_left qmin t q)
  end.

Definition best_lap (df : list LapRow) : option Q :=
  let s := map lap_time_s df in
  if Nat.eqb (length s) 0 then None else nanmin s.

End DataProcessing.

(** ** Keys of a long telemetry table *)

(** What a cell is when it serves as a key or is compared. *)
Inductive view :=
| VNum (q : Q)
| VTime (ns : Z)
| VStr (s : string)
| VNull.

Definition cell_view (c : cell) : view :=
  match c with
  | CInt z => VNum (inject_Z z)
  | CFloat q => VNum q
  | CTime ns => VTime ns
  | CStr s => VStr s
  | CNull => VNull
  end.

(** [==] on two scalars: numbers by value, text and timestamps by
    identity. *)
Definition cell_eqb (a b : cell) : bool :=
  match cell_view a, cell_view b with
  | VNum p, VNum q => Qeq_bool p q
  | VTime s, VTime t => Z.eqb s t
  | VStr s, VStr t => String.eqb s t
  | VNull, VNull => true
  | _, _ => false
  end.

Definition view_rank (v : view) : nat :=
  match v with
  | VNum _ => 0
  | VTime _ => 1
  | VStr _ => 2
  | VNull => 3
  end.

(** The order of a sorted axis: numbers by value, text by code point; a
    column of one kind of scalar is ordered as pandas orders it, kinds are
    kept apart. *)
Definition cell_compare (a b : cell) : comparison :=
  match cell_view a, cell_view b with
  | VNum p, VNum q => Qcompare p q
  | VTime s, VTime t => Z.compare s t
  | VStr s, VStr t => String.compare s t
  | va, vb => Nat.compare (view_rank va) (view_rank vb)
  end.

Definition cell_leb (a b : cell) : bool := is_le (cell_compare a b).

Definition isnull (c : cell) : bool :=
  match c with
  | CNull => true
  | _ => false
  end.

Definition key2 : Type := cell * cell.
Definition key3 : Type := cell * cell * cell.

Definition key2_eqb (a b : key2) : bool :=
  cell_eqb (fst a) (fst b) && cell_eqb (snd a) (snd b).

Definition key3_eqb (a b : key3) : bool :=
  key2_eqb (fst a) (fst b) && cell_eqb (snd a) (snd b).

Definition key2_leb (a b : key2) : bool :=
  is_le (lex (cell_compare (fst a) (fst b)) (cell_compare (snd a) (snd b))).

Definition key3_leb (a b : key3) : bool :=
  is_le (lex (lex (cell_compare (fst (fst a)) (fst (fst b)))
                  (cell_compare (snd (fst a)) (snd (fst b))))
             (cell_compare (snd a) (snd b))).

(** The distinct values of a list in order of first appearance. *)
Fixpoint unique_by {A : Type} (eqb : A -> A -> bool) (l : list A) : list A :=
  match l with
  | [] => []
  | a :: t => a :: filter (fun b => negb (eqb a b)) (unique_by eqb t)
  end.

(** One telemetry sample: the three key cells, the numeric value and the
    timestamp. *)
Record Sample := mkSample {
  s_id : cell;
  s_lap : cell;
  s_name : cell;
  s_value : option Q;
  s_time : option Z
}.

Definition sample_key (s : Sample) : key3 := (s_id s, s_lap s, s_name s).

Definition null_key (s : Sample) : bool :=
  isnull (s_id s) || isnull (s_lap s) || isnull (s_name s).

(** Mean of the values present, absent when there is none. *)
Definition mean (l : list Q) : option Q :=
  match l with
  | [] => None
  | _ :: _ =>
      Some (Qred (fold_right Qplus 0 l / inject_Z (Z.of_nat (length l))))
  end.

(** The aggregation [first]: the first value that is not absent. *)
Fixpoint first_present (l : list (option Z)) : option Z :=
  match l with
  | [] => None
  | Some t :: _ => Some t
  | None :: r => first_present r
  end.

Definition group_rows (l : list Sample) (k : key3) : list Sample :=
  filter (fun s => key3_eqb (sample_key s) k) l.

Definition agg_row (l : list Sample) (k : key3) : Sample :=
  let g := group_rows l k in
  mkSample (fst (fst k)) (snd (fst k)) (snd k)
           (mean (present (map s_value g)))
           (first_present (map s_time g)).

(** [groupby([ID_COL, LAP_COL, 'telemetry_name']).agg({'telemetry_value':
    'mean', 'timestamp': 'first'}).reset_index()]: rows with an absent key
    are left out, the groups come in key order. *)
Definition groupby_agg (l : list Sample) : list Sample :=
  let kept := filter (fun s => negb (null_key s)) l in
  map (agg_row kept) (isort key3_leb (unique_by key3_eqb (map sample_key kept))).

Definition value_cell (v : option Q) : cell :=
  match v with
  | Some q => CFloat q
  | None => CNull
  end.

Definition has_value (s : Sample) : bool :=
  match s_value s with
  | Some _ => true
  | None => false
  end.

(** The cell of the pivot at an index key and a channel. *)
Definition pivot_cell (agged : list Sample) (ik : key2) (n : cell) : cell :=
  match find (fun s => key3_eqb (sample_key s) (ik, n)) agged with
  | Some s => value_cell (s_value s)
  | None => CNull
  end.

(** The group means that have a value: [dropna(how="all")]. *)
Definition pivot_agged (l : list Sample) : list Sample :=
  filter has_value (groupby_agg l).

(** The rows of the pivot: the (vehicle, lap) keys, sorted. *)
Definition pivot_index (l : list Sample) : list key2 :=
  isort key2_leb
        (unique_by key2_eqb (map (fun s => (s_id s, s_lap s)) (pivot_agged l))).

(** The channel columns of the pivot, sorted. *)
Definition pivot_names (l : list Sample) : list cell :=
  isort cell_leb (unique_by cell_eqb (map s_name (pivot_agged l))).

(** The wide table: the two key columns, then one column per channel. *)
Definition wide_of (l : list Sample) : DataFrame :=
  mkFrame
    (CStr Config.ID_COL :: CStr Config.LAP_COL :: pivot_names l)
    (map (fun ik =>
            fst ik :: snd ik :: map (pivot_cell (pivot_agged l) ik) (pivot_names l))
         (pivot_index l)).

(** [pivot_table(index=[ID_COL, LAP_COL], columns='telemetry_name',
    values='telemetry_value', aggfunc='mean').reset_index()]: group means,
    groups without a value dropped, one row per (vehicle, lap) and one
    column per channel, both sorted; [reset_index] cannot insert a key
    column whose label a channel already bears. *)
Definition pivot_table_reset (l : list Sample) : result DataFrame :=
  if existsb (is_label Config.ID_COL) (pivot_names l)
     || existsb (is_label Config.LAP_COL) (pivot_names l)
  then Raise ValueError
  else Ok (wide_of l).

(** ASCII lower case. *)
Definition lower_ascii (a : ascii) : ascii :=
  let n := nat_of_ascii a in
  if (Nat.leb 65 n && Nat.leb n 90)%bool then ascii_of_nat (n + 32) else a.

Fixpoint lower (s : string) : string :=
  match s with
  | EmptyString => EmptyString
  | String a t => String (lower_ascii a) (lower t)
  end.

(** [sub in s] *)
Fixpoint contains (sub s : string) : bool :=
  String.prefix sub s ||
  match s with
  | EmptyString => false
  | String _ t => contains sub t
  end.

(** ['pbrake' in str(c).lower()]; the text of a number, of a timestamp or
    of an absent label holds no "pbrake". *)
Definition has_pbrake (c : cell) : bool :=
  match c with
  | CStr s => contains "pbrake" (lower s)
  | _ => false
  end.

(** ** [telemetry.py] *)

Module Telemetry.
Import Config.
Import stdpp.base stdpp.gmap stdpp.strings.

(** A series indexed by (vehicle_id, lap). *)
Definition Series : Type := list (key2 * cell).

Definition series_get (s : Series) (k : key2) : option cell :=
  option_map snd (List.find (fun e => key2_eqb (fst e) k) s).

(** [telemetry_df[mask]] *)
Definition select_rows (df : DataFrame) (mask : list bool) : DataFrame :=
  mkFrame (columns df)
          (map fst (List.filter snd (combine (rows df) mask))).

(** [c >= n] and [c <= n] for an integer [n]: text and timestamps do not
    compare with an integer, an absent value compares false. *)
Definition compare_int (c : cell) (n : Z) : result (option comparison) :=
  match c with
  | CInt z => Ok (Some (Z.compare z n))
  | CFloat q => Ok (Some (Qcompare q (inject_Z n)))
  | CNull => Ok None
  | CStr _ => Raise TypeError
  | CTime _ => Raise TypeError
  end.

Definition in_range (lo hi : Z) (c : cell) : result bool :=
  ge <- compare_int c lo ;;
  le <- compare_int c hi ;;
  Ok (match ge, le with
      | Some g, Some l =>
          negb (match g with Lt => true | _ => false end)
          && negb (match l with Gt => true | _ => false end)
      | _, _ => false
      end).

(** [telemetry_df[telemetry_df[ID_COL] == str(vehicle_id)]] when a
    vehicle is given. *)
Definition filter_vehicle (df : DataFrame) (vehicle_id : option string)
  : result DataFrame :=
  match vehicle_id with
  | None => Ok df
  | Some v =>
      ids <- getitem df ID_COL ;;
      Ok (select_rows df (map (fun c => cell_eqb c (CStr v)) ids))
  end.

(** The lap-range filter when a range is given. *)
Definition filter_laps (df : DataFrame) (lap_range : option (Z * Z))
  : result DataFrame :=
  match lap_range with
  | None => Ok df
  | Some (min_lap, max_lap) =>
      laps <- getitem df LAP_COL ;;
      mask <- mapR (in_range min_lap max_lap) laps ;;
      Ok (select_rows df mask)
  end.

Definition apply_filters (df : DataFrame) (vehicle_id : option string)
  (lap_range : option (Z * Z)) : result DataFrame :=
  d <- filter_vehicle df vehicle_id ;;
  filter_laps d lap_range.

(** The value of a cell under [aggfunc='mean']. *)
Definition cell_value (c : cell) : result (option Q) :=
  match c with
  | CInt z => Ok (Some (inject_Z z))
  | CFloat q => Ok (Some q)
  | CNull => Ok None
  | CStr _ => Raise TypeError
  | CTime _ => Raise TypeError
  end.

Fixpoint zip_samples (ids laps names : list cell) (vals : list cell)
  : list (cell * cell * cell * cell) :=
  match ids, laps, names, vals with
  | i :: ids', l :: laps', n :: names', v :: vals' =>
      (i, l, n, v) :: zip_samples ids' laps' names' vals'
  | _, _, _, _ => []
  end.

(** The rows of a long table as the pivot sees them: the four columns it
    reads, rows with an absent key left out, values as numbers. *)
Definition long_samples (df : DataFrame) : result (list Sample) :=
  ids <- getitem df ID_COL ;;
  laps <- getitem df LAP_COL ;;
  names <- getitem df "telemetry_name" ;;
  vals <- getitem df "telemetry_value" ;;
  mapR (fun '(i, l, n, v) =>
          q <- cell_value v ;; Ok (mkSample i l n q None))
       (List.filter (fun '(i, l, n, _) => negb (isnull i || isnull l || isnull n))
                    (zip_samples ids laps names vals)).

(** [telemetry_pivot.set_index([ID_COL, LAP_COL])[name]] *)
Definition set_index_get (pivot : DataFrame) (name : string) : result Series :=
  ids <- getitem pivot ID_COL ;;
  laps <- getitem pivot LAP_COL ;;
  vals <- getitem pivot name ;;
  Ok (combine (combine ids laps) vals).

Definition add_metric (pivot : DataFrame) (key col : string)
  (metrics : gmap string Series) : result (gmap string Series) :=
  if has_column pivot col
  then s <- set_index_get pivot col ;; Ok (<[key := s]> metrics)
  else Ok metrics.

Definition add_brake (pivot : DataFrame) (metrics : gmap string Series)
  : result (gmap string Series) :=
  match List.filter has_pbrake (columns pivot) with
  | CStr c :: _ =>
      s <- set_index_get pivot c ;; Ok (<["brake_usage" := s]> metrics)
  | _ => Ok metrics
  end.

(** The six extractions, in the order of the source. *)
Definition extract_metrics (pivot : DataFrame) : result (gmap string Series) :=
  m <- add_metric pivot "speed" "speed" ∅ ;;
  m <- add_metric pivot "fuel_usage" "aps" m ;;
  m <- add_brake pivot m ;;
  m <- add_metric pivot "acceleration" "accx_can" m ;;
  m <- add_metric pivot "gear" "gear" m ;;
  add_metric pivot "rpm" "nmot" m.

(** The column a metric is read from, given the labels of the pivot. *)
Definition metric_source (cols : list cell) (m : string) : option string :=
  let has name := existsb (is_label name) cols in
  if String.eqb m "speed" then (if has "speed" then Some "speed" else None)
  else if String.eqb m "fuel_usage" then (if has "aps" then Some "aps" else None)
  else if String.eqb m "brake_usage" then
    match List.filter has_pbrake cols with
    | CStr c :: _ => Some c
    | _ => None
    end
  else if String.eqb m "acceleration"
  then (if has "accx_can" then Some "accx_can" else None)
  else if String.eqb m "gear" then (if has "gear" then Some "gear" else None)
  else if String.eqb m "rpm" then (if has "nmot" then Some "nmot" else None)
  else None.

Definition series_of (pivot : DataFrame) (c : string) : option Series :=
  match set_index_get pivot c with
  | Ok s => Some s
  | Raise _ => None
  end.

Definition process_telemetry (telemetry_df : DataFrame)
  (vehicle_id : option string) (lap_range : option (Z * Z))
  : result (gmap string Series * DataFrame) :=
  if df_empty telemetry_df then Ok (∅, empty_frame)
  else
    let is_pivot_format :=
      negb (has_column telemetry_df "telemetry_name")
      || negb (has_column telemetry_df "telemetry_value") in
    if is_pivot_format then
      filtered <- apply_filters telemetry_df vehicle_id lap_range ;;
      if df_empty filtered then Ok (∅, empty_frame)
      else
        let telemetry_pivot := filtered in
        metrics <- extract_metrics telemetry_pivot ;;
        Ok (metrics, telemetry_pivot)
    else
      filtered <- apply_filters telemetry_df vehicle_id lap_range ;;
      if df_empty filtered then Ok (∅, empty_frame)
      else
        match (s <- long_samples filtered ;; pivot_table_reset s) with
        | Raise _ => Ok (∅, empty_frame)
        | Ok telemetry_pivot =>
            metrics <- extract_metrics telemetry_pivot ;;
            Ok (metrics, telemetry_pivot)
        end.

(** Every metric of the map has its source column in the pivot. *)
Definition sourced (pivot : DataFrame) (ms : gmap string Series) : Prop :=
  forall m ser, ms !! m = Some ser ->
    exists c, metric_source (columns pivot) m = Some c /\
              has_column pivot c = true.

End Telemetry.

(** ** [process_telemetry] over a store of table objects

    The same function with its Python objects made explicit: a table is
    an object of the heap, a variable holds a reference, indexing by a
    mask, [copy] and [pivot_table] make new objects and an assignment to a
    local variable rebinds it.  No statement of the source updates a table
    in place. *)

Module TelemetryObjects.
Import Config Telemetry.
Import stdpp.base stdpp.gmap stdpp.strings.

Definition heap : Type := list DataFrame.
Definition ref : Type := nat.

(** A computation over the heap; an exception leaves the heap as it was
    when it was raised. *)
Definition St (A : Type) : Type := heap -> result A * heap.

Definition ret {A : Type} (a : A) : St A := fun h => (Ok a, h).

Definition raise {A : Type} (e : exn) : St A := fun h => (Raise e, h).

Definition bind_st {A B : Type} (m : St A) (k : A -> St B) : St B :=
  fun h =>
    match m h with
    | (Ok a, h') => k a h'
    | (Raise e, h') => (Raise e, h')
    end.

Definition lift {A : Type} (r : result A) : St A :=
  match r with
  | Ok a => ret a
  | Raise e => raise e
  end.

(** The object a reference points to. *)
Definition deref (r : ref) : St DataFrame :=
  fun h => (Ok (nth r h empty_frame), h).

(** A new object. *)
Definition alloc (df : DataFrame) : St ref :=
  fun h => (Ok (length h), h ++ [df]).

Notation "x <~ m ;; k" := (bind_st m (fun x => k))
  (at level 62, m at next level, right associativity).

(** [telemetry_df = telemetry_df[telemetry_df[ID_COL] == str(vehicle_id)]] *)
Definition filter_vehicle_obj (telemetry_df : ref) (vehicle_id : option string)
  : St ref :=
  match vehicle_id with
  | None => ret telemetry_df
  | Some _ =>
      df <~ deref telemetry_df ;;
      d <~ lift (filter_vehicle df vehicle_id) ;;
      alloc d
  end.

Definition filter_laps_obj (telemetry_df : ref) (lap_range : option (Z * Z))
  : St ref :=
  match lap_range with
  | None => ret telemetry_df
  | Some _ =>
      df <~ deref telemetry_df ;;
      d <~ lift (filter_laps df lap_range) ;;
      alloc d
  end.

Definition return_empty : St (gmap string Series * ref) :=
  p <~ alloc empty_frame ;; ret (∅, p).

Definition process_telemetry_obj (telemetry_df : ref)
  (vehicle_id : option string) (lap_range : option (Z * Z))
  : St (gmap string Series * ref) :=
  df <~ deref telemetry_df ;;
  if df_empty df then return_empty
  else
    let is_pivot_format :=
      negb (has_column df "telemetry_name")
      || negb (has_column df "telemetry_value") in
    telemetry_df <~ filter_vehicle_obj telemetry_df vehicle_id ;;
    telemetry_df <~ filter_laps_obj telemetry_df lap_range ;;
    filtered <~ deref telemetry_df ;;
    if df_empty filtered then return_empty
    else if is_pivot_format then
      telemetry_pivot <~ alloc filtered ;;
      pivot <~ deref telemetry_pivot ;;
      metrics <~ lift (extract_metrics pivot) ;;
      ret (metrics, telemetry_pivot)
    else
      match (s <- long_samples filtered ;; pivot_table_reset s) with
      | Raise _ => return_empty
      | Ok pivot =>
          telemetry_pivot <~ alloc pivot ;;
          metrics <~ lift (extract_metrics pivot) ;;
          ret (metrics, telemetry_pivot)
      end.

(** What the caller sees of a run: the metrics and the table behind the
    returned reference, or the exception. *)
Definition view (run : result (gmap string Series * ref) * heap)
  : result (gmap string Series * DataFrame) :=
  match run with
  | (Ok (metrics, p), h) => Ok (metrics, nth p h empty_frame)
  | (Raise e, _) => Raise e
  end.

(** The heap [h'] is [h] with new objects added. *)
Definition extends (h h' : heap) : Prop := exists news, h' = h ++ news.

End TelemetryObjects.

(** ** [preprocess_telemetry.py]: the aggregation *)

Module Preprocess.
Import Config.

Definition CHUNK_SIZE : nat := Z.to_nat 100000.

(** Runs of [size] rows, the last one shorter. *)
Fixpoint chunk_rows {A : Type} (fuel size : nat) (l : list A) : list (list A) :=
  match fuel with
  | O => []
  | S fuel' =>
      match l with
      | [] => []
      | _ :: _ => firstn size l :: chunk_rows fuel' size (skipn size l)
      end
  end.

(** The chunks [pd.read_csv(..., chunksize=size)] yields: the rows in
    runs of [size]; a file with a header and no row yields one chunk,
    without rows. *)
Definition read_chunks (size : nat) (df : DataFrame) : list DataFrame :=
  match rows df with
  | [] => [mkFrame (columns df) []]
  | _ :: _ =>
      map (mkFrame (columns df)) (chunk_rows (length (rows df)) size (rows df))
  end.

Fixpoint zip5 (ids laps names : list cell) (vals : list (option Q))
  (ts : list (option Z)) : list Sample :=
  match ids, laps, names, vals, ts with
  | i :: ids', l :: laps', n :: names', v :: vals', t :: ts' =>
      mkSample i l n v t :: zip5 ids' laps' names' vals' ts'
  | _, _, _, _, _ => []
  end.

Section Aggregation.
Context {conv : PandasConv}.

(** The two conversions of a chunk and the five columns the grouping
    reads. *)
Definition chunk_samples (chunk : DataFrame) : result (list Sample) :=
  tsc <- getitem chunk "timestamp" ;;
  ts <- mapR to_datetime tsc ;;
  valc <- getitem chunk "telemetry_value" ;;
  ids <- getitem chunk ID_COL ;;
  laps <- getitem chunk LAP_COL ;;
  names <- getitem chunk "telemetry_name" ;;
  Ok (zip5 ids laps names (map to_numeric valc) ts).

(** [pd.concat(aggregated_chunks, ignore_index=True)] *)
Definition concat_chunks (aggregated_chunks : list (list Sample))
  : result (list Sample) :=
  match aggregated_chunks with
  | [] => Raise ValueError
  | _ :: _ => Ok (concat aggregated_chunks)
  end.

(** From the chunks of the input to the wide table that is written. *)
Definition aggregate_chunks (chunks : list DataFrame) : result DataFrame :=
  aggregated_chunks <-
    mapR (fun chunk => s <- chunk_samples chunk ;; Ok (groupby_agg s)) chunks ;;
  combined_df <- concat_chunks aggregated_chunks ;;
  let final_df := groupby_agg combined_df in
  pivot_table_reset final_df.

End Aggregation.

End Preprocess.

(** ** [preprocess_telemetry.py]: the command line

    The files the script sees and leaves.  What reading and writing do
    beyond the script's control is given from outside: a CSV file may
    carry a fault that makes the read raise at some chunk, and the
    environment says which writes fail and whether a failed write leaves
    a partial file behind. *)

Module PreprocessCli.
Import Config Preprocess.
Import stdpp.base stdpp.gmap stdpp.strings.

Inductive file :=
| Csv (df : DataFrame) (fault : option nat)
| Parquet (df : DataFrame)
| Partial.

Record env := mkEnv {
  write_fails : string -> bool;
  leaves_partial : string -> bool
}.

Inductive outcome :=
| Returned
| Exited (code : Z).

(** [pd.read_csv(input_path, chunksize=CHUNK_SIZE, iterator=True)] and
    the iteration over it: all the chunks, unless the file is not a CSV
    or its fault is met. *)
Definition read_csv (size : nat) (f : file) : result (list DataFrame) :=
  match f with
  | Csv df fault =>
      let chunks := read_chunks size df in
      match fault with
      | Some k => if Nat.ltb k (length chunks) then Raise OSError else Ok chunks
      | None => Ok chunks
      end
  | Parquet _ => Raise ValueError
  | Partial => Raise ValueError
  end.

(** [pivot_df.to_parquet(output_path, ...)]: written straight to the
    output path. *)
Definition to_parquet (e : env) (output_path : string) (pivot_df : DataFrame)
  (fs : gmap string file) : result unit * gmap string file :=
  if write_fails e output_path
  then (Raise OSError,
        if leaves_partial e output_path
        then <[output_path := Partial]> fs else fs)
  else (Ok tt, <[output_path := Parquet pivot_df]> fs).

Section Script.
Context {conv : PandasConv}.

Definition aggregate_telemetry_file (e : env) (input_path output_path : string)
  (fs : gmap string file) : outcome * gmap string file :=
  match fs !! input_path with
  | None => (Returned, fs)
  | Some f =>
      match (chunks <- read_csv CHUNK_SIZE f ;; aggregate_chunks chunks) with
      | Raise _ => (Exited 1, fs)
      | Ok pivot_df =>
          match to_parquet e output_path pivot_df fs with
          | (Ok _, fs') => (Returned, fs')
          | (Raise _, fs') => (Exited 1, fs')
          end
      end
  end.

(** One race in [main]: a missing input is skipped with a warning. *)
Definition process_race (e : env) (input_path output_path : string)
  (fs : gmap string file) : outcome * gmap string file :=
  match fs !! input_path with
  | None => (Returned, fs)
  | Some _ => aggregate_telemetry_file e input_path output_path fs
  end.

(** [main()] and the exit status of the process. *)
Definition main (e : env) (fs : gmap string file) : Z * gmap string file :=
  match process_race e TELEMETRY_R1_PATH TELEMETRY_R1_AGGREGATED_PATH fs with
  | (Exited code, fs1) => (code, fs1)
  | (Returned, fs1) =>
      match process_race e TELEMETRY_R2_PATH TELEMETRY_R2_AGGREGATED_PATH fs1 with
      | (Exited code, fs2) => (code, fs2)
      | (Returned, fs2) => (0%Z, fs2)
      end
  end.

(** What the pass over an existing input needs. *)
Definition passes (e : env) (f : file) (output_path : string) : Prop :=
  exists chunks wide,
    read_csv CHUNK_SIZE f = Ok chunks /\
    aggregate_chunks chunks = Ok wide /\
    write_fails e output_path = false.



End Script.

End PreprocessCli.

(** ** A concrete reading of typed sheet cells

    The conversions on the cells a spreadsheet reader yields: text for
    vehicle ids, integers for laps, timestamps for times.  Text in a
    numeric or time column is text that is not a number or a date, and is
    coerced to absent. *)

Definition string_of_Z (z : Z) : string := NilZero.string_of_int (Z.to_int z).

(** The text of a float, as [str] and [astype(str)] write it.  The floats
    of the model are exact decimals (12.5 is 25/2), so the shortest digits
    that identify the float are the digits of the number. *)

(** The least [k] for which [n * 10^k] is a multiple of [d]. *)
Fixpoint decimal_places (fuel : nat) (n d : Z) : nat :=
  match fuel with
  | O => O
  | S fuel' =>
      if (n mod d =? 0)%Z then O else S (decimal_places fuel' (n * 10) d)
  end.

(** A positive number without its trailing zeros, and their count. *)
Fixpoint strip_zeros (fuel : nat) (m : Z) : Z * nat :=
  match fuel with
  | O => (m, O)
  | S fuel' =>
      if ((m mod 10 =? 0) && negb (m =? 0))%Z
      then let (m', c) := strip_zeros fuel' (m / 10) in (m', S c)
      else (m, O)
  end.

Definition zeros (n : nat) : string := string_of_list_ascii (repeat "0"%char n).

(** The exponent: a sign and two digits at least. *)
Definition exponent_text (e : Z) : string :=
  (if (e <? 0)%Z then "-" else "+")
  ++ (if (Z.abs e <? 10)%Z then "0" else "") ++ string_of_Z (Z.abs e).

(** [repr] of a positive float with the significant digits [ds], the
    point standing after the first [decpt] of them: scientific notation
    below 1e-4 and from 1e16 on, a point and a digit after it always. *)
Definition float_text (ds : string) (decpt : Z) : string :=
  let n := String.length ds in
  if ((decpt <=? -4) || (16 <? decpt))%Z
  then substring 0 1 ds
       ++ (if Nat.ltb 1 n then "." ++ substring 1 (n - 1) ds else "")
       ++ "e" ++ exponent_text (decpt - 1)
  else if (decpt <=? 0)%Z then "0." ++ zeros (Z.to_nat (- decpt)) ++ ds
  else if (Z.of_nat n <=? decpt)%Z
  then ds ++ zeros (Z.to_nat decpt - n) ++ ".0"
  else substring 0 (Z.to_nat decpt) ds ++ "."
       ++ substring (Z.to_nat decpt) (n - Z.to_nat decpt) ds.

Definition string_of_float (q : Q) : string :=
  let r := Qred q in
  let n := Z.abs (Qnum r) in
  let d := Zpos (Qden r) in
  if (n =? 0)%Z then "0.0"
  else
    let k := decimal_places 400 n d in
    let (m, c) := strip_zeros 400 (n * 10 ^ Z.of_nat k / d) in
    let ds := string_of_Z m in
    let decpt := (Z.of_nat (String.length ds) + Z.of_nat c - Z.of_nat k)%Z in
    (if (Qnum r <? 0)%Z then "-" else "") ++ float_text ds decpt.

Definition sheet_astype_str (c : cell) : string :=
  match c with
  | CStr s => s
  | CInt z => string_of_Z z
  | CNull => "nan"
  | CFloat q => string_of_float q
  | CTime ns => string_of_Z ns
  end.

Definition sheet_to_numeric (c : cell) : option Q :=
  match c with
  | CInt z => Some (inject_Z z)
  | CFloat q => Some q
  | _ => None
  end.

Definition sheet_to_datetime (c : cell) : result (option Z) :=
  match c with
  | CTime ns => Ok (Some ns)
  | CInt z => Ok (Some z)
  | _ => Ok None
  end.

Definition sheet_conv : PandasConv :=
  {| astype_str := sheet_astype_str;
     to_numeric := sheet_to_numeric;
     to_datetime_utc := sheet_to_datetime;
     to_datetime := sheet_to_datetime |}.

(** ** Vocabulary of the statements, and example inputs *)

Import Config DataProcessing Telemetry Preprocess.

Definition key_lt (k1 k2 : string * option Z) : Prop := key_compare k1 k2 = Lt.

Definition pair_key (p : nat * LapRow) : string * option Z := lap_key (snd p).

Definition from_base (b : BaseRow) (p : nat * LapRow) : Prop :=
  fst p = b_index b /\ vehicle_id (snd p) = b_id b /\ lap (snd p) = b_lap b.

(** The lap of a row of [df] parses to the whole number [z], and its
    id reads [v]. *)
Definition parsed_row {conv : PandasConv} (df : DataFrame) (v : string) (z : Z) : Prop :=
  exists row i j q,
    In row (rows df) /\
    position ID_COL (columns df) = Some i /\
    position LAP_COL (columns df) = Some j /\
    astype_str (nth i row CNull) = v /\
    to_numeric (nth j row CNull) = Some q /\ q == inject_Z z.

Definition lap_sheet (rws : list (list cell)) : DataFrame :=
  mkFrame [CStr "vehicle_id"; CStr "lap"; CStr "timestamp"] rws.

(** Race 1 with the given end-log and time-log sheets, nothing else. *)
Definition race1_book (end_rows time_rows : list (list cell)) : workbook :=
  fun s =>
    if String.eqb s "R1_barber_lap_end" then Some (lap_sheet end_rows)
    else if String.eqb s "R1_barber_lap_time" then Some (lap_sheet time_rows)
    else None.

Definition sec (n : Z) : Z := (n * 1000000000)%Z.

(** Vehicle "12": laps 1 and 2 are 90 s apart in the end-log and 95 s
    apart in the time-log. *)
Definition wb_both : workbook :=
  race1_book
    [[CStr "12"; CInt 1; CTime (sec 0)]; [CStr "12"; CInt 2; CTime (sec 90)]]
    [[CStr "12"; CInt 1; CTime (sec 3)]; [CStr "12"; CInt 2; CTime (sec 98)]].

(** A lap numbered 0. *)
Definition wb_lap_zero : workbook :=
  race1_book [[CStr "12"; CInt 0; CTime (sec 0)]] [].

(** A lap that is not a number beside one that is. *)
Definition wb_bad_lap : workbook :=
  race1_book
    [[CStr "12"; CStr "DNF"; CTime (sec 0)]; [CStr "12"; CInt 2; CTime (sec 90)]]
    [].

(** Lap 2 of vehicle "12" logged twice, 5 s apart. *)
Definition wb_repeat : workbook :=
  race1_book
    [[CStr "12"; CInt 1; CTime (sec 0)];
     [CStr "12"; CInt 2; CTime (sec 90)];
     [CStr "12"; CInt 2; CTime (sec 95)]]
    [].

(** Vehicle "12", laps 1, 2, 3 at T, T + 90 s, T + 181 s; empty time-log. *)
Definition wb_scenario (T : Z) : workbook :=
  race1_book
    [[CStr "12"; CInt 1; CTime T];
     [CStr "12"; CInt 2; CTime (T + sec 90)];
     [CStr "12"; CInt 3; CTime (T + sec 181)]]
    [].





(** The rolling median with window 8 and three observations required,
    position by position. *)
Definition roll8_at (s : list (option Q)) (i : nat) : option Q :=
  let obs := present (window_at 8 i s) in
  if Nat.leb 3 (length obs) then Some (median obs) else None.

(** The three stages of [rolling_consistency] with the default window:
    the rolling median, the absolute deviations from it, and the scaled
    rolling median of the deviations. *)
Definition med8 (x : list (option Q)) : list (option Q) :=
  map (roll8_at x) (seq 0 (length x)).

Definition dev8 (x : list (option Q)) : list (option Q) :=
  abs_deviation x (med8 x).

Definition out8 (x : list (option Q)) : list (option Q) :=
  map (option_map (Qmult (14826 # 10000)))
      (map (roll8_at (dev8 x)) (seq 0 (length (dev8 x)))).

(** The consistency value in the words of its description, for a series
    without absent entries: the median over the last eight positions (as
    many as there are) of the absolute deviation of the lap time from the
    median of the last eight lap times up to it, times 1.4826.  A
    deviation exists from the third position on. *)
Definition last8 (i : nat) : list nat := seq (i - 7) (Nat.min 8 (S i)).

Definition value_at (x : list (option Q)) (j : nat) : Q :=
  match nth j x None with
  | Some q => q
  | None => 0
  end.

Definition median8_at (x : list (option Q)) (j : nat) : Q :=
  median (map (value_at x) (last8 j)).

Definition deviation_at (x : list (option Q)) (j : nat) : Q :=
  Qabs (value_at x j - median8_at x j).

Definition mad8_at (x : list (option Q)) (i : nat) : Q :=
  median (map (deviation_at x) (filter (Nat.leb 2) (last8 i))).

Definition scaled_mad8_at (x : list (option Q)) (i : nat) : Q :=
  (14826 # 10000) * mad8_at x i.

Definition kept (l : list Sample) : list Sample :=
  filter (fun s => negb (null_key s)) l.

Definition key_present (k : key3) : Prop :=
  isnull (fst (fst k)) = false /\ isnull (snd (fst k)) = false /\
  isnull (snd k) = false.

(** The table [l] has exactly one row for the key [k], and its value
    is [v]. *)
Definition holds (l : list Sample) (k : key3) (v : Q) : Prop :=
  exists a q, group_rows l k = [a] /\ s_value a = Some q /\ q == v.

(** The sample of one row, given the positions of the five columns. *)
Definition row_sample {conv : PandasConv} (i1 i2 i3 i4 i5 : nat) (row : list cell) : result Sample :=
  t <- to_datetime (nth i1 row CNull) ;;
  Ok (mkSample (nth i3 row CNull) (nth i4 row CNull) (nth i5 row CNull)
               (to_numeric (nth i2 row CNull)) t).

(** A channel may not bear the label of a key column, nor the label by
    which a long table is recognised. *)
Definition reserved_label (c : cell) : bool :=
  is_label ID_COL c || is_label LAP_COL c || is_label "telemetry_name" c.

Definition plain_channels (samples : list Sample) : bool :=
  forallb (fun x => negb (reserved_label (s_name x))) samples.

(** The long table of the scenario: channel "aps" sampled twice, 40 and
    60, on lap 3 of vehicle "7". *)
Definition raw_aps : DataFrame :=
  mkFrame [CStr "vehicle_id"; CStr "lap"; CStr "telemetry_name";
           CStr "telemetry_value"; CStr "timestamp"]
          [[CStr "7"; CInt 3; CStr "aps"; CInt 40; CTime 0];
           [CStr "7"; CInt 3; CStr "aps"; CInt 60; CTime 5]].

Definition wide_aps : DataFrame :=
  mkFrame [CStr "vehicle_id"; CStr "lap"; CStr "aps"]
          [[CStr "7"; CInt 3; CFloat 50]].

(** One sample per key: "aps" and "speed" on lap 3, "aps" on lap 4. *)
Definition raw_single : DataFrame :=
  mkFrame [CStr "vehicle_id"; CStr "lap"; CStr "telemetry_name";
           CStr "telemetry_value"; CStr "timestamp"]
          [[CStr "7"; CInt 3; CStr "aps"; CInt 40; CTime 0];
           [CStr "7"; CInt 3; CStr "speed"; CInt 120; CTime 0];
           [CStr "7"; CInt 4; CStr "aps"; CInt 60; CTime 90]].

(** One sample per key, with two channels named like the columns of a
    long table. *)
Definition raw_reserved : DataFrame :=
  mkFrame [CStr "vehicle_id"; CStr "lap"; CStr "telemetry_name";
           CStr "telemetry_value"; CStr "timestamp"]
          [[CStr "7"; CInt 3; CStr "aps"; CInt 40; CTime 0];
           [CStr "7"; CInt 3; CStr "telemetry_name"; CInt 1; CTime 0];
           [CStr "7"; CInt 3; CStr "telemetry_value"; CInt 2; CTime 0]].

Definition sample_aps : Sample :=
  mkSample (CStr "7") (CInt 3) (CStr "aps") (Some (inject_Z 40)) (Some 0%Z).

(** A lap cell that compares with an integer. *)
Definition comparable (c : cell) : bool :=
  match c with
  | CStr _ => false
  | CTime _ => false
  | _ => true
  end.

Definition lap_cells_comparable (df : DataFrame) : bool :=
  match getitem df LAP_COL with
  | Ok laps => forallb comparable laps
  | Raise _ => false
  end.

(** A wide table without a lap column. *)
Definition wide_no_lap : DataFrame :=
  mkFrame [CStr "vehicle_id"; CStr "speed"] [[CStr "7"; CFloat 1]].

(** A wide table with laps 1 and 2 of vehicle "7". *)
Definition wide_two_laps : DataFrame :=
  mkFrame [CStr "vehicle_id"; CStr "lap"; CStr "speed"]
          [[CStr "7"; CInt 1; CFloat 101]; [CStr "7"; CInt 2; CFloat 99]].

(** ** Further vocabulary and models *)

(** ** Sheets that go through the reconstruction *)

(** A whole number within the 64-bit integers, as [astype("Int64")]
    accepts it. *)
Definition whole (q : Q) : bool :=
  Pos.eqb (Qden (Qred q)) 1 && int64_range (Qnum (Qred q)).

(** A lap cell that the cast to a nullable integer accepts: it parses to
    a whole number within the 64-bit integers, or does not parse at
    all. *)
Definition lap_castable {conv : PandasConv} (c : cell) : bool :=
  match to_numeric c with
  | Some q => whole q
  | None => true
  end.

(** The sheet passes the three guards of the reconstruction: it is not
    empty and has the id column, the lap column and one of the time
    columns. *)
Definition usable (df : DataFrame) (time_cols : list string) : bool :=
  negb (df_empty df) && has_column df ID_COL && has_column df LAP_COL
  && existsb (has_column df) time_cols.

(** Some lap of the sheet parses to a number that the cast rejects: one
    that is not whole, or does not fit a 64-bit integer. *)
Definition uncastable_lap {conv : PandasConv} (df : DataFrame) : bool :=
  match getitem df LAP_COL with
  | Ok cs => negb (forallb lap_castable cs)
  | Raise _ => false
  end.

Definition sheet_rejected {conv : PandasConv} (wb : workbook) (sheet : string)
  (time_cols : list string) : bool :=
  match read_sheet wb sheet with
  | Some df => usable df time_cols && uncastable_lap df
  | None => false
  end.

(** A lap logged as 1.5 beside a whole one. *)
Definition wb_fractional : workbook :=
  race1_book
    [[CStr "12"; CInt 1; CTime (sec 0)]; [CStr "12"; CFloat (3 # 2); CTime (sec 90)]]
    [].

(** A lap logged as 2^63, one more than the largest 64-bit integer. *)
Definition wb_huge_lap : workbook :=
  race1_book
    [[CStr "12"; CInt 1; CTime (sec 0)]; [CStr "12"; CInt (2 ^ 63); CTime (sec 90)]]
    [].

(** Laps 1 and 2 of vehicle "12" in the end-log, 90 s apart; the time-log
    has lap 2 only. *)
Definition wb_end_only_lap : workbook :=
  race1_book
    [[CStr "12"; CInt 1; CTime (sec 0)]; [CStr "12"; CInt 2; CTime (sec 90)]]
    [[CStr "12"; CInt 2; CTime (sec 98)]].

(** The rolling median at one position, for a window of [w] positions
    and [m] observations required. *)
Definition roll_at (w m : nat) (s : list (option Q)) (i : nat) : option Q :=
  let obs := present (window_at w i s) in
  if Nat.leb m (length obs) then Some (median obs) else None.

(** The stages of [rolling_consistency] for a window of [w] positions. *)
Definition med_w (w : nat) (x : list (option Q)) : list (option Q) :=
  map (roll_at w 3 x) (seq 0 (length x)).

Definition dev_w (w : nat) (x : list (option Q)) : list (option Q) :=
  abs_deviation x (med_w w x).

Definition out_w (w : nat) (x : list (option Q)) : list (option Q) :=
  map (option_map (Qmult (14826 # 10000)))
      (map (roll_at w 3 (dev_w w x)) (seq 0 (length (dev_w w x)))).

(** [s.sum()]: the sum of the values present. *)
Definition series_sum (s : list (option Q)) : Q :=
  fold_right Qplus 0 (present s).

(** The (vehicle, lap) key of a row of a wide table. *)
Definition row_key (row : list cell) : key2 := (nth 0 row CNull, nth 1 row CNull).

(** No two elements of the list are equal under [eqb]. *)
Definition distinct_by {A : Type} (eqb : A -> A -> bool) (l : list A) : Prop :=
  ForallOrdPairs (fun a b => eqb a b = false) l.

(** Ascending under [leb]. *)
Definition ascending {A : Type} (leb : A -> A -> bool) (l : list A) : Prop :=
  StronglySorted (fun a b => leb a b = true) l.

(** The mean of the values a table holds for a key. *)
Definition group_mean (l : list Sample) (k : key3) : option Q :=
  mean (present (map s_value (group_rows l k))).

(** The mean, over the chunks that have one, of the chunk means. *)
Definition mean_of_means (chunks : list (list Sample)) (k : key3) : option Q :=
  mean (present (map (fun c => group_mean c k) chunks)).

(** Channel "aps" on lap 3 of vehicle "7", read in two chunks: two
    samples of 10 in the first, one sample of 40 in the second. *)
Definition long_columns : list cell :=
  [CStr "vehicle_id"; CStr "lap"; CStr "telemetry_name";
   CStr "telemetry_value"; CStr "timestamp"].

Definition chunk_two_tens : DataFrame :=
  mkFrame long_columns
          [[CStr "7"; CInt 3; CStr "aps"; CInt 10; CTime 0];
           [CStr "7"; CInt 3; CStr "aps"; CInt 10; CTime 1]].

Definition chunk_one_forty : DataFrame :=
  mkFrame long_columns [[CStr "7"; CInt 3; CStr "aps"; CInt 40; CTime 2]].

(** An environment in which every write goes through. *)
Definition env_ok : PreprocessCli.env :=
  PreprocessCli.mkEnv (fun _ => false) (fun _ => false).

(** ** Rows of a telemetry table *)

Module TelemetryRows.
Import Config Telemetry.

(** The cell of a row under a column label, absent without the column. *)
Definition cell_at (df : DataFrame) (name : string) (row : list cell) : cell :=
  match position name (columns df) with
  | Some i => nth i row CNull
  | None => CNull
  end.

(** The lap-range test on a cell that compares with an integer. *)
Definition in_range_b (lo hi : Z) (c : cell) : bool :=
  match in_range lo hi c with
  | Ok b => b
  | Raise _ => false
  end.

(** The row passes the vehicle filter and the lap-range filter, for the
    filters that are given. *)
Definition row_selected (df : DataFrame) (vehicle_id : option string)
  (lap_range : option (Z * Z)) (row : list cell) : bool :=
  match vehicle_id with
  | Some v => cell_eqb (cell_at df ID_COL row) (CStr v)
  | None => true
  end
  && match lap_range with
     | Some (lo, hi) => in_range_b lo hi (cell_at df LAP_COL row)
     | None => true
     end.

(** The table with the rows that pass. *)
Definition selection (df : DataFrame) (vehicle_id : option string)
  (lap_range : option (Z * Z)) : DataFrame :=
  mkFrame (columns df) (filter (row_selected df vehicle_id lap_range) (rows df)).

(** The entry of a row in the series read from column [c]: its
    (vehicle, lap) key and its cell under [c]. *)
Definition row_entry (pivot : DataFrame) (c : string) (row : list cell)
  : key2 * cell :=
  ((cell_at pivot ID_COL row, cell_at pivot LAP_COL row), cell_at pivot c row).

(** A wide table whose laps are text. *)
Definition wide_text_laps : DataFrame :=
  mkFrame [CStr "vehicle_id"; CStr "lap"; CStr "speed"]
          [[CStr "7"; CStr "one"; CFloat 101]].

End TelemetryRows.

(** ** [telemetry.py]: loading

    [load_telemetry] over the files of [PreprocessCli].  The decorator
    [st.cache_data] keeps the result of a call per race; the definition is
    the body of the function, what a call computes when the cache holds
    nothing for the race. *)

Module TelemetryLoad.
Import Config Preprocess PreprocessCli.
Import stdpp.base stdpp.gmap stdpp.strings.

(** [config.USE_AGGREGATED_TELEMETRY] *)
Definition USE_AGGREGATED_TELEMETRY : bool := true.

(** [pd.read_parquet]: only a complete Parquet file reads. *)
Definition read_parquet (f : file) : result DataFrame :=
  match f with
  | Parquet df => Ok df
  | Csv _ _ => Raise ValueError
  | Partial => Raise OSError
  end.

(** [pd.read_csv(csv_file, low_memory=False)]: the file in one piece; it
    raises when the file carries a fault. *)
Definition read_csv_whole (f : file) : result DataFrame :=
  match f with
  | Csv df fault =>
      match fault with
      | Some k =>
          if Nat.ltb k (length (read_chunks CHUNK_SIZE df))
          then Raise OSError else Ok df
      | None => Ok df
      end
  | Parquet _ => Raise ValueError
  | Partial => Raise ValueError
  end.

Definition time_cell (t : option Z) : cell :=
  match t with
  | Some ns => CTime ns
  | None => CNull
  end.

(** [df[name] = vals] *)
Definition set_column (df : DataFrame) (name : string) (vals : list cell)
  : DataFrame :=
  match position name (columns df) with
  | Some i =>
      mkFrame (columns df)
              (map (fun rv => <[i := snd rv]> (fst rv)) (combine (rows df) vals))
  | None =>
      mkFrame (columns df ++ [CStr name])
              (map (fun rv => fst rv ++ [snd rv]) (combine (rows df) vals))
  end.

Section Load.
Context {conv : PandasConv}.

(** The two conversions of the CSV path. *)
Definition convert_csv (df : DataFrame) : result DataFrame :=
  df <- (if has_column df "timestamp"
         then tsc <- getitem df "timestamp" ;;
              ts <- mapR to_datetime tsc ;;
              Ok (set_column df "timestamp" (map time_cell ts))
         else Ok df) ;;
  if has_column df "telemetry_value"
  then valc <- getitem df "telemetry_value" ;;
       Ok (set_column df "telemetry_value"
                      (map (fun c => value_cell (to_numeric c)) valc))
  else Ok df.

(** The fallback: the CSV file when it exists, converted; the empty
    table when it does not exist or anything raises. *)
Definition load_csv (fs : gmap string file) (csv_file : string) : DataFrame :=
  match fs !! csv_file with
  | Some f =>
      match (df <- read_csv_whole f ;; convert_csv df) with
      | Ok df => df
      | Raise _ => empty_frame
      end
  | None => empty_frame
  end.

Definition telemetry_files (race : string) : string * string :=
  if String.eqb race "Race 1"
  then (TELEMETRY_R1_AGGREGATED_PATH, TELEMETRY_R1_PATH)
  else (TELEMETRY_R2_AGGREGATED_PATH, TELEMETRY_R2_PATH).

Definition load_telemetry (fs : gmap string file) (race : string) : DataFrame :=
  let (aggregated_file, csv_file) := telemetry_files race in
  match (if USE_AGGREGATED_TELEMETRY then fs !! aggregated_file else None) with
  | Some f =>
      match read_parquet f with
      | Ok df => df
      | Raise _ => load_csv fs csv_file
      end
  | None => load_csv fs csv_file
  end.

End Load.

End TelemetryLoad.

(** ** [live_mode.py] and the session state

    [st.session_state] holds five entries, each always of one type; an
    entry that is not set is [None].  [time.time()] is an argument.  What
    a call asks of the framework is an [action]: nothing, or a rerun of
    the script after a sleep. *)

Module LiveMode.
Import Config DataProcessing.

(** [config.LIVE_MODE_UPDATE_INTERVAL], in seconds *)
Definition LIVE_MODE_UPDATE_INTERVAL : Q := 5.

Record session := mkSession {
  selected_race : option string;
  selected_vehicle : option (option string);
  current_lap_filter : option Z;
  last_lap_update : option Q;
  lap_live : option bool
}.

Inductive action :=
| Idle
| Rerun (slept : Q).

(** [laps[LAP_COL].max()] *)
Definition lap_max (laps : list LapRow) : option Z :=
  fold_right (fun r m => match lap r, m with
                         | Some z, Some w => Some (Z.max z w)
                         | Some z, None => Some z
                         | None, _ => m
                         end) None laps.

(** [int(laps[LAP_COL].max()) if not laps.empty else 28]; an absent
    maximum cannot be made an integer. *)
Definition max_lap_or_default (laps : list LapRow) : result Z :=
  match laps with
  | [] => Ok 28%Z
  | _ :: _ => match lap_max laps with
              | Some m => Ok m
              | None => Raise TypeError
              end
  end.

Definition qmax (a b : Q) : Q := if Qle_bool b a then a else b.

Section Live.
Context {conv : PandasConv}.

Definition handle_live_mode (file_source : workbook) (current_time : Q)
  (s : session) : result (session * action) :=
  match lap_live s with
  | Some true =>
      let s :=
        match last_lap_update s with
        | None =>
            mkSession (selected_race s) (selected_vehicle s) (Some 1%Z)
                      (Some current_time) (lap_live s)
        | Some _ => s
        end in
      let last_update :=
        match last_lap_update s with
        | Some t => t
        | None => current_time
        end in
      let time_since_update := current_time - last_update in
      let race_for_live :=
        match selected_race s with
        | Some r => r
        | None => "Race 1"
        end in
      laps_for_live <- build_laps file_source race_for_live ;;
      max_lap_live <- max_lap_or_default laps_for_live ;;
      if Qle_bool LIVE_MODE_UPDATE_INTERVAL time_since_update
      then
        let current_lap_value :=
          match current_lap_filter s with
          | Some c => c
          | None => 1%Z
          end in
        let next :=
          if (current_lap_value <? max_lap_live)%Z
          then (current_lap_value + 1)%Z
          else max_lap_live in
        Ok (mkSession (selected_race s) (selected_vehicle s) (Some next)
                      (Some current_time) (lap_live s),
            Rerun (3 # 10))
      else
        let wait_time :=
          qmin 1 (qmax (1 # 2) (LIVE_MODE_UPDATE_INTERVAL - time_since_update)) in
        Ok (s, Rerun wait_time)
  | _ => Ok (s, Idle)
  end.

End Live.

End LiveMode.

(** The key and the value of a sample: what the pivot reads of it. *)
Definition keyed_value (s : Sample) : key3 * option Q := (sample_key s, s_value s).

(** The sample without its timestamp, as the pivot of the application
    sees it. *)
Definition erase_time (s : Sample) : Sample :=
  mkSample (s_id s) (s_lap s) (s_name s) (s_value s) None.

(** The keys of the groups of a table, in the order of the grouping. *)
Definition agg_keys (l : list Sample) : list key3 :=
  isort key3_leb (unique_by key3_eqb (map sample_key (kept l))).

(** Every row has one cell per column. *)
Definition aligned (df : DataFrame) : Prop :=
  Forall (fun row => length row = length (columns df)) (rows df).

(** The row of the table that [load_telemetry] makes of a CSV file, from
    the row of the file and its parsed time: the time at the column
    [i1], the number at the column [i2]. *)
Module SingleChunk.
Import TelemetryLoad.
Import stdpp.base stdpp.gmap stdpp.strings.

Definition converted {conv : PandasConv} (i1 i2 : nat)
  (rt : list cell * option Z) : list cell :=
  let row1 := <[i1 := time_cell (snd rt)]> (fst rt) in
  <[i2 := value_cell (to_numeric (nth i2 row1 CNull))]> row1.

End SingleChunk.

(** * Facts *)

(** ** Orders and the insertion sort *)

Lemma ascii_compare_refl (a : ascii) : Ascii.compare a a = Eq.
Proof. unfold Ascii.compare. apply N.compare_refl. Qed.

Lemma ascii_compare_lt_trans (a b c : ascii) :
  Ascii.compare a b = Lt -> Ascii.compare b c = Lt -> Ascii.compare a c = Lt.
Proof.
  unfold Ascii.compare. rewrite !N.compare_lt_iff. apply N.lt_trans.
Qed.

Lemma string_compare_refl (s : string) : String.compare s s = Eq.
Proof.
  induction s as [|a s IH]; simpl; [reflexivity|].
  now rewrite ascii_compare_refl.
Qed.

Lemma string_compare_lt_trans (s1 s2 s3 : string) :
  String.compare s1 s2 = Lt -> String.compare s2 s3 = Lt ->
  String.compare s1 s3 = Lt.
Proof.
  revert s2 s3.
  induction s1 as [|a s1 IH]; intros [|b s2] [|c s3]; simpl; try congruence.
  destruct (Ascii.compare a b) eqn:Hab; try discriminate.
  - apply Ascii.compare_eq_iff in Hab. subst b.
    destruct (Ascii.compare a c) eqn:Hac; try congruence.
    apply IH.
  - intros _.
    destruct (Ascii.compare b c) eqn:Hbc; try discriminate.
    + apply Ascii.compare_eq_iff in Hbc. subst c. now rewrite Hab.
    + intros _. now rewrite (ascii_compare_lt_trans _ _ _ Hab Hbc).
Qed.

Lemma opt_compare_eq (a b : option Z) : opt_compare a b = Eq <-> a = b.
Proof.
  destruct a as [x|], b as [y|]; simpl; split; try congruence.
  - intros H. apply Z.compare_eq in H. now subst.
  - intros H. injection H as ->. apply Z.compare_refl.
Qed.

Lemma opt_compare_antisym (a b : option Z) :
  opt_compare b a = CompOpp (opt_compare a b).
Proof.
  destruct a as [x|], b as [y|]; simpl; try reflexivity.
  apply Z.compare_antisym.
Qed.

Lemma opt_compare_lt_trans (a b c : option Z) :
  opt_compare a b = Lt -> opt_compare b c = Lt -> opt_compare a c = Lt.
Proof.
  destruct a as [x|], b as [y|], c as [z|]; simpl; try congruence.
  rewrite !Z.compare_lt_iff. apply Z.lt_trans.
Qed.

Lemma key_compare_eq (k1 k2 : string * option Z) :
  key_compare k1 k2 = Eq <-> k1 = k2.
Proof.
  destruct k1 as [s1 l1], k2 as [s2 l2]. unfold key_compare. simpl.
  split.
  - destruct (String.compare s1 s2) eqn:Hs; simpl; try discriminate.
    apply String.compare_eq_iff in Hs. intros H%opt_compare_eq. congruence.
  - intros [= -> ->]. rewrite string_compare_refl. simpl.
    now apply opt_compare_eq.
Qed.

Lemma key_compare_antisym (k1 k2 : string * option Z) :
  key_compare k2 k1 = CompOpp (key_compare k1 k2).
Proof.
  destruct k1 as [s1 l1], k2 as [s2 l2]. unfold key_compare. simpl.
  rewrite (String.compare_antisym s2 s1), (opt_compare_antisym l1 l2).
  now destruct (String.compare s1 s2).
Qed.

Lemma key_compare_lt_trans (k1 k2 k3 : string * option Z) :
  key_compare k1 k2 = Lt -> key_compare k2 k3 = Lt -> key_compare k1 k3 = Lt.
Proof.
  destruct k1 as [s1 l1], k2 as [s2 l2], k3 as [s3 l3].
  unfold key_compare. simpl.
  destruct (String.compare s1 s2) eqn:H12; simpl; try discriminate.
  - apply String.compare_eq_iff in H12. subst s2.
    destruct (String.compare s1 s3) eqn:H13; simpl; try congruence.
    apply opt_compare_lt_trans.
  - intros _.
    destruct (String.compare s2 s3) eqn:H23; simpl; try discriminate.
    + apply String.compare_eq_iff in H23. subst s3. now rewrite H12.
    + intros _. now rewrite (string_compare_lt_trans _ _ _ H12 H23).
Qed.

Section SortFacts.
Context {A : Type} (leb : A -> A -> bool).

Lemma insert_perm (x : A) (l : list A) : Permutation (place leb x l) (x :: l).
Proof.
  induction l as [|y t IH]; simpl; [reflexivity|].
  destruct (leb x y); [reflexivity|].
  rewrite IH. apply perm_swap.
Qed.

Lemma isort_perm (l : list A) : Permutation (isort leb l) l.
Proof.
  induction l as [|x t IH]; simpl; [reflexivity|].
  rewrite insert_perm. now constructor.
Qed.

Lemma isort_In (l : list A) (x : A) : In x (isort leb l) <-> In x l.
Proof.
  split; apply Permutation_in; [|symmetry]; apply isort_perm.
Qed.

Hypothesis leb_total : forall a b, leb a b = true \/ leb b a = true.
Hypothesis leb_trans :
  forall a b c, leb a b = true -> leb b c = true -> leb a c = true.

Lemma insert_sorted (x : A) (l : list A) :
  StronglySorted (fun a b => leb a b = true) l ->
  StronglySorted (fun a b => leb a b = true) (place leb x l).
Proof.
  induction 1 as [|y t Hs IH Hy]; simpl.
  - repeat constructor.
  - destruct (leb x y) eqn:Hxy.
    + constructor; [now constructor|].
      constructor; [assumption|].
      eapply Forall_impl; [|exact Hy]. intros z Hz. eauto.
    + constructor; [assumption|].
      assert (Hyx : leb y x = true)
        by (destruct (leb_total x y); congruence).
      rewrite Forall_forall. intros z Hz.
      apply (Permutation_in _ (insert_perm x t)) in Hz.
      destruct Hz as [<-|Hz]; [assumption|].
      rewrite Forall_forall in Hy. now apply Hy.
Qed.

Lemma isort_sorted (l : list A) :
  StronglySorted (fun a b => leb a b = true) (isort leb l).
Proof.
  induction l as [|x t IH]; simpl; [constructor|].
  now apply insert_sorted.
Qed.
End SortFacts.

(** ** Facts on lap reconstruction *)

Import Config DataProcessing.

Lemma opt_Z_eqb_eq (a b : option Z) : opt_Z_eqb a b = true <-> a = b.
Proof.
  destruct a as [x|], b as [y|]; simpl; split; try congruence.
  - intros H%Z.eqb_eq. congruence.
  - intros [= ->]. apply Z.eqb_refl.
Qed.

Lemma same_key_iff (r1 r2 : LapRow) :
  same_key r1 r2 = true <-> lap_key r1 = lap_key r2.
Proof.
  unfold same_key, lap_key. rewrite andb_true_iff, String.eqb_eq, opt_Z_eqb_eq.
  split; [intros [-> ->]; reflexivity | intros [= -> ->]; auto].
Qed.

Lemma same_key_false_iff (r1 r2 : LapRow) :
  same_key r1 r2 = false <-> lap_key r1 <> lap_key r2.
Proof.
  rewrite <- same_key_iff. destruct (same_key r1 r2); split; congruence.
Qed.

Lemma lap_row_eta (r : LapRow) (v : string) (l : option Z) :
  lap_key r = (v, l) -> mkLap v l (lap_time_s r) = r.
Proof. destruct r. unfold lap_key. simpl. congruence. Qed.

Lemma lap_leb_total (a b : LapRow) : lap_leb a b = true \/ lap_leb b a = true.
Proof.
  unfold lap_leb. rewrite (key_compare_antisym (lap_key a) (lap_key b)).
  destruct (key_compare (lap_key a) (lap_key b)); simpl; auto.
Qed.

Lemma lap_leb_trans (a b c : LapRow) :
  lap_leb a b = true -> lap_leb b c = true -> lap_leb a c = true.
Proof.
  unfold lap_leb.
  destruct (key_compare (lap_key a) (lap_key b)) eqn:Hab; try discriminate;
    intros _.
  - apply key_compare_eq in Hab. now rewrite Hab.
  - destruct (key_compare (lap_key b) (lap_key c)) eqn:Hbc; try discriminate;
      intros _.
    + apply key_compare_eq in Hbc. rewrite <- Hbc, Hab. reflexivity.
    + now rewrite (key_compare_lt_trans _ _ _ Hab Hbc).
Qed.

(** A list sorted by [lap_leb] whose keys are pairwise distinct is strictly
    ascending. *)
Lemma sorted_distinct_strict (l : list LapRow) :
  StronglySorted (fun a b => lap_leb a b = true) l ->
  NoDup (map lap_key l) ->
  StronglySorted key_lt (map lap_key l).
Proof.
  induction 1 as [|a t Hs IH Ha]; simpl; intros Hnd; [constructor|].
  inversion Hnd as [|? ? Hnotin Hnd']; subst.
  constructor; [auto|].
  rewrite Forall_forall. intros k Hk.
  apply in_map_iff in Hk as (b & <- & Hb).
  rewrite Forall_forall in Ha. specialize (Ha b Hb).
  unfold lap_leb in Ha. unfold key_lt.
  destruct (key_compare (lap_key a) (lap_key b)) eqn:Hc; try discriminate.
  - apply key_compare_eq in Hc. exfalso. apply Hnotin. rewrite Hc.
    now apply in_map.
  - reflexivity.
Qed.

Lemma filter_keeps_distinct {Row Key : Type} (key : Row -> Key)
      (keep : Row -> bool) (rws : list Row) :
  NoDup (map key rws) -> NoDup (map key (filter keep rws)).
Proof.
  intros Hnd. induction rws as [|r rest IH]; [constructor|].
  simpl in Hnd. apply NoDup_cons_iff in Hnd as [Hfresh Hrest].
  simpl. destruct (keep r); [|now apply IH].
  simpl. apply NoDup_cons; [|now apply IH].
  rewrite in_map_iff. intros (r' & Hkey & Hin).
  apply filter_In in Hin as [Hin _].
  apply Hfresh. rewrite <- Hkey. now apply in_map.
Qed.

Section DropDuplicates.

Lemma drop_duplicates_incl (l : list (nat * LapRow)) (p : nat * LapRow) :
  In p (drop_duplicates l) -> In p l.
Proof.
  induction l as [|a t IH]; simpl; [auto|].
  destruct (existsb _ t); simpl; intuition.
Qed.

Lemma drop_duplicates_nodup (l : list (nat * LapRow)) :
  NoDup (map pair_key (drop_duplicates l)).
Proof.
  induction l as [|a t IH]; simpl; [constructor|].
  destruct (existsb _ t) eqn:He; [assumption|].
  simpl. constructor; [|assumption].
  intros Hin. apply in_map_iff in Hin as (p & Hk & Hp).
  apply drop_duplicates_incl in Hp.
  assert (Ht : existsb (fun p' => same_key (snd a) (snd p')) t = true).
  { apply existsb_exists. exists p. split; [assumption|].
    apply same_key_iff. symmetry. exact Hk. }
  congruence.
Qed.

(** A row survives exactly when it is the last one of its key. *)
Lemma drop_duplicates_last (l : list (nat * LapRow)) (p : nat * LapRow) :
  In p (drop_duplicates l) <->
  exists l1 l2, l = l1 ++ p :: l2 /\
                forall p', In p' l2 -> pair_key p' <> pair_key p.
Proof.
  split.
  - induction l as [|a t IH]; simpl; [contradiction|].
    destruct (existsb _ t) eqn:He.
    + intros Hin. destruct (IH Hin) as (l1 & l2 & -> & Hl2).
      exists (a :: l1), l2. split; [reflexivity|assumption].
    + intros [<-|Hin].
      * exists [], t. split; [reflexivity|].
        intros p' Hp' Hk.
        assert (existsb (fun p' => same_key (snd a) (snd p')) t = true).
        { apply existsb_exists. exists p'. split; [assumption|].
          apply same_key_iff. symmetry. exact Hk. }
        congruence.
      * destruct (IH Hin) as (l1 & l2 & -> & Hl2).
        exists (a :: l1), l2. split; [reflexivity|assumption].
  - intros (l1 & l2 & -> & Hl2).
    induction l1 as [|a l1 IH]; simpl.
    + destruct (existsb _ l2) eqn:He; [|now left].
      apply existsb_exists in He as (p' & Hp' & Hk).
      apply same_key_iff in Hk. exfalso. apply (Hl2 p' Hp'). symmetry. exact Hk.
    + destruct (existsb _ (l1 ++ p :: l2)); [assumption|now right].
Qed.

Lemma drop_duplicates_keeps_key (l : list (nat * LapRow)) (p : nat * LapRow) :
  In p l -> exists p', In p' (drop_duplicates l) /\ pair_key p' = pair_key p.
Proof.
  revert p. induction l as [|a t IH]; intros p; simpl; [contradiction|].
  intros [->|Hin].
  - destruct (existsb _ t) eqn:He.
    + apply existsb_exists in He as (p' & Hp' & Hk).
      apply same_key_iff in Hk.
      destruct (IH _ Hp') as (p'' & Hp'' & Hk'').
      exists p''. split; [assumption|]. unfold pair_key in *. congruence.
    + exists p. split; [now left|reflexivity].
  - destruct (IH _ Hin) as (p' & Hp' & Hk).
    exists p'. split; [|assumption].
    destruct (existsb _ t); [assumption|now right].
Qed.

End DropDuplicates.

Section MergeFacts.

Lemma merge_outer_right (L R : list LapRow) (r : LapRow) :
  In r R -> In r (merge_outer L R).
Proof.
  intros Hr. unfold merge_outer. apply in_or_app.
  destruct (existsb (fun l => same_key l r) L) eqn:He.
  - left. apply existsb_exists in He as (l & Hl & Hk).
    apply in_flat_map. exists l. split; [assumption|]. unfold merge_row.
    assert (Hin : In r (filter (same_key l) R))
      by (apply filter_In; auto).
    destruct (filter (same_key l) R) as [|m ms]; [contradiction|].
    apply in_map_iff. exists r. split; [|assumption].
    apply lap_row_eta. apply same_key_iff in Hk. now rewrite <- Hk.
  - right. apply filter_In. split; [assumption|]. now rewrite He.
Qed.

Lemma merge_outer_inv (L R : list LapRow) (r : LapRow) :
  In r (merge_outer L R) ->
  In r R \/
  (exists l, In l L /\ r = mkLap (vehicle_id l) (lap l) None /\
             forall r0, In r0 R -> lap_key r0 <> lap_key l).
Proof.
  unfold merge_outer. intros Hin. apply in_app_or in Hin as [Hin|Hin].
  - apply in_flat_map in Hin as (l & Hl & Hin). unfold merge_row in Hin.
    destruct (filter (same_key l) R) as [|m ms] eqn:Hf.
    + right. exists l. destruct Hin as [<-|[]].
      split; [assumption|]. split; [reflexivity|].
      intros r0 Hr0 Hk.
      assert (Hin : In r0 (filter (same_key l) R)).
      { apply filter_In. split; [assumption|]. apply same_key_iff. auto. }
      rewrite Hf in Hin. contradiction.
    + left. apply in_map_iff in Hin as (r0 & <- & Hr0).
      rewrite <- Hf in Hr0. apply filter_In in Hr0 as [Hr0 Hk].
      apply same_key_iff in Hk.
      rewrite (lap_row_eta r0 (vehicle_id l) (lap l)); [assumption|].
      now rewrite <- Hk.
  - left. now apply filter_In in Hin as [Hin _].
Qed.

Lemma filter_same_key_unique (R : list LapRow) (l : LapRow) :
  NoDup (map lap_key R) ->
  filter (same_key l) R = [] \/ exists r, filter (same_key l) R = [r].
Proof.
  induction R as [|a t IH]; simpl; intros Hnd; [now left|].
  inversion Hnd as [|? ? Hnotin Hnd']; subst.
  destruct (same_key l a) eqn:Hk.
  - right. exists a. f_equal.
    destruct (filter (same_key l) t) as [|b bs] eqn:Hf; [reflexivity|].
    exfalso. apply Hnotin.
    assert (Hb : In b (filter (same_key l) t)) by (rewrite Hf; now left).
    apply filter_In in Hb as [Hb Hkb].
    apply same_key_iff in Hk, Hkb. rewrite <- Hk, Hkb. now apply in_map.
  - auto.
Qed.

Lemma merge_outer_left_keys (L R : list LapRow) :
  NoDup (map lap_key R) ->
  map lap_key (flat_map (merge_row R) L) = map lap_key L.
Proof.
  intros Hnd. induction L as [|l t IH]; [reflexivity|].
  cbn [flat_map map]. rewrite map_app, IH. f_equal. unfold merge_row.
  destruct (filter_same_key_unique R l Hnd) as [->|[r ->]]; reflexivity.
Qed.

Lemma merge_outer_nodup (L R : list LapRow) :
  NoDup (map lap_key L) -> NoDup (map lap_key R) ->
  NoDup (map lap_key (merge_outer L R)).
Proof.
  intros HL HR. unfold merge_outer. rewrite map_app.
  rewrite (merge_outer_left_keys L R HR).
  apply NoDup_app; [assumption | now apply filter_keeps_distinct |].
  intros k HkL HkR.
  apply in_map_iff in HkR as (r & <- & Hr).
  apply filter_In in Hr as [_ Hr]. apply negb_true_iff in Hr.
  apply in_map_iff in HkL as (l & Hk & Hl).
  assert (existsb (fun l0 => same_key l0 r) L = true).
  { apply existsb_exists. exists l. split; [assumption|].
    now apply same_key_iff. }
  congruence.
Qed.

End MergeFacts.

Lemma bind_Ok {A B} (m : result A) (k : A -> result B) (b : B) :
  bind m k = Ok b -> exists a, m = Ok a /\ k a = Ok b.
Proof. destruct m as [a|e]; simpl; [eauto|discriminate]. Qed.

Lemma NoDup_map_inj_on {A B : Type} (f : A -> B) (l : list A) (a b : A) :
  NoDup (map f l) -> In a l -> In b l -> f a = f b -> a = b.
Proof.
  induction l as [|x t IH]; simpl; [contradiction|].
  intros Hnd Ha Hb Hf. inversion Hnd as [|? ? Hnotin Hnd']; subst.
  destruct Ha as [->|Ha], Hb as [->|Hb]; auto.
  - exfalso. apply Hnotin. rewrite Hf. now apply in_map.
  - exfalso. apply Hnotin. rewrite <- Hf. now apply in_map.
Qed.

Section ReconstructionFacts.
Context {conv : PandasConv}.

Lemma compute_inv (df : option DataFrame) (id_col lap_col : string)
      (time_cols : list string) (res : list LapRow) :
  compute_lap_time_from_timestamps df id_col lap_col time_cols = Ok res ->
  res = [] \/
  exists d ts_col base,
    df = Some d /\ In ts_col time_cols /\
    coerce d id_col lap_col ts_col = Ok base /\
    res = reset_index (drop_duplicates (groupby_apply base)).
Proof.
  unfold compute_lap_time_from_timestamps.
  destruct df as [d|]; [|intros [= <-]; now left].
  destruct (df_empty d); [intros [= <-]; now left|].
  destruct (negb (has_column d id_col) || negb (has_column d lap_col));
    [intros [= <-]; now left|].
  destruct (find (has_column d) time_cols) as [ts_col|] eqn:Hf;
    [|intros [= <-]; now left].
  intros H. apply bind_Ok in H as (base & Hb & [= <-]).
  right. exists d, ts_col, base. apply find_some in Hf as [Hf _]. auto.
Qed.

Lemma compute_nodup (df : option DataFrame) (id_col lap_col : string)
      (time_cols : list string) (res : list LapRow) :
  compute_lap_time_from_timestamps df id_col lap_col time_cols = Ok res ->
  NoDup (map lap_key res).
Proof.
  intros H. apply compute_inv in H as [->|(d & c & base & _ & _ & _ & ->)].
  - constructor.
  - unfold reset_index. rewrite map_map. apply drop_duplicates_nodup.
Qed.

Lemma merge_sources_nodup (el tl : list LapRow) :
  NoDup (map lap_key el) -> NoDup (map lap_key tl) ->
  NoDup (map lap_key (merge_sources el tl)).
Proof.
  intros He Ht. unfold merge_sources. destruct tl; [assumption|].
  now apply merge_outer_nodup.
Qed.

Lemma finalize_In (merged : list LapRow) (r : LapRow) :
  In r (finalize merged) <->
  In r merged /\ (merged = [] \/ lap r <> None).
Proof.
  unfold finalize. destruct merged as [|m ms]; [simpl; tauto|].
  rewrite isort_In. unfold dropna_lap. rewrite filter_In.
  destruct (lap r) as [z|].
  - split; intros [H1 _]; (split; [exact H1|]); [right; discriminate|reflexivity].
  - split; intros [H1 H2]; [discriminate|].
    destruct H2 as [H2|H2]; [discriminate|congruence].
Qed.

Lemma finalize_sorted (merged : list LapRow) :
  NoDup (map lap_key merged) ->
  StronglySorted key_lt (map lap_key (finalize merged)).
Proof.
  intros Hnd. unfold finalize. destruct merged as [|m ms]; [constructor|].
  apply sorted_distinct_strict.
  - apply isort_sorted; [apply lap_leb_total | apply lap_leb_trans].
  - eapply Permutation_NoDup.
    + apply Permutation_map. symmetry. apply isort_perm.
    + now apply filter_keeps_distinct.
Qed.

Lemma build_laps_inv (wb : workbook) (race : string) (out : list LapRow) :
  build_laps wb race = Ok out ->
  exists el tl,
    end_laps_of wb race = Ok el /\ time_laps_of wb race = Ok tl /\
    out = finalize (merge_sources el tl).
Proof.
  unfold build_laps. intros H.
  apply bind_Ok in H as (el & He & H).
  apply bind_Ok in H as (tl & Ht & [= <-]). eauto.
Qed.

End ReconstructionFacts.

(** C1. When a (vehicle_id, lap) pair has a duration in the end-log
    result and one in the time-log result (whether or not the two
    differ), [build_laps] returns a table in which that pair carries the
    time-log duration, and no other duration. *)
Theorem build_laps_time_log_wins
  {conv : PandasConv} (wb : workbook) (race : string)
  (el tl : list LapRow) (v : string) (z : Z) (d_end d_time : option Q) :
  end_laps_of wb race = Ok el ->
  time_laps_of wb race = Ok tl ->
  In (mkLap v (Some z) d_end) el ->
  In (mkLap v (Some z) d_time) tl ->
  exists out,
    build_laps wb race = Ok out /\
    In (mkLap v (Some z) d_time) out /\
    forall d, In (mkLap v (Some z) d) out -> d = d_time.
Proof.
  intros He Ht Hin_e Hin_t.
  exists (finalize (merge_sources el tl)).
  split; [unfold build_laps; rewrite He, Ht; reflexivity|].
  assert (Hm : merge_sources el tl = merge_outer el tl)
    by (unfold merge_sources; destruct tl; [contradiction|reflexivity]).
  rewrite Hm. split.
  - apply finalize_In. split; [now apply merge_outer_right|].
    right. simpl. discriminate.
  - intros d Hd. apply finalize_In in Hd as [Hd _].
    apply merge_outer_inv in Hd as [Hd|(l & _ & Hl & Hno)].
    + assert (Hnd : NoDup (map lap_key tl))
        by (unfold time_laps_of in Ht; eapply compute_nodup; eauto).
      pose proof (NoDup_map_inj_on lap_key tl _ _ Hnd Hd Hin_t eq_refl) as Heq.
      congruence.
    + exfalso. apply (Hno _ Hin_t). injection Hl as -> -> _. reflexivity.
Qed.

(** ** Where the rows of a result come from *)

Section Provenance.
Context {conv : PandasConv}.

Lemma diff_from_prov (prev : option Z) (g : list BaseRow) (p : nat * LapRow) :
  In p (diff_from prev g) -> exists b, In b g /\ from_base b p.
Proof.
  revert prev. induction g as [|r t IH]; intros prev; simpl; [contradiction|].
  intros [<-|Hin].
  - exists r. unfold from_base. simpl. auto.
  - destruct (IH _ Hin) as (b & Hb & Hp). eauto.
Qed.

Lemma per_id_prov (g : list BaseRow) (p : nat * LapRow) :
  In p (per_id g) -> exists b, In b g /\ from_base b p.
Proof.
  unfold per_id, sort_values, diff. intros Hin.
  assert (H : exists b, In b (isort row_leb g) /\ from_base b p).
  { destruct (isort row_leb g) as [|r t]; [contradiction|].
    destruct Hin as [<-|Hin].
    - exists r. unfold from_base. simpl. auto.
    - apply diff_from_prov in Hin as (b & Hb & Hp). exists b. simpl. auto. }
  destruct H as (b & Hb & Hp). apply isort_In in Hb. eauto.
Qed.

Lemma reindex_incl (ax : list nat) (res : list (nat * LapRow)) (p : nat * LapRow) :
  In p (reindex ax res) -> In p res.
Proof.
  unfold reindex. intros Hin. apply in_flat_map in Hin as (i & _ & Hin).
  now apply filter_In in Hin as [Hin _].
Qed.

Lemma groupby_apply_prov (base : list BaseRow) (p : nat * LapRow) :
  In p (groupby_apply base) -> exists b, In b base /\ from_base b p.
Proof.
  unfold groupby_apply. intros Hin.
  assert (Hc : In p (List.concat (map per_id (groups base)))).
  { destruct (negb _); [assumption|]. now apply reindex_incl in Hin. }
  apply in_concat in Hc as (res & Hres & Hp).
  apply in_map_iff in Hres as (g & <- & Hg).
  unfold groups in Hg. apply in_map_iff in Hg as (k & <- & _).
  apply per_id_prov in Hp as (b & Hb & Hp).
  unfold group_of in Hb. apply filter_In in Hb as [Hb _]. eauto.
Qed.

Lemma mk_base_prov (n : nat) (ids : list string) (laps ts : list (option Z))
      (b : BaseRow) :
  In b (mk_base n ids laps ts) ->
  exists k, nth_error ids k = Some (b_id b) /\
            nth_error laps k = Some (b_lap b) /\
            nth_error ts k = Some (b_ts b).
Proof.
  revert n laps ts.
  induction ids as [|v ids IH]; intros n [|l laps] [|t ts]; simpl;
    try contradiction.
  intros [<-|Hin].
  - exists O. simpl. auto.
  - destruct (IH _ _ _ Hin) as (k & H1 & H2 & H3). exists (S k). auto.
Qed.

Lemma mapR_nth {A B} (f : A -> result B) (l : list A) (r : list B)
      (k : nat) (y : B) :
  mapR f l = Ok r -> nth_error r k = Some y ->
  exists x, nth_error l k = Some x /\ f x = Ok y.
Proof.
  revert r k. induction l as [|a t IH]; intros r k; simpl.
  - intros [= <-]. destruct k; discriminate.
  - intros H. apply bind_Ok in H as (b & Hb & H).
    apply bind_Ok in H as (bs & Hbs & [= <-]).
    destruct k as [|k]; simpl.
    + intros [= <-]. eauto.
    + intros Hk. destruct (IH _ _ Hbs Hk) as (x & Hx & Hf). eauto.
Qed.

Lemma getitem_nth (df : DataFrame) (name : string) (cs : list cell)
      (k : nat) (c : cell) :
  getitem df name = Ok cs -> nth_error cs k = Some c ->
  exists i row, position name (columns df) = Some i /\
                nth_error (rows df) k = Some row /\ c = nth i row CNull.
Proof.
  unfold getitem. destruct (position name (columns df)) as [i|];
    [|discriminate].
  intros [= <-] Hk. rewrite nth_error_map in Hk.
  destruct (nth_error (rows df) k) as [row|]; [|discriminate].
  injection Hk as <-. eauto.
Qed.

Lemma astype_Int64_Some (v : option Q) (z : Z) :
  astype_Int64 v = Ok (Some z) -> exists q, v = Some q /\ q == inject_Z z.
Proof.
  destruct v as [q|]; unfold astype_Int64; [|discriminate].
  cbv zeta.
  destruct (Pos.eqb (Qden (Qred q)) 1) eqn:Hd; [|discriminate].
  destruct (int64_range (Qnum (Qred q))); [|discriminate].
  intros [= <-]. exists q. split; [reflexivity|].
  apply Pos.eqb_eq in Hd. rewrite <- (Qred_correct q) at 1.
  destruct (Qred q) as [n d]. simpl in *. subst d. reflexivity.
Qed.

Lemma coerce_prov (df : DataFrame) (ts_col : string) (base : list BaseRow)
      (b : BaseRow) (z : Z) :
  coerce df ID_COL LAP_COL ts_col = Ok base -> In b base ->
  b_lap b = Some z -> parsed_row df (b_id b) z.
Proof.
  unfold coerce. intros H Hb Hz.
  apply bind_Ok in H as (ids & Hids & H).
  apply bind_Ok in H as (lapc & Hlapc & H).
  apply bind_Ok in H as (laps & Hlaps & H).
  apply bind_Ok in H as (tsc & Htsc & [= <-]).
  apply mk_base_prov in Hb as (k & Hk1 & Hk2 & _).
  rewrite nth_error_map in Hk1.
  destruct (nth_error ids k) as [c1|] eqn:Hc1; [|discriminate].
  injection Hk1 as Hk1.
  destruct (mapR_nth _ _ _ _ _ Hlaps Hk2) as (x & Hx & Hfx).
  rewrite nth_error_map in Hx.
  destruct (nth_error lapc k) as [c2|] eqn:Hc2; [|discriminate].
  injection Hx as <-.
  destruct (getitem_nth _ _ _ _ _ Hids Hc1) as (i & row & Hi & Hrow & ->).
  destruct (getitem_nth _ _ _ _ _ Hlapc Hc2) as (j & row' & Hj & Hrow' & ->).
  assert (row' = row) by congruence. subst row'.
  rewrite Hz in Hfx. apply astype_Int64_Some in Hfx as (q & Hq & Hqz).
  exists row, i, j, q. repeat split; auto.
  eapply nth_error_In; eauto.
Qed.

Lemma compute_prov (df : option DataFrame) (time_cols : list string)
      (res : list LapRow) (r : LapRow) (z : Z) :
  compute_lap_time_from_timestamps df ID_COL LAP_COL time_cols = Ok res ->
  In r res -> lap r = Some z ->
  exists d, df = Some d /\ parsed_row d (vehicle_id r) z.
Proof.
  intros H Hr Hz.
  apply compute_inv in H as [->|(d & c & base & -> & _ & Hb & ->)];
    [contradiction|].
  exists d. split; [reflexivity|].
  unfold reset_index in Hr. apply in_map_iff in Hr as (p & <- & Hp).
  apply drop_duplicates_incl, groupby_apply_prov in Hp
    as (b & Hbin & _ & Hv & Hl).
  rewrite Hv. eapply coerce_prov; eauto. congruence.
Qed.

End Provenance.

(** C2 (as amended).  Every record of the output of [build_laps] carries
    a non-null lap number, which is the whole number that the lap value of
    a row of the end-log or of the time-log sheet parses to, for the same
    vehicle; so a row whose lap fails the numeric parse gives no record.
    No lower bound on the lap number is enforced. *)
Theorem build_laps_lap_parsed
  {conv : PandasConv} (wb : workbook) (race : string) (out : list LapRow)
  (r : LapRow) :
  build_laps wb race = Ok out -> In r out ->
  exists z df,
    lap r = Some z /\
    (read_sheet wb (fst (race_sheets race)) = Some df \/
     read_sheet wb (snd (race_sheets race)) = Some df) /\
    parsed_row df (vehicle_id r) z.
Proof.
  intros H Hr. apply build_laps_inv in H as (el & tl & He & Ht & ->).
  apply finalize_In in Hr as [Hr Hlap].
  assert (Hz : exists z, lap r = Some z).
  { destruct Hlap as [Hlap|Hlap]; [rewrite Hlap in Hr; contradiction|].
    destruct (lap r) as [z|]; [eauto|congruence]. }
  destruct Hz as [z Hz]. exists z.
  assert (Hsrc : In r tl \/ exists l, In l el /\ lap_key l = lap_key r).
  { unfold merge_sources in Hr. destruct tl as [|t tl'].
    - right. eauto.
    - apply merge_outer_inv in Hr as [Hr|(l & Hl & -> & _)]; [now left|].
      right. exists l. auto. }
  destruct Hsrc as [Hin|(l & Hl & Hk)].
  - unfold time_laps_of in Ht.
    destruct (compute_prov _ _ _ _ _ Ht Hin Hz) as (d & Hd & Hp).
    exists d. split; [exact Hz|]. split; [right; exact Hd|exact Hp].
  - unfold end_laps_of in He. unfold lap_key in Hk. injection Hk as Hv Hlp.
    assert (Hzl : lap l = Some z) by congruence.
    destruct (compute_prov _ _ _ _ _ He Hl Hzl) as (d & Hd & Hp).
    exists d. split; [exact Hz|]. split; [left; exact Hd|].
    rewrite <- Hv. exact Hp.
Qed.

(** ** Example workbooks *)

Lemma build_laps_time_log_wins_witness :
  let el := [mkLap "12" (Some 1%Z) None; mkLap "12" (Some 2%Z) (Some 90)] in
  let tl := [mkLap "12" (Some 1%Z) None; mkLap "12" (Some 2%Z) (Some 95)] in
  (end_laps_of (conv := sheet_conv) wb_both "Race 1" = Ok el /\
   time_laps_of (conv := sheet_conv) wb_both "Race 1" = Ok tl /\
   In (mkLap "12" (Some 2%Z) (Some 90)) el /\
   In (mkLap "12" (Some 2%Z) (Some 95)) tl) /\
  exists out,
    build_laps (conv := sheet_conv) wb_both "Race 1" = Ok out /\
    In (mkLap "12" (Some 2%Z) (Some 95)) out /\
    forall d, In (mkLap "12" (Some 2%Z) d) out -> d = Some 95.
Proof.
  intros el tl.
  assert (He : end_laps_of (conv := sheet_conv) wb_both "Race 1" = Ok el)
    by (vm_compute; reflexivity).
  assert (Ht : time_laps_of (conv := sheet_conv) wb_both "Race 1" = Ok tl)
    by (vm_compute; reflexivity).
  assert (Hie : In (mkLap "12" (Some 2%Z) (Some 90)) el)
    by (simpl; auto).
  assert (Hit : In (mkLap "12" (Some 2%Z) (Some 95)) tl)
    by (simpl; auto).
  split; [auto|].
  exact (build_laps_time_log_wins wb_both "Race 1" el tl "12" 2%Z
           (Some 90) (Some 95) He Ht Hie Hit).
Defined.

Lemma build_laps_keeps_lap_zero :
  ~ (forall out r,
        build_laps (conv := sheet_conv) wb_lap_zero "Race 1" = Ok out ->
        In r out -> exists z, lap r = Some z /\ (1 <= z)%Z).
Proof.
  intros H.
  assert (E : build_laps (conv := sheet_conv) wb_lap_zero "Race 1"
              = Ok [mkLap "12" (Some 0%Z) None]) by (vm_compute; reflexivity).
  destruct (H _ (mkLap "12" (Some 0%Z) None) E (or_introl eq_refl))
    as (z & Hz & Hle).
  simpl in Hz. injection Hz as <-. lia.
Qed.

Lemma build_laps_lap_parsed_witness :
  let out := [mkLap "12" (Some 2%Z) None] in
  let r := mkLap "12" (Some 2%Z) None in
  (build_laps (conv := sheet_conv) wb_bad_lap "Race 1" = Ok out /\ In r out) /\
  exists z df,
    lap r = Some z /\
    (read_sheet wb_bad_lap (fst (race_sheets "Race 1")) = Some df \/
     read_sheet wb_bad_lap (snd (race_sheets "Race 1")) = Some df) /\
    parsed_row (conv := sheet_conv) df (vehicle_id r) z.
Proof.
  intros out r.
  assert (E : build_laps (conv := sheet_conv) wb_bad_lap "Race 1" = Ok out)
    by (vm_compute; reflexivity).
  assert (Hr : In r out) by (simpl; auto).
  split; [auto|].
  exact (build_laps_lap_parsed wb_bad_lap "Race 1" out r E Hr).
Defined.

(** C3.  The output of [build_laps] has at most one record per
    (vehicle_id, lap) pair and is strictly ascending by (vehicle_id, lap);
    and the result of a reconstruction keeps, of the rows that the grouped
    computation produced for one pair, the last one. *)
Theorem build_laps_unique_sorted_keep_last
  {conv : PandasConv} (wb : workbook) (race : string) (out : list LapRow)
  (df : option DataFrame) (id_col lap_col : string) (time_cols : list string)
  (res : list LapRow) :
  build_laps wb race = Ok out ->
  compute_lap_time_from_timestamps df id_col lap_col time_cols = Ok res ->
  (NoDup (map lap_key out) /\ StronglySorted key_lt (map lap_key out)) /\
  (res = [] \/
   exists d ts_col base,
     df = Some d /\ In ts_col time_cols /\
     coerce d id_col lap_col ts_col = Ok base /\
     forall r, In r res <->
               exists l1 i l2,
                 groupby_apply base = l1 ++ (i, r) :: l2 /\
                 forall p, In p l2 -> lap_key (snd p) <> lap_key r).
Proof.
  intros Hb Hc. split.
  - apply build_laps_inv in Hb as (el & tl & He & Ht & ->).
    assert (Hnd : NoDup (map lap_key (merge_sources el tl))).
    { apply merge_sources_nodup.
      - unfold end_laps_of in He. eapply compute_nodup; eauto.
      - unfold time_laps_of in Ht. eapply compute_nodup; eauto. }
    split; [|now apply finalize_sorted].
    unfold finalize. destruct (merge_sources el tl) as [|m ms]; [constructor|].
    eapply Permutation_NoDup.
    + apply Permutation_map. symmetry. apply isort_perm.
    + now apply filter_keeps_distinct.
  - apply compute_inv in Hc as [->|(d & c & base & -> & Hin & Hco & ->)];
      [now left|].
    right. exists d, c, base. repeat split; auto.
    + unfold reset_index. intros Hr. apply in_map_iff in Hr as ([i r'] & Hs & Hp).
      simpl in Hs. subst r'.
      apply drop_duplicates_last in Hp as (l1 & l2 & Hl & Hno).
      exists l1, i, l2. auto.
    + intros (l1 & i & l2 & Hl & Hno).
      unfold reset_index. apply in_map_iff. exists (i, r). split; [reflexivity|].
      apply drop_duplicates_last. exists l1, l2. auto.
Qed.

Lemma build_laps_unique_sorted_keep_last_witness :
  let out := [mkLap "12" (Some 1%Z) None; mkLap "12" (Some 2%Z) (Some 5)] in
  let df := read_sheet wb_repeat "R1_barber_lap_end" in
  (build_laps (conv := sheet_conv) wb_repeat "Race 1" = Ok out /\
   compute_lap_time_from_timestamps (conv := sheet_conv)
     df ID_COL LAP_COL TIME_COLS_END = Ok out) /\
  (NoDup (map lap_key out) /\ StronglySorted key_lt (map lap_key out)) /\
  (out = [] \/
   exists d ts_col base,
     df = Some d /\ In ts_col TIME_COLS_END /\
     coerce (conv := sheet_conv) d ID_COL LAP_COL ts_col = Ok base /\
     forall r, In r out <->
               exists l1 i l2,
                 groupby_apply base = l1 ++ (i, r) :: l2 /\
                 forall p, In p l2 -> lap_key (snd p) <> lap_key r).
Proof.
  intros out df.
  assert (Hb : build_laps (conv := sheet_conv) wb_repeat "Race 1" = Ok out)
    by (vm_compute; reflexivity).
  assert (Hc : compute_lap_time_from_timestamps (conv := sheet_conv)
                 df ID_COL LAP_COL TIME_COLS_END = Ok out)
    by (vm_compute; reflexivity).
  split; [auto|].
  exact (build_laps_unique_sorted_keep_last wb_repeat "Race 1" out df
           ID_COL LAP_COL TIME_COLS_END out Hb Hc).
Defined.

(** ** The per-vehicle differences *)


Lemma diff_from_keys (prev : option Z) (t : list BaseRow) :
  map (fun p => (fst p, lap_key (snd p))) (diff_from prev t)
  = map (fun b => (b_index b, (b_id b, b_lap b))) t.
Proof.
  revert prev. induction t as [|c t IH]; intros prev; simpl; [reflexivity|].
  f_equal. apply IH.
Qed.










(** ** Facts on the estimators *)

Lemma some_eq {A : Type} (a b : A) : Some a = Some b -> a = b.
Proof. congruence. Qed.

Section RollingFacts.

Lemma rolling_median_8 (s : list (option Q)) :
  rolling_median 8 3 s = Ok (map (roll8_at s) (seq 0 (length s))).
Proof. reflexivity. Qed.

Lemma nth_error_seq0 (n i : nat) :
  (i < n)%nat -> nth_error (seq 0 n) i = Some i.
Proof.
  intros H. rewrite (nth_error_nth' _ 0%nat) by (now rewrite length_seq).
  now rewrite seq_nth.
Qed.

Lemma nth_roll (s : list (option Q)) (i : nat) :
  nth i (map (roll8_at s) (seq 0 (length s))) None
  = if Nat.ltb i (length s) then roll8_at s i else None.
Proof.
  destruct (Nat.ltb_spec i (length s)) as [Hlt|Hge].
  - apply nth_error_nth. rewrite nth_error_map, nth_error_seq0 by assumption.
    reflexivity.
  - apply nth_overflow. now rewrite length_map, length_seq.
Qed.

Lemma present_app (a b : list (option Q)) :
  present (a ++ b) = present a ++ present b.
Proof. unfold present. apply flat_map_app. Qed.

Lemma present_length_le (l : list (option Q)) :
  (length (present l) <= length l)%nat.
Proof.
  induction l as [|[q|] t IH]; simpl; lia.
Qed.

Lemma present_all (l : list (option Q)) :
  (forall o, In o l -> o <> None) -> length (present l) = length l.
Proof.
  induction l as [|[q|] t IH]; simpl; intros H; [reflexivity| |].
  - f_equal. apply IH. intros o Ho. apply H. now right.
  - exfalso. apply (H None); auto.
Qed.

Lemma present_In (l : list (option Q)) (q : Q) :
  In q (present l) <-> In (Some q) l.
Proof.
  unfold present. rewrite in_flat_map. split.
  - intros ([x|] & Hx & Hq); simpl in Hq; [|contradiction].
    destruct Hq as [<-|[]]. assumption.
  - intros H. exists (Some q). simpl. auto.
Qed.

Lemma window_In (w i : nat) (s : list (option Q)) (q : Q) :
  In q (present (window_at w i s)) -> exists j, nth j s None = Some q.
Proof.
  rewrite present_In. unfold window_at. rewrite in_map_iff.
  intros (j & Hj & _). eauto.
Qed.

Lemma abs_deviation_nth (x med : list (option Q)) (j : nat) :
  nth j (abs_deviation x med) None
  = match nth j x None, nth j med None with
    | Some a, Some b => Some (Qabs (a - b))
    | _, _ => None
    end.
Proof.
  unfold abs_deviation. revert med j.
  induction x as [|a x IH]; intros [|b med] [|j]; simpl; try reflexivity.
  - now destruct a.
  - now destruct (nth j x None).
  - apply IH.
Qed.

Lemma abs_deviation_length (x med : list (option Q)) :
  length med = length x -> length (abs_deviation x med) = length x.
Proof.
  intros H. unfold abs_deviation. rewrite length_map, length_combine. lia.
Qed.

Lemma abs_deviation_nonneg (x med : list (option Q)) (j : nat) (q : Q) :
  nth j (abs_deviation x med) None = Some q -> 0 <= q.
Proof.
  rewrite abs_deviation_nth.
  destruct (nth j x None) as [a|], (nth j med None) as [b|];
    try discriminate.
  intros H. assert (Hq : q = Qabs (a - b)) by congruence.
  rewrite Hq. apply Qabs_nonneg.
Qed.

Lemma median_nonneg (l : list Q) :
  (forall q, In q l -> 0 <= q) -> 0 <= median l.
Proof.
  intros H.
  assert (Hn : forall k, 0 <= nth k (isort Qle_bool l) 0).
  { intros k. destruct (nth_in_or_default k (isort Qle_bool l) 0) as [Hin | ->].
    - apply H. now apply isort_In in Hin.
    - apply Qle_refl. }
  unfold median. cbv zeta. destruct (Nat.even _); [|apply Hn].
  unfold Qdiv. apply Qmult_le_0_compat; [|discriminate].
  replace 0 with (0 + 0) by reflexivity. apply Qplus_le_compat; apply Hn.
Qed.

(** A value of the rolling median absolute deviation is never negative. *)
Lemma roll8_dev_nonneg (x med : list (option Q)) (i : nat) (v : Q) :
  roll8_at (abs_deviation x med) i = Some v -> 0 <= v.
Proof.
  unfold roll8_at. cbv zeta. destruct (Nat.leb 3 _); [|discriminate].
  intros H. apply some_eq in H. rewrite <- H.
  apply median_nonneg. intros q Hq.
  apply window_In in Hq as (j & Hj). eapply abs_deviation_nonneg; eauto.
Qed.

(** Fewer than three positions: no median yet. *)
Lemma roll8_first_two (s : list (option Q)) (i : nat) :
  (i < 2)%nat -> roll8_at s i = None.
Proof.
  intros Hi. unfold roll8_at. cbv zeta.
  assert (Hlen : (length (present (window_at 8 i s)) <= 2)%nat).
  { etransitivity; [apply present_length_le|].
    unfold window_at. rewrite length_map, length_seq. lia. }
  destruct (Nat.leb_spec 3 (length (present (window_at 8 i s)))); [lia|].
  reflexivity.
Qed.

(** The deviations are absent at the first two positions, so their
    rolling median has fewer than three observations at the first four
    positions. *)
Lemma roll8_dev_first_four (x med : list (option Q)) (i : nat) :
  nth 0 med None = None -> nth 1 med None = None -> (i < 4)%nat ->
  roll8_at (abs_deviation x med) i = None.
Proof.
  intros H0 H1 Hi. unfold roll8_at. cbv zeta.
  pose proof (abs_deviation_nth x med 0) as D0.
  pose proof (abs_deviation_nth x med 1) as D1.
  rewrite H0 in D0. rewrite H1 in D1.
  assert (E0 : nth 0 (abs_deviation x med) None = None)
    by (rewrite D0; now destruct (nth 0 x None)).
  assert (E1 : nth 1 (abs_deviation x med) None = None)
    by (rewrite D1; now destruct (nth 1 x None)).
  assert (Hi' : (i = 0 \/ i = 1 \/ i = 2 \/ i = 3)%nat) by lia.
  destruct Hi' as [-> | [-> | [-> | ->]]]; unfold window_at;
    cbn [Nat.sub Nat.min seq map]; rewrite ?E0, ?E1; cbn [present flat_map app].
  - reflexivity.
  - reflexivity.
  - now destruct (nth 2 (abs_deviation x med) None).
  - now destruct (nth 2 (abs_deviation x med) None),
                 (nth 3 (abs_deviation x med) None).
Qed.

End RollingFacts.

Section RollingDefault.

Lemma roll8_last_three (s : list (option Q)) (i : nat) :
  (2 <= i)%nat ->
  (forall j, (i - 2 <= j <= i)%nat -> exists q, nth j s None = Some q) ->
  exists v, roll8_at s i = Some v.
Proof.
  intros Hi Hs. unfold roll8_at. cbv zeta.
  assert (Hlen : (3 <= length (present (window_at 8 i s)))%nat).
  { unfold window_at.
    replace (Nat.min 8 (S i)) with ((Nat.min 8 (S i) - 3) + 3)%nat by lia.
    rewrite seq_app, map_app, present_app, length_app.
    replace (S i - 8 + (Nat.min 8 (S i) - 3))%nat with (i - 2)%nat by lia.
    cbn [seq map].
    destruct (Hs (i - 2)%nat) as [q0 ->]; [lia|].
    destruct (Hs (S (i - 2))) as [q1 ->]; [lia|].
    destruct (Hs (S (S (i - 2)))) as [q2 ->]; [lia|].
    simpl. lia. }
  apply Nat.leb_le in Hlen. rewrite Hlen. eauto.
Qed.

Variable x : list (option Q).


Lemma rolling_consistency_8 : rolling_consistency x 8 = Ok (out8 x).
Proof. reflexivity. Qed.

Lemma dev_length : length (dev8 x) = length x.
Proof.
  unfold dev8. apply abs_deviation_length.
  unfold med8. now rewrite length_map, length_seq.
Qed.

Lemma out_length : length (out8 x) = length x.
Proof. unfold out8. now rewrite !length_map, length_seq, dev_length. Qed.

Lemma out_nth_error (i : nat) :
  (i < length x)%nat ->
  nth_error (out8 x) i
  = Some (option_map (Qmult (14826 # 10000)) (roll8_at (dev8 x) i)).
Proof.
  intros Hi. unfold out8.
  rewrite !nth_error_map, nth_error_seq0 by (rewrite dev_length; assumption).
  reflexivity.
Qed.

Lemma out_first_four (i : nat) :
  (i < 4)%nat -> (i < length x)%nat -> nth_error (out8 x) i = Some None.
Proof.
  intros Hi Hlt. rewrite out_nth_error by assumption.
  unfold dev8. rewrite roll8_dev_first_four; [reflexivity| | |assumption].
  - unfold med8. rewrite nth_roll.
    destruct (Nat.ltb 0 (length x)); [|reflexivity].
    apply roll8_first_two. lia.
  - unfold med8. rewrite nth_roll.
    destruct (Nat.ltb 1 (length x)); [|reflexivity].
    apply roll8_first_two. lia.
Qed.

Lemma out_nonneg (i : nat) (v : Q) :
  nth_error (out8 x) i = Some (Some v) -> 0 <= v.
Proof.
  intros H.
  assert (Hi : (i < length x)%nat).
  { rewrite <- out_length. apply nth_error_Some. congruence. }
  rewrite out_nth_error in H by assumption. apply some_eq in H.
  destruct (roll8_at (dev8 x) i) as [m|] eqn:Hm; [|discriminate].
  simpl in H. apply some_eq in H. rewrite <- H.
  apply Qmult_le_0_compat; [discriminate|].
  unfold dev8 in Hm. eapply roll8_dev_nonneg; eauto.
Qed.

Hypothesis x_present : forall o, In o x -> o <> None.

Lemma x_nth (j : nat) : (j < length x)%nat -> exists q, nth j x None = Some q.
Proof.
  intros Hj. pose proof (nth_In x None Hj) as Hin.
  destruct (nth j x None) as [q|] eqn:E; [eauto|].
  exfalso. now apply (x_present None).
Qed.

Lemma med_nth (j : nat) :
  (2 <= j)%nat -> (j < length x)%nat -> exists m, nth j (med8 x) None = Some m.
Proof.
  intros H2 Hj. unfold med8. rewrite nth_roll.
  apply Nat.ltb_lt in Hj as Hj'. rewrite Hj'.
  apply roll8_last_three; [assumption|].
  intros k Hk. apply x_nth. lia.
Qed.

Lemma dev_nth (j : nat) :
  (2 <= j)%nat -> (j < length x)%nat -> exists d, nth j (dev8 x) None = Some d.
Proof.
  intros H2 Hj. unfold dev8. rewrite abs_deviation_nth.
  destruct (x_nth j Hj) as [a ->]. destruct (med_nth j H2 Hj) as [m ->].
  eauto.
Qed.

Lemma out_from_fifth (i : nat) :
  (4 <= i)%nat -> (i < length x)%nat ->
  exists v, nth_error (out8 x) i = Some (Some v) /\ 0 <= v.
Proof.
  intros H4 Hi.
  destruct (roll8_last_three (dev8 x) i) as [m Hm]; [lia| |].
  { intros j Hj. apply dev_nth; lia. }
  exists ((14826 # 10000) * m).
  assert (E : nth_error (out8 x) i = Some (Some ((14826 # 10000) * m)))
    by (rewrite out_nth_error, Hm by assumption; reflexivity).
  split; [exact E|]. exact (out_nonneg _ _ E).
Qed.

Lemma present_map_filter (f : nat -> option Q) (g : nat -> Q)
      (p : nat -> bool) (l : list nat) :
  (forall k, In k l -> f k = if p k then Some (g k) else None) ->
  present (map f l) = map g (filter p l).
Proof.
  induction l as [|k t IH]; intros H; [reflexivity|].
  cbn [map filter]. rewrite (H k) by now left.
  specialize (IH (fun j Hj => H j (or_intror Hj))).
  unfold present in *. cbn [flat_map]. rewrite IH.
  destruct (p k); reflexivity.
Qed.

Lemma filter_all_true (p : nat -> bool) (l : list nat) :
  (forall k, In k l -> p k = true) -> filter p l = l.
Proof.
  induction l as [|k t IH]; intros H; [reflexivity|].
  cbn [filter]. rewrite (H k) by now left.
  f_equal. apply IH. intros j Hj. apply H. now right.
Qed.

Lemma last8_bounds (i k : nat) : In k (last8 i) -> (i - 7 <= k <= i)%nat.
Proof. unfold last8. intros H. apply in_seq in H. lia. Qed.

Lemma window_last8 (s : list (option Q)) (i : nat) :
  window_at 8 i s = map (fun k => nth k s None) (last8 i).
Proof.
  unfold window_at, last8. now replace (S i - 8)%nat with (i - 7)%nat by lia.
Qed.

Lemma x_value (j : nat) :
  (j < length x)%nat -> nth j x None = Some (value_at x j).
Proof.
  intros Hj. unfold value_at. now destruct (x_nth j Hj) as [q ->].
Qed.

(** The rolling median of the series is the median of the last eight
    values. *)
Lemma med_value (j : nat) :
  (2 <= j)%nat -> (j < length x)%nat ->
  nth j (med8 x) None = Some (median8_at x j).
Proof.
  intros H2 Hj. destruct (med_nth j H2 Hj) as [m Hm]. rewrite Hm.
  unfold med8 in Hm. rewrite nth_roll in Hm.
  apply Nat.ltb_lt in Hj as Hj'. rewrite Hj' in Hm.
  unfold roll8_at in Hm. cbv zeta in Hm.
  destruct (Nat.leb 3 (length (present (window_at 8 j x)))); [|discriminate].
  rewrite <- Hm. unfold median8_at. do 2 f_equal.
  rewrite window_last8.
  rewrite (present_map_filter _ (value_at x) (fun _ => true)).
  - f_equal. now apply filter_all_true.
  - intros k Hk. apply last8_bounds in Hk. apply x_value. lia.
Qed.

Lemma dev_value (j : nat) :
  (j < length x)%nat ->
  nth j (dev8 x) None
  = if Nat.leb 2 j then Some (deviation_at x j) else None.
Proof.
  intros Hj. unfold dev8. rewrite abs_deviation_nth, (x_value j Hj).
  destruct (Nat.leb_spec 2 j) as [H2|H2].
  - now rewrite (med_value j H2 Hj).
  - unfold med8. rewrite nth_roll.
    apply Nat.ltb_lt in Hj as Hj'. rewrite Hj'.
    now rewrite roll8_first_two by lia.
Qed.

(** From the fifth position on the value is the scaled median of the
    deviations. *)
Lemma out_value (i : nat) :
  (4 <= i)%nat -> (i < length x)%nat ->
  nth_error (out8 x) i = Some (Some (scaled_mad8_at x i)).
Proof.
  intros H4 Hi.
  destruct (roll8_last_three (dev8 x) i) as [m Hm]; [lia| |].
  { intros j Hj. apply dev_nth; lia. }
  rewrite out_nth_error by assumption. do 2 f_equal.
  unfold roll8_at. cbv zeta. unfold roll8_at in Hm. cbv zeta in Hm.
  destruct (Nat.leb 3 (length (present (window_at 8 i (dev8 x)))));
    [|discriminate].
  cbn [option_map]. unfold scaled_mad8_at, mad8_at. do 3 f_equal.
  rewrite window_last8. apply present_map_filter.
  intros k Hk. apply last8_bounds in Hk. apply dev_value. lia.
Qed.

End RollingDefault.

(** C5 (as amended).  With the default window 8, [rolling_consistency]
    returns a series as long as its input, absent at the first four
    positions, and no value in it is negative; on a series without absent
    entries it holds, at every position from the fifth on, 1.4826 times
    the rolling median of the absolute deviations from the rolling median
    (each of the two rolling medians over the last eight positions, and
    waiting for three observations), and that value is not negative. *)
Theorem rolling_consistency_default (x : list (option Q)) :
  exists out,
    rolling_consistency x 8 = Ok out /\
    length out = length x /\
    (forall i, (i < 4)%nat -> (i < length x)%nat -> nth_error out i = Some None) /\
    (forall i v, nth_error out i = Some (Some v) -> 0 <= v) /\
    ((forall o, In o x -> o <> None) ->
     forall i, (4 <= i)%nat -> (i < length x)%nat ->
               nth_error out i = Some (Some (scaled_mad8_at x i)) /\
               0 <= scaled_mad8_at x i).
Proof.
  eexists. split; [apply rolling_consistency_8|].
  split; [apply out_length|].
  split; [apply out_first_four|].
  split; [apply out_nonneg|].
  intros Hx i H4 Hi.
  pose proof (out_value x Hx i H4 Hi) as E.
  split; [exact E|]. exact (out_nonneg x _ _ E).
Qed.

(** The value on a series of six lap times.  The rolling medians are 91,
    91.5, 91, 91.5 from the third lap on and the deviations 0, 3.5, 1,
    7.5: the fifth value is 1.4826 times 1 and the sixth 1.4826 times
    2.25. *)
Lemma rolling_consistency_default_example :
  rolling_consistency [Some 90; Some 92; Some 91; Some 95; Some 90; Some 99] 8
  = Ok [None; None; None; None; Some (14826 # 10000); Some (133434 # 40000)].
Proof. vm_compute. reflexivity. Qed.

Lemma rolling_consistency_third_absent :
  ~ (forall x out,
        rolling_consistency x 8 = Ok out ->
        forall i, (2 <= i)%nat -> (i < length x)%nat ->
                  exists v, nth_error out i = Some (Some v) /\ 0 <= v).
Proof.
  intros H.
  destruct (H [Some 1; Some 2; Some 4] [None; None; None] eq_refl 2%nat)
    as (v & Hv & _); [lia|simpl; lia|].
  discriminate.
Qed.

Section BestLap.

Lemma qmin_le_l (m v : Q) : qmin m v <= m.
Proof.
  unfold qmin. destruct (Qle_bool m v) eqn:E; [apply Qle_refl|].
  apply Qlt_le_weak, Qnot_le_lt. intros H. apply Qle_bool_iff in H. congruence.
Qed.

Lemma qmin_le_r (m v : Q) : qmin m v <= v.
Proof.
  unfold qmin. destruct (Qle_bool m v) eqn:E; [|apply Qle_refl].
  now apply Qle_bool_iff.
Qed.

Lemma fold_qmin_spec (t : list Q) (q : Q) :
  In (fold_left qmin t q) (q :: t) /\
  forall v, In v (q :: t) -> fold_left qmin t q <= v.
Proof.
  revert q. induction t as [|a t IH]; intros q; simpl.
  - split; [now left|]. intros v [<-|[]]. apply Qle_refl.
  - destruct (IH (qmin q a)) as [Hin Hle]. split.
    + destruct Hin as [Hin|Hin]; [|now right; right].
      rewrite <- Hin. unfold qmin. destruct (Qle_bool q a); auto.
    + intros v [<-|[<-|Hv]].
      * eapply Qle_trans; [apply Hle; now left|apply qmin_le_l].
      * eapply Qle_trans; [apply Hle; now left|apply qmin_le_r].
      * apply Hle. now right.
Qed.

Lemma nanmin_spec (s : list (option Q)) :
  match nanmin s with
  | Some m => In (Some m) s /\ forall q, In (Some q) s -> m <= q
  | None => forall q, ~ In (Some q) s
  end.
Proof.
  unfold nanmin. destruct (present s) as [|q t] eqn:E.
  - intros q Hq. apply present_In in Hq. rewrite E in Hq. contradiction.
  - destruct (fold_qmin_spec t q) as [Hin Hle]. split.
    + apply present_In. rewrite E. exact Hin.
    + intros v Hv. apply Hle. rewrite <- E. now apply present_In.
Qed.

End BestLap.

(** C6.  [best_lap] of an empty lap table is the not-a-number sentinel;
    of the lap times 92.1, 90.3, 95.0 it is 90.3; in general it is the
    least lap time present, and the sentinel only when none is present. *)
Theorem best_lap_minimum
  (v1 v2 v3 : string) (l1 l2 l3 : option Z) (df : list LapRow) :
  best_lap [] = None /\
  best_lap [mkLap v1 l1 (Some (921 # 10)); mkLap v2 l2 (Some (903 # 10));
            mkLap v3 l3 (Some (950 # 10))] = Some (903 # 10) /\
  match best_lap df with
  | Some m => In (Some m) (map lap_time_s df) /\
              forall q, In (Some q) (map lap_time_s df) -> m <= q
  | None => forall q, ~ In (Some q) (map lap_time_s df)
  end.
Proof.
  split; [reflexivity|]. split; [reflexivity|].
  unfold best_lap. cbv zeta.
  destruct (Nat.eqb (length (map lap_time_s df)) 0) eqn:E.
  - apply Nat.eqb_eq, length_zero_iff_nil in E. rewrite E. intros q [].
  - apply nanmin_spec.
Qed.

(** ** Facts on keys and grouping *)

Lemma Qeq_bool_sym (p q : Q) : Qeq_bool p q = Qeq_bool q p.
Proof.
  destruct (Qeq_bool p q) eqn:E1, (Qeq_bool q p) eqn:E2; try reflexivity.
  - apply Qeq_bool_iff in E1. symmetry in E1. apply Qeq_bool_iff in E1.
    congruence.
  - apply Qeq_bool_iff in E2. symmetry in E2. apply Qeq_bool_iff in E2.
    congruence.
Qed.

Lemma cell_eqb_refl (a : cell) : cell_eqb a a = true.
Proof.
  unfold cell_eqb. destruct (cell_view a).
  - apply Qeq_bool_iff. reflexivity.
  - apply Z.eqb_refl.
  - apply String.eqb_refl.
  - reflexivity.
Qed.

Lemma cell_eqb_sym (a b : cell) : cell_eqb a b = cell_eqb b a.
Proof.
  unfold cell_eqb. destruct (cell_view a), (cell_view b); try reflexivity.
  - apply Qeq_bool_sym.
  - apply Z.eqb_sym.
  - apply String.eqb_sym.
Qed.

Lemma cell_eqb_trans (a b c : cell) :
  cell_eqb a b = true -> cell_eqb b c = true -> cell_eqb a c = true.
Proof.
  unfold cell_eqb.
  destruct (cell_view a), (cell_view b), (cell_view c); try discriminate;
    try reflexivity.
  - rewrite !Qeq_bool_iff. apply Qeq_trans.
  - rewrite !Z.eqb_eq. congruence.
  - rewrite !String.eqb_eq. congruence.
Qed.

Lemma cell_eqb_null (a : cell) : cell_eqb a CNull = true -> a = CNull.
Proof. destruct a; simpl; try discriminate. reflexivity. Qed.

Lemma cell_eqb_str (a : cell) (s : string) :
  cell_eqb a (CStr s) = true -> a = CStr s.
Proof.
  destruct a; simpl; try discriminate.
  unfold cell_eqb. simpl. intros H%String.eqb_eq. congruence.
Qed.

Lemma key2_eqb_refl (a : key2) : key2_eqb a a = true.
Proof. unfold key2_eqb. now rewrite !cell_eqb_refl. Qed.

Lemma key2_eqb_sym (a b : key2) : key2_eqb a b = key2_eqb b a.
Proof.
  unfold key2_eqb.
  now rewrite (cell_eqb_sym (fst a)), (cell_eqb_sym (snd a)).
Qed.

Lemma key2_eqb_trans (a b c : key2) :
  key2_eqb a b = true -> key2_eqb b c = true -> key2_eqb a c = true.
Proof.
  unfold key2_eqb. rewrite !andb_true_iff. intros [H1 H2] [H3 H4].
  split; eapply cell_eqb_trans; eauto.
Qed.

Lemma key3_eqb_refl (a : key3) : key3_eqb a a = true.
Proof. unfold key3_eqb. now rewrite key2_eqb_refl, cell_eqb_refl. Qed.

Lemma key3_eqb_sym (a b : key3) : key3_eqb a b = key3_eqb b a.
Proof.
  unfold key3_eqb.
  now rewrite (key2_eqb_sym (fst a)), (cell_eqb_sym (snd a)).
Qed.

Lemma key3_eqb_trans (a b c : key3) :
  key3_eqb a b = true -> key3_eqb b c = true -> key3_eqb a c = true.
Proof.
  unfold key3_eqb. rewrite !andb_true_iff. intros [H1 H2] [H3 H4].
  split; [eapply key2_eqb_trans|eapply cell_eqb_trans]; eauto.
Qed.

(** Equal keys select the same rows. *)
Lemma key3_eqb_congr (a b c : key3) :
  key3_eqb a b = true -> key3_eqb c a = key3_eqb c b.
Proof.
  intros Hab. destruct (key3_eqb c a) eqn:E1, (key3_eqb c b) eqn:E2;
    try reflexivity.
  - rewrite (key3_eqb_trans c a b E1 Hab) in E2. discriminate.
  - rewrite key3_eqb_sym in Hab.
    rewrite (key3_eqb_trans c b a E2 Hab) in E1. discriminate.
Qed.

Lemma key2_eqb_congr (a b c : key2) :
  key2_eqb a b = true -> key2_eqb c a = key2_eqb c b.
Proof.
  intros Hab. destruct (key2_eqb c a) eqn:E1, (key2_eqb c b) eqn:E2;
    try reflexivity.
  - rewrite (key2_eqb_trans c a b E1 Hab) in E2. discriminate.
  - rewrite key2_eqb_sym in Hab.
    rewrite (key2_eqb_trans c b a E2 Hab) in E1. discriminate.
Qed.

Section UniqueBy.
Context {A : Type} (eqb : A -> A -> bool).
Hypothesis eqb_refl : forall a, eqb a a = true.
Hypothesis eqb_sym : forall a b, eqb a b = eqb b a.
Hypothesis eqb_trans :
  forall a b c, eqb a b = true -> eqb b c = true -> eqb a c = true.

Lemma unique_by_incl (l : list A) (k : A) : In k (unique_by eqb l) -> In k l.
Proof.
  revert k. induction l as [|a t IH]; intros k; simpl; [auto|].
  intros [->|Hin]; [now left|].
  apply filter_In in Hin as [Hin _]. right. now apply IH.
Qed.

Lemma unique_by_cover (l : list A) (k : A) :
  In k l -> exists k', In k' (unique_by eqb l) /\ eqb k' k = true.
Proof.
  induction l as [|a t IH]; simpl; [contradiction|].
  intros [->|Hin].
  - exists k. split; [now left|apply eqb_refl].
  - destruct (IH Hin) as (k' & Hk' & He).
    destruct (eqb a k') eqn:Hak.
    + exists a. split; [now left|]. eapply eqb_trans; eauto.
    + exists k'. split; [|assumption]. right. apply filter_In.
      split; [assumption|]. now rewrite Hak.
Qed.

Lemma filter_filter_length (p q : A -> bool) (l : list A) :
  (length (filter p (filter q l)) <= length (filter p l))%nat.
Proof.
  induction l as [|a t IH]; simpl; [lia|].
  destruct (q a); simpl; destruct (p a); simpl; lia.
Qed.

(** At most one representative per class. *)
Lemma unique_by_one (l : list A) (k : A) :
  (length (filter (fun k' => eqb k' k) (unique_by eqb l)) <= 1)%nat.
Proof.
  induction l as [|a t IH]; simpl; [lia|].
  destruct (eqb a k) eqn:Hak; simpl.
  - assert (E : filter (fun k' => eqb k' k)
                       (filter (fun b => negb (eqb a b)) (unique_by eqb t)) = []).
    { destruct (filter _ (filter _ _)) as [|x xs] eqn:Hf; [reflexivity|].
      assert (Hx : In x (x :: xs)) by now left.
      rewrite <- Hf in Hx. apply filter_In in Hx as [Hx Hxk].
      apply filter_In in Hx as [_ Hax]. apply negb_true_iff in Hax.
      rewrite eqb_sym in Hxk.
      rewrite (eqb_trans _ _ _ Hak Hxk) in Hax. discriminate. }
    rewrite E. simpl. lia.
  - etransitivity; [apply filter_filter_length|exact IH].
Qed.

End UniqueBy.

Lemma filter_perm_length {A : Type} (p : A -> bool) (l l' : list A) :
  Permutation l l' -> length (filter p l) = length (filter p l').
Proof.
  induction 1 as [|x l l' _ IH|x y l|l l' l'' _ IH1 _ IH2]; simpl.
  - reflexivity.
  - destruct (p x); simpl; congruence.
  - destruct (p x), (p y); reflexivity.
  - congruence.
Qed.

Lemma filter_map_comm {A B : Type} (f : A -> B) (p : B -> bool) (l : list A) :
  filter p (map f l) = map f (filter (fun a => p (f a)) l).
Proof.
  induction l as [|a t IH]; simpl; [reflexivity|].
  destruct (p (f a)); simpl; congruence.
Qed.

Lemma filter_comm {A : Type} (p q : A -> bool) (l : list A) :
  filter p (filter q l) = filter q (filter p l).
Proof.
  induction l as [|a t IH]; simpl; [reflexivity|].
  destruct (p a) eqn:Hp, (q a) eqn:Hq; simpl; rewrite ?Hp, ?Hq; congruence.
Qed.

Lemma filter_concat {A : Type} (p : A -> bool) (ls : list (list A)) :
  filter p (concat ls) = concat (map (filter p) ls).
Proof.
  induction ls as [|l ls IH]; simpl; [reflexivity|].
  now rewrite filter_app, IH.
Qed.

(** ** Facts on the grouped mean *)

Lemma filter_absorb {A : Type} (p q : A -> bool) (l : list A) :
  (forall a, p a = true -> q a = true) -> filter p (filter q l) = filter p l.
Proof.
  intros H. induction l as [|a t IH]; simpl; [reflexivity|].
  destruct (q a) eqn:Hq; simpl.
  - destruct (p a); congruence.
  - destruct (p a) eqn:Hp; [|assumption].
    rewrite (H a Hp) in Hq. discriminate.
Qed.

Lemma sample_key_agg_row (l : list Sample) (k : key3) :
  sample_key (agg_row l k) = k.
Proof. destruct k as [[i la] n]. reflexivity. Qed.

Lemma isnull_eqb (a b : cell) :
  cell_eqb a b = true -> isnull b = false -> isnull a = false.
Proof.
  intros He Hb. destruct a; try reflexivity.
  rewrite cell_eqb_sym in He. apply cell_eqb_null in He. subst b. discriminate.
Qed.

Lemma null_key_eqb (s : Sample) (k : key3) :
  key3_eqb (sample_key s) k = true -> key_present k -> null_key s = false.
Proof.
  unfold key3_eqb, key2_eqb, sample_key, null_key. simpl.
  rewrite !andb_true_iff. intros [[H1 H2] H3] (K1 & K2 & K3).
  rewrite (isnull_eqb _ _ H1 K1), (isnull_eqb _ _ H2 K2), (isnull_eqb _ _ H3 K3).
  reflexivity.
Qed.

Lemma group_rows_kept (l : list Sample) (k : key3) :
  key_present k -> group_rows (kept l) k = group_rows l k.
Proof.
  intros Hk. unfold group_rows, kept. apply filter_absorb.
  intros a Ha. now rewrite (null_key_eqb a k Ha Hk).
Qed.

Lemma group_rows_kept_nil (l : list Sample) (k : key3) :
  group_rows l k = [] -> group_rows (kept l) k = [].
Proof.
  unfold group_rows, kept. intros H. now rewrite filter_comm, H.
Qed.

Lemma group_rows_congr (l : list Sample) (k k' : key3) :
  key3_eqb k' k = true -> group_rows l k' = group_rows l k.
Proof.
  intros H. unfold group_rows. apply filter_ext. intros a.
  now apply key3_eqb_congr.
Qed.

Lemma group_rows_concat (ls : list (list Sample)) (k : key3) :
  group_rows (concat ls) k = concat (map (fun l => group_rows l k) ls).
Proof. unfold group_rows. apply filter_concat. Qed.

Lemma group_rows_agg (l : list Sample) (k : key3) :
  group_rows (groupby_agg l) k
  = map (agg_row (kept l))
        (filter (fun k' => key3_eqb k' k)
                (isort key3_leb (unique_by key3_eqb (map sample_key (kept l))))).
Proof.
  unfold group_rows, groupby_agg. fold (kept l). rewrite filter_map_comm.
  f_equal; try (apply filter_ext; intros a; now rewrite sample_key_agg_row).
Qed.

Lemma group_keys_cases (l : list Sample) (k : key3) :
  let ks := isort key3_leb (unique_by key3_eqb (map sample_key l)) in
  filter (fun k' => key3_eqb k' k) ks = [] \/
  exists k', filter (fun k' => key3_eqb k' k) ks = [k'] /\
             key3_eqb k' k = true /\ In k' (map sample_key l).
Proof.
  intros ks.
  assert (Hlen : (length (filter (fun k' => key3_eqb k' k) ks) <= 1)%nat).
  { unfold ks.
    rewrite (filter_perm_length _ _ _ (isort_perm key3_leb _)).
    apply unique_by_one; [apply key3_eqb_sym|apply key3_eqb_trans]. }
  destruct (filter (fun k' => key3_eqb k' k) ks) as [|k' [|k'' r]] eqn:Hf;
    [now left| |simpl in Hlen; lia].
  right. exists k'. split; [reflexivity|].
  assert (Hin : In k' (filter (fun k' => key3_eqb k' k) ks))
    by (rewrite Hf; now left).
  apply filter_In in Hin as [Hin Hk]. split; [assumption|].
  unfold ks in Hin. apply isort_In in Hin. now apply unique_by_incl in Hin.
Qed.

Lemma group_rows_agg_nil (l : list Sample) (k : key3) :
  group_rows l k = [] -> group_rows (groupby_agg l) k = [].
Proof.
  intros Hnil. apply group_rows_kept_nil in Hnil. rewrite group_rows_agg.
  destruct (group_keys_cases (kept l) k) as [->|(k' & _ & Hk & Hin)];
    [reflexivity|].
  exfalso. apply in_map_iff in Hin as (s & <- & Hs).
  assert (Hg : In s (group_rows (kept l) k))
    by (apply filter_In; auto).
  rewrite Hnil in Hg. contradiction.
Qed.

Lemma group_rows_agg_some (l : list Sample) (k : key3) (a : Sample) :
  In a (group_rows (kept l) k) ->
  exists k', key3_eqb k' k = true /\
             group_rows (groupby_agg l) k = [agg_row (kept l) k'].
Proof.
  intros Ha. rewrite group_rows_agg.
  destruct (group_keys_cases (kept l) k) as [Hnil|(k' & -> & Hk & _)].
  - exfalso. apply filter_In in Ha as [Ha Hak].
    destruct (unique_by_cover key3_eqb key3_eqb_refl key3_eqb_trans
                (map sample_key (kept l)) (sample_key a))
      as (k' & Hk' & He); [now apply in_map|].
    assert (Hin : In k' (filter (fun k' => key3_eqb k' k)
                    (isort key3_leb (unique_by key3_eqb (map sample_key (kept l)))))).
    { apply filter_In. split; [now apply isort_In|].
      eapply key3_eqb_trans; eauto. }
    rewrite Hnil in Hin. contradiction.
  - exists k'. auto.
Qed.

Lemma mean_single (q : Q) :
  exists m, mean (present [Some q]) = Some m /\ m == q.
Proof.
  eexists. split; [reflexivity|]. rewrite Qred_correct.
  change (present [Some q]) with [q]. cbn [fold_right length].
  change (inject_Z (Z.of_nat 1)) with 1. field.
Qed.

Lemma holds_groupby_agg (l : list Sample) (k : key3) (v : Q) :
  key_present k -> holds l k v -> holds (groupby_agg l) k v.
Proof.
  intros Hk (a & q & Hg & Hq & Hv).
  assert (Hkept : group_rows (kept l) k = [a])
    by (now rewrite group_rows_kept).
  destruct (group_rows_agg_some l k a) as (k' & Hk' & Hagg);
    [rewrite Hkept; now left|].
  destruct (mean_single q) as (m & Hm & Hmq).
  exists (agg_row (kept l) k'), m. split; [assumption|]. split.
  - unfold agg_row. cbn [s_value].
    rewrite (group_rows_congr _ _ _ Hk'), Hkept. cbn [map]. now rewrite Hq.
  - now rewrite Hmq.
Qed.

Lemma group_rows_chunks_nil (ls : list (list Sample)) (k : key3) :
  group_rows (concat ls) k = [] ->
  group_rows (concat (map groupby_agg ls)) k = [].
Proof.
  induction ls as [|l ls IH]; simpl; [reflexivity|].
  unfold group_rows in *. rewrite !filter_app.
  intros H. apply app_eq_nil in H as [H1 H2].
  fold (group_rows (groupby_agg l) k).
  rewrite (group_rows_agg_nil l k H1). simpl. now apply IH.
Qed.

Lemma holds_chunks (ls : list (list Sample)) (k : key3) (v : Q) :
  key_present k -> holds (concat ls) k v ->
  holds (concat (map groupby_agg ls)) k v.
Proof.
  intros Hk. induction ls as [|l ls IH]; simpl.
  - intros (a & q & Hg & _). discriminate.
  - intros (a & q & Hg & Hq & Hv).
    unfold group_rows in Hg. rewrite filter_app in Hg.
    fold (group_rows l k) in Hg. fold (group_rows (concat ls) k) in Hg.
    destruct (group_rows l k) as [|b bs] eqn:Hl.
    + simpl in Hg.
      destruct IH as (a' & q' & Hg' & Hq' & Hv'); [exists a, q; auto|].
      exists a', q'. split; [|auto].
      unfold group_rows. rewrite filter_app.
      fold (group_rows (groupby_agg l) k).
      rewrite (group_rows_agg_nil l k Hl). exact Hg'.
    + simpl in Hg. injection Hg as -> Hrest.
      apply app_eq_nil in Hrest as [-> Hrest].
      destruct (holds_groupby_agg l k v Hk) as (a' & q' & Hg' & Hq' & Hv');
        [exists a, q; auto|].
      exists a', q'. split; [|auto].
      unfold group_rows. rewrite filter_app.
      fold (group_rows (groupby_agg l) k).
      fold (group_rows (concat (map groupby_agg ls)) k).
      rewrite Hg', (group_rows_chunks_nil ls k Hrest). reflexivity.
Qed.

(** ** Facts on the pivot *)

Import Telemetry.

Lemma find_filter {A : Type} (p : A -> bool) (l : list A) :
  find p l = hd_error (filter p l).
Proof.
  induction l as [|a t IH]; simpl; [reflexivity|].
  destruct (p a); [reflexivity|assumption].
Qed.

Lemma position_has (name : string) (cols : list cell) :
  existsb (is_label name) cols = true <-> exists i, position name cols = Some i.
Proof.
  induction cols as [|c t IH]; simpl.
  - split; [discriminate|intros [i Hi]; discriminate].
  - destruct (is_label name c); simpl; [split; eauto|].
    rewrite IH. split; intros [i Hi].
    + exists (S i). now rewrite Hi.
    + destruct (position name t) as [j|]; [eauto|discriminate].
Qed.

Lemma position_nth (name : string) (cols : list cell) (i : nat) :
  position name cols = Some i -> nth i cols CNull = CStr name.
Proof.
  revert i. induction cols as [|c t IH]; intros i; simpl; [discriminate|].
  destruct (is_label name c) eqn:Hc.
  - intros [= <-]. destruct c; try discriminate.
    simpl in Hc. apply String.eqb_eq in Hc. now subst.
  - destruct (position name t) as [j|]; [|discriminate].
    intros [= <-]. now apply IH.
Qed.

Lemma position_lt (name : string) (cols : list cell) (i : nat) :
  position name cols = Some i -> (i < length cols)%nat.
Proof.
  revert i. induction cols as [|c t IH]; intros i; simpl; [discriminate|].
  destruct (is_label name c); [intros [= <-]; lia|].
  destruct (position name t) as [j|]; [|discriminate].
  intros [= <-]. specialize (IH j eq_refl). lia.
Qed.

Lemma is_label_eq (name : string) (c : cell) :
  is_label name c = true <-> c = CStr name.
Proof.
  destruct c; simpl; split; try discriminate.
  - intros H%String.eqb_eq. now subst.
  - intros [= ->]. apply String.eqb_refl.
Qed.

Lemma combine_keys {B : Type} (f : key2 -> B) (l : list key2) :
  combine (combine (map fst l) (map snd l)) (map f l)
  = map (fun ik => (ik, f ik)) l.
Proof.
  induction l as [|[i la] t IH]; simpl; [reflexivity|]. now rewrite IH.
Qed.

Section PivotFacts.
Variable final : list Sample.


Lemma pivot_table_reset_Ok :
  existsb (is_label Config.ID_COL) (pivot_names final) = false ->
  existsb (is_label Config.LAP_COL) (pivot_names final) = false ->
  pivot_table_reset final = Ok (wide_of final).
Proof.
  intros H1 H2. unfold pivot_table_reset.
  now rewrite H1, H2.
Qed.

Lemma names_In (n : cell) : In n (pivot_names final) -> In n (map s_name (groupby_agg final)).
Proof.
  unfold pivot_names. rewrite isort_In. intros H%unique_by_incl.
  apply in_map_iff in H as (s & <- & Hs). apply filter_In in Hs as [Hs _].
  now apply in_map.
Qed.

Lemma wide_ids : getitem (wide_of final) Config.ID_COL = Ok (map fst (pivot_index final)).
Proof.
  unfold getitem, wide_of. simpl. f_equal. rewrite map_map. reflexivity.
Qed.

Lemma wide_laps : getitem (wide_of final) Config.LAP_COL = Ok (map snd (pivot_index final)).
Proof.
  unfold getitem, wide_of. simpl. f_equal. rewrite map_map. reflexivity.
Qed.

Lemma wide_column (c : string) :
  is_label c (CStr Config.ID_COL) = false ->
  is_label c (CStr Config.LAP_COL) = false ->
  existsb (is_label c) (pivot_names final) = true ->
  getitem (wide_of final) c
  = Ok (map (fun ik => pivot_cell (pivot_agged final) ik (CStr c)) (pivot_index final)).
Proof.
  intros H1 H2 Hc. apply position_has in Hc as [j Hj].
  unfold getitem, wide_of. cbn [columns rows position].
  rewrite H1, H2, Hj. cbn [option_map]. f_equal. rewrite map_map.
  apply map_ext. intros ik. cbn [nth].
  rewrite <- (position_nth c (pivot_names final) j Hj).
  rewrite <- (map_nth (pivot_cell (pivot_agged final) ik) (pivot_names final) CNull j) at 1.
  apply nth_indep. rewrite length_map. now apply position_lt in Hj.
Qed.

Lemma wide_series (c : string) :
  is_label c (CStr Config.ID_COL) = false ->
  is_label c (CStr Config.LAP_COL) = false ->
  existsb (is_label c) (pivot_names final) = true ->
  set_index_get (wide_of final) c
  = Ok (map (fun ik => (ik, pivot_cell (pivot_agged final) ik (CStr c))) (pivot_index final)).
Proof.
  intros H1 H2 Hc. unfold set_index_get.
  rewrite wide_ids, wide_laps, (wide_column c H1 H2 Hc). cbn [bind].
  now rewrite combine_keys.
Qed.

(** The cell of the pivot for a key that holds a value. *)
Lemma holds_pivot_cell (i l : cell) (c : string) (v : Q) (ik : key2) :
  key_present (i, l, CStr c) ->
  holds final (i, l, CStr c) v ->
  key2_eqb ik (i, l) = true ->
  exists q, pivot_cell (pivot_agged final) ik (CStr c) = CFloat q /\ q == v.
Proof.
  intros Hk Hh Hik.
  destruct (holds_groupby_agg final _ v Hk Hh) as (a & q & Hg & Hq & Hv).
  exists q. split; [|assumption].
  assert (Hag : group_rows (pivot_agged final) (i, l, CStr c) = [a]).
  { unfold group_rows, pivot_agged. rewrite filter_comm.
    fold (group_rows (groupby_agg final) (i, l, CStr c)). rewrite Hg.
    simpl. unfold has_value. now rewrite Hq. }
  unfold pivot_cell.
  assert (Hf : find (fun s => key3_eqb (sample_key s) (ik, CStr c)) (pivot_agged final)
               = Some a).
  { rewrite find_filter.
    assert (E : filter (fun s => key3_eqb (sample_key s) (ik, CStr c)) (pivot_agged final)
                = group_rows (pivot_agged final) (i, l, CStr c)).
    { unfold group_rows. apply filter_ext. intros s.
      apply key3_eqb_congr. unfold key3_eqb. cbn [fst snd].
      now rewrite Hik, cell_eqb_refl. }
    now rewrite E, Hag. }
  rewrite Hf. unfold value_cell. now rewrite Hq.
Qed.

Lemma holds_agged (k : key3) (v : Q) :
  key_present k -> holds final k v ->
  exists a, In a (pivot_agged final) /\ key3_eqb (sample_key a) k = true.
Proof.
  intros Hk Hh.
  destruct (holds_groupby_agg final _ v Hk Hh) as (a & q & Hg & Hq & Hv).
  assert (Ha : In a (group_rows (groupby_agg final) k))
    by (rewrite Hg; now left).
  apply filter_In in Ha as [Ha Hka].
  exists a. split; [|assumption].
  apply filter_In. split; [assumption|]. unfold has_value. now rewrite Hq.
Qed.

Lemma holds_index (i l n : cell) (v : Q) :
  key_present (i, l, n) ->
  holds final (i, l, n) v ->
  exists ik, find (fun ik => key2_eqb ik (i, l)) (pivot_index final) = Some ik /\
             key2_eqb ik (i, l) = true.
Proof.
  intros Hk Hh. destruct (holds_agged _ v Hk Hh) as (a & Hagg & Hka).
  unfold key3_eqb in Hka. cbn [fst snd sample_key] in Hka.
  apply andb_true_iff in Hka as [Hk2 Hn].
  destruct (unique_by_cover key2_eqb key2_eqb_refl key2_eqb_trans
              (map (fun s => (s_id s, s_lap s)) (pivot_agged final)) (s_id a, s_lap a))
    as (ik0 & Hik0 & He0); [apply in_map_iff; eauto|].
  assert (Hin0 : In ik0 (pivot_index final)) by (unfold pivot_index; now apply isort_In).
  destruct (find (fun ik => key2_eqb ik (i, l)) (pivot_index final)) as [ik|] eqn:Hf.
  - exists ik. split; [reflexivity|]. now apply find_some in Hf as [_ Hf].
  - exfalso. apply (find_none _ _ Hf) in Hin0.
    rewrite (key2_eqb_trans _ _ _ He0 Hk2) in Hin0. discriminate.
Qed.

Lemma holds_name (i l : cell) (c : string) (v : Q) :
  key_present (i, l, CStr c) ->
  holds final (i, l, CStr c) v ->
  existsb (is_label c) (pivot_names final) = true.
Proof.
  intros Hk Hh. destruct (holds_agged _ v Hk Hh) as (a & Hagg & Hka).
  unfold key3_eqb in Hka. cbn [fst snd sample_key] in Hka.
  apply andb_true_iff in Hka as [_ Hn]. apply cell_eqb_str in Hn.
  apply existsb_exists. exists (CStr c). split; [|apply is_label_eq; auto].
  unfold pivot_names. apply isort_In.
  destruct (unique_by_cover cell_eqb cell_eqb_refl cell_eqb_trans
              (map s_name (pivot_agged final)) (s_name a))
    as (n0 & Hn0 & Hen); [now apply in_map|].
  rewrite Hn in Hen. apply cell_eqb_str in Hen. now subst n0.
Qed.

Lemma holds_not_empty (k : key3) (v : Q) :
  key_present k -> holds final k v -> df_empty (wide_of final) = false.
Proof.
  intros Hk Hh. destruct k as [[i l] n].
  destruct (holds_index i l n v Hk Hh) as (ik & Hf & _).
  unfold df_empty, wide_of. cbn [columns rows].
  destruct (pivot_index final) as [|ik0 r]; [discriminate|reflexivity].
Qed.

End PivotFacts.

(** ** Facts on chunked reading *)

Import Preprocess.

Lemma mapR_app {A B : Type} (f : A -> result B) (l1 l2 : list A) (s : list B) :
  mapR f (l1 ++ l2) = Ok s ->
  exists s1 s2, mapR f l1 = Ok s1 /\ mapR f l2 = Ok s2 /\ s = s1 ++ s2.
Proof.
  revert s. induction l1 as [|a t IH]; intros s; simpl.
  - intros H. exists [], s. auto.
  - intros H. apply bind_Ok in H as (b & Hb & H).
    apply bind_Ok in H as (bs & Hbs & [= <-]).
    destruct (IH _ Hbs) as (s1 & s2 & H1 & H2 & ->).
    exists (b :: s1), s2. rewrite Hb, H1. simpl. auto.
Qed.

Lemma mapR_ext_in {A B : Type} (f g : A -> result B) (l : list A) :
  (forall a, In a l -> f a = g a) -> mapR f l = mapR g l.
Proof.
  induction l as [|a t IH]; simpl; intros H; [reflexivity|].
  rewrite (H a) by now left. rewrite IH; [reflexivity|].
  intros b Hb. apply H. now right.
Qed.

Lemma mapR_map {A B C : Type} (g : A -> B) (f : B -> result C) (l : list A) :
  mapR f (map g l) = mapR (fun a => f (g a)) l.
Proof.
  induction l as [|a t IH]; simpl; [reflexivity|]. now rewrite IH.
Qed.

Lemma mapR_concat {A B : Type} (f : A -> result B) (ls : list (list A))
      (s : list B) :
  mapR f (concat ls) = Ok s ->
  exists ss, mapR (mapR f) ls = Ok ss /\ concat ss = s.
Proof.
  revert s. induction ls as [|l ls IH]; intros s; simpl.
  - intros [= <-]. exists []. auto.
  - intros H. apply mapR_app in H as (s1 & s2 & H1 & H2 & ->).
    destruct (IH _ H2) as (ss & Hss & <-).
    exists (s1 :: ss). rewrite H1, Hss. simpl. auto.
Qed.

Lemma mapR_then {A B C : Type} (f : A -> result B) (g : B -> C)
      (l : list A) (r : list B) :
  mapR f l = Ok r ->
  mapR (fun a => b <- f a ;; Ok (g b)) l = Ok (map g r).
Proof.
  revert r. induction l as [|a t IH]; intros r; simpl.
  - intros [= <-]. reflexivity.
  - intros H. apply bind_Ok in H as (b & Hb & H).
    apply bind_Ok in H as (bs & Hbs & [= <-]).
    rewrite Hb. simpl. rewrite (IH _ Hbs). reflexivity.
Qed.

Lemma chunk_rows_concat {A : Type} (size fuel : nat) (l : list A) :
  (0 < size)%nat -> (length l <= fuel)%nat ->
  concat (chunk_rows fuel size l) = l.
Proof.
  intros Hs. revert l. induction fuel as [|fuel IH]; intros l Hl; simpl.
  - destruct l; [reflexivity|simpl in Hl; lia].
  - destruct l as [|a t] eqn:E; [reflexivity|]. rewrite <- E in *.
    cbn [concat]. rewrite IH; [apply firstn_skipn|].
    rewrite length_skipn. subst l. simpl in *. lia.
Qed.

Lemma chunk_rows_nil {A : Type} (size : nat) (l : list A) :
  chunk_rows (length l) size l = [] -> l = [].
Proof. destruct l; simpl; [reflexivity|discriminate]. Qed.

Section ChunkSamples.
Context {conv : PandasConv}.

Lemma chunk_samples_rows (cols : list cell) (rws : list (list cell))
      (i1 i2 i3 i4 i5 : nat) :
  position "timestamp" cols = Some i1 ->
  position "telemetry_value" cols = Some i2 ->
  position ID_COL cols = Some i3 ->
  position LAP_COL cols = Some i4 ->
  position "telemetry_name" cols = Some i5 ->
  chunk_samples (mkFrame cols rws) = mapR (row_sample i1 i2 i3 i4 i5) rws.
Proof.
  intros P1 P2 P3 P4 P5. unfold chunk_samples, getitem. cbn [columns rows].
  rewrite P1, P2, P3, P4, P5. cbn [bind].
  induction rws as [|r t IH]; [reflexivity|].
  cbn [map mapR]. unfold row_sample at 1.
  destruct (to_datetime (nth i1 r CNull)) as [b|e]; [|reflexivity].
  cbn [bind]. rewrite <- IH.
  destruct (mapR to_datetime (map (fun r0 => nth i1 r0 CNull) t)) as [bs|e];
    reflexivity.
Qed.

Lemma chunk_samples_positions (df : DataFrame) (s : list Sample) :
  chunk_samples df = Ok s ->
  exists i1 i2 i3 i4 i5,
    position "timestamp" (columns df) = Some i1 /\
    position "telemetry_value" (columns df) = Some i2 /\
    position ID_COL (columns df) = Some i3 /\
    position LAP_COL (columns df) = Some i4 /\
    position "telemetry_name" (columns df) = Some i5.
Proof.
  unfold chunk_samples, getitem. intros H.
  destruct (position "timestamp" (columns df)) as [i1|]; [|discriminate].
  cbn [bind] in H. apply bind_Ok in H as (ts & _ & H).
  destruct (position "telemetry_value" (columns df)) as [i2|]; [|discriminate].
  destruct (position ID_COL (columns df)) as [i3|]; [|discriminate].
  destruct (position LAP_COL (columns df)) as [i4|]; [|discriminate].
  destruct (position "telemetry_name" (columns df)) as [i5|]; [|discriminate].
  exists i1, i2, i3, i4, i5. auto.
Qed.

(** Reading a table in chunks gives, chunk by chunk, the samples of the
    whole table. *)
Lemma chunked_samples (raw : DataFrame) (size : nat) (samples : list Sample) :
  (0 < size)%nat ->
  chunk_samples raw = Ok samples ->
  exists ss, mapR chunk_samples (read_chunks size raw) = Ok ss /\
             concat ss = samples.
Proof.
  intros Hs H.
  destruct (chunk_samples_positions raw samples H)
    as (i1 & i2 & i3 & i4 & i5 & P1 & P2 & P3 & P4 & P5).
  destruct raw as [cols rws]. cbn [columns] in *.
  rewrite (chunk_samples_rows cols rws i1 i2 i3 i4 i5) in H by assumption.
  unfold read_chunks. cbn [columns rows].
  destruct rws as [|r0 rws0] eqn:Erws.
  { injection H as <-. exists [[]]. split; [|reflexivity].
    cbn [mapR].
    now rewrite (chunk_samples_rows cols [] i1 i2 i3 i4 i5) by assumption. }
  rewrite <- Erws in *. clear Erws r0 rws0.
  rewrite <- (chunk_rows_concat size (length rws) rws Hs (Nat.le_refl _)) in H.
  apply mapR_concat in H as (ss & Hss & Hc).
  exists ss. split; [|assumption].
  rewrite mapR_map. rewrite <- Hss. apply mapR_ext_in. intros p _.
  now apply chunk_samples_rows.
Qed.

End ChunkSamples.

(** The keys of a grouped table are keys of its input. *)
Lemma groupby_agg_key_In (l : list Sample) (a : Sample) :
  In a (groupby_agg l) -> In (sample_key a) (map sample_key l).
Proof.
  unfold groupby_agg. intros H. apply in_map_iff in H as (k & <- & Hk).
  rewrite sample_key_agg_row.
  apply isort_In, unique_by_incl in Hk.
  apply in_map_iff in Hk as (s & <- & Hs). apply filter_In in Hs as [Hs _].
  now apply in_map.
Qed.

Lemma groupby_agg_name_In (l : list Sample) (n : cell) :
  In n (map s_name (groupby_agg l)) -> In n (map s_name l).
Proof.
  intros H. apply in_map_iff in H as (a & <- & Ha).
  apply groupby_agg_key_In in Ha. apply in_map_iff in Ha as (s & Hk & Hs).
  apply in_map_iff. exists s. split; [|assumption].
  unfold sample_key in Hk. congruence.
Qed.

Lemma chunks_name_In (ss : list (list Sample)) (n : cell) :
  In n (map s_name (concat (map groupby_agg ss))) ->
  In n (map s_name (concat ss)).
Proof.
  induction ss as [|l ss IH]; simpl; [auto|].
  rewrite !map_app, !in_app_iff. intros [H|H].
  - left. now apply groupby_agg_name_In.
  - right. now apply IH.
Qed.

Lemma find_map_key {A B : Type} (p : A -> bool) (g : A -> B) (l : list A) :
  List.find (fun e => p (fst e)) (map (fun a => (a, g a)) l)
  = option_map (fun a => (a, g a)) (List.find p l).
Proof.
  induction l as [|a t IH]; simpl; [reflexivity|].
  destruct (p a); [reflexivity|assumption].
Qed.

Lemma plain_channels_label (samples : list Sample) (c : cell) :
  plain_channels samples = true -> In c (map s_name samples) ->
  is_label ID_COL c = false /\ is_label LAP_COL c = false /\
  is_label "telemetry_name" c = false.
Proof.
  unfold plain_channels. rewrite forallb_forall.
  intros H Hc. apply in_map_iff in Hc as (x & <- & Hx).
  specialize (H x Hx). apply negb_true_iff in H. unfold reserved_label in H.
  apply orb_false_iff in H as [H H3]. apply orb_false_iff in H as [H1 H2].
  auto.
Qed.

Lemma existsb_none {A : Type} (p : A -> bool) (l : list A) :
  (forall a, In a l -> p a = false) -> existsb p l = false.
Proof.
  intros H. destruct (existsb p l) eqn:E; [|reflexivity].
  apply existsb_exists in E as (a & Ha & Hp). rewrite (H a Ha) in Hp.
  discriminate.
Qed.

Section RoundTrip.
Context {conv : PandasConv}.
Variables (raw : DataFrame) (samples : list Sample) (s : Sample) (v : Q).
Hypothesis raw_samples : chunk_samples raw = Ok samples.
Hypothesis plain : plain_channels samples = true.
Hypothesis sole : group_rows samples (sample_key s) = [s].
Hypothesis keyed : null_key s = false.
Hypothesis valued : s_value s = Some v.

Lemma sole_holds : holds samples (sample_key s) v.
Proof. exists s, v. split; [exact sole|]. split; [exact valued|reflexivity]. Qed.

Lemma sole_present : key_present (sample_key s).
Proof.
  unfold null_key in keyed. apply orb_false_iff in keyed as [H H3].
  apply orb_false_iff in H as [H1 H2]. unfold key_present, sample_key. auto.
Qed.

Lemma aggregate_chunks_wide :
  exists final,
    aggregate_chunks (read_chunks CHUNK_SIZE raw) = Ok (wide_of final) /\
    holds final (sample_key s) v /\
    forall n, In n (map s_name (groupby_agg final)) -> In n (map s_name samples).
Proof.
  destruct (chunked_samples raw CHUNK_SIZE samples) as (ss & Hss & Hcat);
    [unfold CHUNK_SIZE; lia|exact raw_samples|].
  exists (groupby_agg (concat (map groupby_agg ss))).
  assert (Hnames : forall n,
             In n (map s_name (groupby_agg (groupby_agg (concat (map groupby_agg ss))))) ->
             In n (map s_name samples)).
  { intros n Hn. rewrite <- Hcat.
    now apply chunks_name_In, groupby_agg_name_In, groupby_agg_name_In. }
  split; [|split; [|exact Hnames]].
  - unfold aggregate_chunks.
    rewrite (mapR_then chunk_samples groupby_agg _ ss Hss). cbn [bind].
    assert (Hne : map groupby_agg ss <> []).
    { intros E. apply map_eq_nil in E. subst ss. simpl in Hcat.
      rewrite <- Hcat in sole. discriminate. }
    unfold concat_chunks.
    destruct (map groupby_agg ss) as [|c0 cs] eqn:Hm; [congruence|].
    cbn [bind]. apply pivot_table_reset_Ok.
    + apply existsb_none. intros n Hn.
      apply names_In, Hnames in Hn.
      now apply (plain_channels_label samples n plain) in Hn as (H & _ & _).
    + apply existsb_none. intros n Hn.
      apply names_In, Hnames in Hn.
      now apply (plain_channels_label samples n plain) in Hn as (_ & H & _).
  - apply holds_groupby_agg; [exact sole_present|].
    apply holds_chunks; [exact sole_present|].
    rewrite Hcat. exact sole_holds.
Qed.

End RoundTrip.

(** ** Facts on the metric extraction *)

Module TelemetryFacts.
Import stdpp.base stdpp.gmap stdpp.strings.

Lemma set_index_get_Ok (pivot : DataFrame) (c : string) :
  has_column pivot ID_COL = true -> has_column pivot LAP_COL = true ->
  has_column pivot c = true ->
  exists s, set_index_get pivot c = Ok s.
Proof.
  unfold has_column, set_index_get, getitem.
  intros [i Hi]%position_has [j Hj]%position_has [k Hk]%position_has.
  rewrite Hi, Hj, Hk. simpl. eauto.
Qed.

Ltac solve_source :=
  cbn;
  repeat match goal with
         | |- context [existsb ?f ?l] => destruct (existsb f l)
         end;
  reflexivity.

Section Extraction.
Variable pivot : DataFrame.
Hypothesis has_id : has_column pivot ID_COL = true.
Hypothesis has_lap : has_column pivot LAP_COL = true.

Lemma add_metric_spec (key col : string) (m0 : gmap string Series) :
  exists m1,
    add_metric pivot key col m0 = Ok m1 /\
    forall k, m1 !! k
              = if String.eqb k key
                then (if has_column pivot col then series_of pivot col
                      else m0 !! k)
                else m0 !! k.
Proof.
  unfold add_metric, series_of. destruct (has_column pivot col) eqn:Hc.
  - destruct (set_index_get_Ok pivot col has_id has_lap Hc) as [s Hs].
    rewrite Hs. simpl. eexists. split; [reflexivity|].
    intros k. destruct (String.eqb_spec k key) as [->|Hne].
    + apply lookup_insert_eq.
    + apply lookup_insert_ne. congruence.
  - exists m0. split; [reflexivity|]. intros k. now destruct (String.eqb k key).
Qed.

Lemma add_brake_spec (m0 : gmap string Series) :
  exists m1,
    add_brake pivot m0 = Ok m1 /\
    forall k, m1 !! k
              = if String.eqb k "brake_usage"
                then match List.filter has_pbrake (columns pivot) with
                     | CStr c :: _ => series_of pivot c
                     | _ => m0 !! k
                     end
                else m0 !! k.
Proof.
  unfold add_brake, series_of.
  destruct (List.filter has_pbrake (columns pivot)) as [|c0 r] eqn:Hf.
  - exists m0. split; [reflexivity|]. intros k.
    now destruct (String.eqb k "brake_usage").
  - assert (Hin : In c0 (columns pivot)).
    { assert (H : In c0 (List.filter has_pbrake (columns pivot)))
        by (rewrite Hf; now left).
      now apply filter_In in H as [H _]. }
    destruct c0 as [| | |c|];
      try (exists m0; split; [reflexivity|]; intros k;
           now destruct (String.eqb k "brake_usage")).
    assert (Hc : has_column pivot c = true).
    { unfold has_column. apply existsb_exists. exists (CStr c).
      split; [assumption|]. now apply is_label_eq. }
    destruct (set_index_get_Ok pivot c has_id has_lap Hc) as [s Hs].
    rewrite Hs. simpl. eexists. split; [reflexivity|].
    intros k. destruct (String.eqb_spec k "brake_usage") as [->|Hne].
    + apply lookup_insert_eq.
    + apply lookup_insert_ne. congruence.
Qed.

(** The metrics map holds, for each of the six metric names, the series
    of its source column when the pivot has that column, and nothing
    else. *)
Lemma extract_metrics_spec :
  exists ms,
    extract_metrics pivot = Ok ms /\
    forall m, ms !! m
              = match metric_source (columns pivot) m with
                | Some c => series_of pivot c
                | None => None
                end.
Proof.
  unfold extract_metrics.
  destruct (add_metric_spec "speed" "speed" ∅) as (m1 & -> & H1).
  cbn [bind].
  destruct (add_metric_spec "fuel_usage" "aps" m1) as (m2 & -> & H2).
  cbn [bind].
  destruct (add_brake_spec m2) as (m3 & -> & H3). cbn [bind].
  destruct (add_metric_spec "acceleration" "accx_can" m3) as (m4 & -> & H4).
  cbn [bind].
  destruct (add_metric_spec "gear" "gear" m4) as (m5 & -> & H5). cbn [bind].
  destruct (add_metric_spec "rpm" "nmot" m5) as (m6 & -> & H6).
  exists m6. split; [reflexivity|].
  intros m. rewrite H6, H5, H4, H3, H2, H1, lookup_empty.
  unfold metric_source, has_column. cbv zeta.
  destruct (String.eqb_spec m "rpm") as [->|?]; [solve_source|].
  destruct (String.eqb_spec m "gear") as [->|?]; [solve_source|].
  destruct (String.eqb_spec m "acceleration") as [->|?]; [solve_source|].
  destruct (String.eqb_spec m "brake_usage") as [->|?].
  { cbn. now destruct (List.filter has_pbrake (columns pivot)) as [|[| | |c|] r]. }
  destruct (String.eqb_spec m "fuel_usage") as [->|?]; [solve_source|].
  destruct (String.eqb_spec m "speed") as [->|?]; [solve_source|reflexivity].
Qed.

End Extraction.

Lemma process_telemetry_pivot (df : DataFrame) :
  df_empty df = false ->
  has_column df "telemetry_name" = false ->
  has_column df ID_COL = true -> has_column df LAP_COL = true ->
  exists ms,
    process_telemetry df None None = Ok (ms, df) /\
    forall m, ms !! m
              = match metric_source (columns df) m with
                | Some c => series_of df c
                | None => None
                end.
Proof.
  intros He Hn Hid Hlap.
  destruct (extract_metrics_spec df Hid Hlap) as (ms & Hms & Hspec).
  exists ms. split; [|exact Hspec].
  unfold process_telemetry. rewrite He, Hn. cbn [negb orb].
  unfold apply_filters, filter_vehicle, filter_laps. cbn [bind].
  rewrite He, Hms. reflexivity.
Qed.

(** C7 (as amended).  Take a long telemetry table with the five columns
    none of whose channels is named like a key column ("vehicle_id",
    "lap") or "telemetry_name".  For every sample with keys and value
    present that is the only sample of its (vehicle_id, lap, channel),
    the batch aggregation completes, [process_telemetry] accepts the wide
    table as it is, and every metric read from that channel holds the
    value of the sample at (vehicle_id, lap).  In the scenario (channel
    "aps", values 40 and 60 on lap 3 of vehicle "7") the wide value is 50
    and so is [fuel_usage] at ("7", 3). *)
Theorem aggregate_extract_round_trip
  {conv : PandasConv} (raw : DataFrame) (samples : list Sample)
  (s : Sample) (v : Q) :
  chunk_samples raw = Ok samples ->
  plain_channels samples = true ->
  group_rows samples (sample_key s) = [s] ->
  null_key s = false ->
  s_value s = Some v ->
  (exists wide metrics,
      aggregate_chunks (read_chunks CHUNK_SIZE raw) = Ok wide /\
      process_telemetry wide None None = Ok (metrics, wide) /\
      forall m c,
        metric_source (columns wide) m = Some c -> s_name s = CStr c ->
        exists ser q,
          metrics !! m = Some ser /\
          series_get ser (s_id s, s_lap s) = Some (CFloat q) /\ q == v) /\
  (aggregate_chunks (conv := sheet_conv) (read_chunks CHUNK_SIZE raw_aps)
   = Ok wide_aps /\
   exists metrics,
     process_telemetry wide_aps None None = Ok (metrics, wide_aps) /\
     metrics !! "fuel_usage" = Some [((CStr "7", CInt 3), CFloat 50)]).
Proof.
  intros Hraw Hplain Hsole Hkey Hval. split.
  - destruct (aggregate_chunks_wide raw samples s v Hraw Hplain Hsole Hkey Hval)
      as (final & Hagg & Hholds & Hnames).
    pose proof (sole_present s Hkey) as Hpres.
    assert (Hin : In (s_name s) (map s_name samples)).
    { apply in_map. assert (H : In s (group_rows samples (sample_key s)))
        by (rewrite Hsole; now left).
      now apply filter_In in H as [H _]. }
    destruct (plain_channels_label samples _ Hplain Hin) as (L1 & L2 & L3).
    assert (Htn : has_column (wide_of final) "telemetry_name" = false).
    { unfold has_column, wide_of. cbn [columns existsb is_label].
      cbn [String.eqb Ascii.eqb Bool.eqb orb].
      apply existsb_none. intros n Hn. apply names_In, Hnames in Hn.
      now apply (plain_channels_label samples n Hplain) in Hn as (_ & _ & H). }
    exists (wide_of final).
    destruct (process_telemetry_pivot (wide_of final)) as (ms & Hproc & Hspec);
      [exact (holds_not_empty final _ v Hpres Hholds)
      |exact Htn|reflexivity|reflexivity|].
    exists ms. split; [exact Hagg|]. split; [exact Hproc|].
    intros m c Hsrc Hc.
    unfold sample_key in Hpres, Hholds. rewrite Hc in Hpres, Hholds.
    destruct (holds_index final _ _ _ v Hpres Hholds) as (ik & Hfind & Hik).
    pose proof (holds_name final _ _ c v Hpres Hholds) as Hcol.
    rewrite Hc in L1, L2.
    assert (I1 : is_label c (CStr ID_COL) = false).
    { simpl in L1 |- *. now rewrite String.eqb_sym. }
    assert (I2 : is_label c (CStr LAP_COL) = false).
    { simpl in L2 |- *. now rewrite String.eqb_sym. }
    pose proof (wide_series final c I1 I2 Hcol) as Hser.
    destruct (holds_pivot_cell final (s_id s) (s_lap s) c v ik Hpres Hholds Hik)
      as (q & Hq & Hqv).
    eexists. exists q. split; [|split; [|exact Hqv]].
    + rewrite Hspec, Hsrc. unfold series_of. rewrite Hser. reflexivity.
    + unfold series_get.
      rewrite (find_map_key (fun ik => key2_eqb ik (s_id s, s_lap s))), Hfind.
      cbn [option_map snd]. now rewrite Hq.
  - split; [vm_compute; reflexivity|].
    eexists. split; vm_compute; reflexivity.
Qed.

Lemma aggregate_extract_round_trip_witness :
  let samples :=
    [sample_aps;
     mkSample (CStr "7") (CInt 3) (CStr "speed") (Some (inject_Z 120)) (Some 0%Z);
     mkSample (CStr "7") (CInt 4) (CStr "aps") (Some (inject_Z 60)) (Some 90%Z)] in
  (chunk_samples (conv := sheet_conv) raw_single = Ok samples /\
   plain_channels samples = true /\
   group_rows samples (sample_key sample_aps) = [sample_aps] /\
   null_key sample_aps = false /\
   s_value sample_aps = Some (inject_Z 40)) /\
  exists wide metrics ser q,
    aggregate_chunks (conv := sheet_conv) (read_chunks CHUNK_SIZE raw_single)
    = Ok wide /\
    process_telemetry wide None None = Ok (metrics, wide) /\
    metrics !! "fuel_usage" = Some ser /\
    series_get ser (CStr "7", CInt 3) = Some (CFloat q) /\ q == inject_Z 40.
Proof.
  intros samples.
  assert (H1 : chunk_samples (conv := sheet_conv) raw_single = Ok samples)
    by reflexivity.
  assert (H2 : plain_channels samples = true) by reflexivity.
  assert (H3 : group_rows samples (sample_key sample_aps) = [sample_aps])
    by reflexivity.
  assert (H4 : null_key sample_aps = false) by reflexivity.
  assert (H5 : s_value sample_aps = Some (inject_Z 40)) by reflexivity.
  split; [auto|].
  destruct (aggregate_extract_round_trip (conv := sheet_conv)
              raw_single samples sample_aps (inject_Z 40) H1 H2 H3 H4 H5)
    as [(wide & metrics & Ha & Hp & Hm) _].
  assert (Hw : columns wide
               = [CStr "vehicle_id"; CStr "lap"; CStr "aps"; CStr "speed"]).
  { assert (E : aggregate_chunks (conv := sheet_conv)
                  (read_chunks CHUNK_SIZE raw_single)
                = Ok (mkFrame [CStr "vehicle_id"; CStr "lap"; CStr "aps"; CStr "speed"]
                        [[CStr "7"; CInt 3; CFloat 40; CFloat 120];
                         [CStr "7"; CInt 4; CFloat 60; CNull]]))
      by (vm_compute; reflexivity).
    rewrite E in Ha. injection Ha as <-. reflexivity. }
  destruct (Hm "fuel_usage" "aps") as (ser & q & Hs & Hg & Hq);
    [rewrite Hw; reflexivity|reflexivity|].
  exists wide, metrics, ser, q. auto.
Defined.

Lemma round_trip_reserved_channel :
  ~ (forall raw samples s v,
        chunk_samples (conv := sheet_conv) raw = Ok samples ->
        group_rows samples (sample_key s) = [s] ->
        null_key s = false ->
        s_value s = Some v ->
        s_name s = CStr "aps" ->
        exists wide metrics pivot ser q,
          aggregate_chunks (conv := sheet_conv) (read_chunks CHUNK_SIZE raw)
          = Ok wide /\
          process_telemetry wide None None = Ok (metrics, pivot) /\
          metrics !! "fuel_usage" = Some ser /\
          series_get ser (s_id s, s_lap s) = Some (CFloat q) /\ q == v).
Proof.
  intros H.
  destruct (H raw_reserved
              [sample_aps;
               mkSample (CStr "7") (CInt 3) (CStr "telemetry_name")
                        (Some (inject_Z 1)) (Some 0%Z);
               mkSample (CStr "7") (CInt 3) (CStr "telemetry_value")
                        (Some (inject_Z 2)) (Some 0%Z)]
              sample_aps (inject_Z 40)
              eq_refl eq_refl eq_refl eq_refl eq_refl)
    as (wide & metrics & pivot & ser & q & Ha & Hp & Hm & _).
  assert (E : aggregate_chunks (conv := sheet_conv)
                (read_chunks CHUNK_SIZE raw_reserved)
              = Ok (mkFrame [CStr "vehicle_id"; CStr "lap"; CStr "aps";
                             CStr "telemetry_name"; CStr "telemetry_value"]
                      [[CStr "7"; CInt 3; CFloat 40; CFloat 1; CFloat 2]]))
    by (vm_compute; reflexivity).
  rewrite E in Ha. injection Ha as <-.
  assert (P : process_telemetry
                (mkFrame [CStr "vehicle_id"; CStr "lap"; CStr "aps";
                          CStr "telemetry_name"; CStr "telemetry_value"]
                   [[CStr "7"; CInt 3; CFloat 40; CFloat 1; CFloat 2]])
                None None
              = Ok (∅, mkFrame [CStr "vehicle_id"; CStr "lap"; CFloat 1]
                         [[CStr "7"; CInt 3; CFloat 2]]))
    by (vm_compute; reflexivity).
  rewrite P in Hp. injection Hp as <- _.
  rewrite lookup_empty in Hm. discriminate.
Qed.

(** ** Filters that leave nothing *)

Lemma in_range_reversed (lo hi : Z) (c : cell) :
  (hi < lo)%Z -> comparable c = true -> in_range lo hi c = Ok false.
Proof.
  intros Hlt Hc. unfold in_range. destruct c; try discriminate; simpl.
  - reflexivity.
  - destruct (Z.compare_spec z lo), (Z.compare_spec z hi);
      try reflexivity; lia.
  - assert (Hq : ~ (inject_Z lo <= q /\ q <= inject_Z hi)%Q).
    { intros [A B]. pose proof (Qle_trans _ _ _ A B) as C.
      rewrite <- Zle_Qle in C. lia. }
    destruct (q ?= inject_Z lo)%Q eqn:G, (q ?= inject_Z hi)%Q eqn:L;
      try reflexivity; exfalso; apply Hq; split;
      try (apply Qnot_lt_le; rewrite Qlt_alt; congruence);
      try (apply Qle_alt; congruence).
Qed.

Lemma mapR_all_false {A : Type} (f : A -> result bool) (l : list A) :
  (forall a, In a l -> f a = Ok false) ->
  mapR f l = Ok (map (fun _ => false) l).
Proof.
  induction l as [|a t IH]; simpl; intros H; [reflexivity|].
  rewrite (H a) by now left. simpl. rewrite IH; [reflexivity|].
  intros b Hb. apply H. now right.
Qed.

Lemma select_rows_none (df : DataFrame) {A : Type} (l : list A) :
  rows (select_rows df (map (fun _ => false) l)) = [].
Proof.
  unfold select_rows. cbn [rows]. generalize (rows df). intros rws.
  revert rws. induction l as [|a t IH]; intros [|r rws]; simpl; auto.
Qed.

Lemma df_empty_no_rows (df : DataFrame) : rows df = [] -> df_empty df = true.
Proof. unfold df_empty. intros ->. now destruct (columns df). Qed.

Lemma select_rows_incl (df : DataFrame) (mask : list bool) (r : list cell) :
  In r (rows (select_rows df mask)) -> In r (rows df).
Proof.
  unfold select_rows. cbn [rows]. intros H.
  apply in_map_iff in H as ([r' b] & <- & H).
  apply filter_In in H as [H _]. now apply in_combine_l in H.
Qed.

Lemma filter_vehicle_Ok (df : DataFrame) (v : option string) :
  v = None \/ has_column df ID_COL = true ->
  exists d, filter_vehicle df v = Ok d /\ columns d = columns df /\
            forall r, In r (rows d) -> In r (rows df).
Proof.
  intros Hv. destruct v as [x|]; simpl.
  - destruct Hv as [Hv|Hv]; [discriminate|].
    unfold has_column in Hv. apply position_has in Hv as [i Hi].
    unfold getitem. rewrite Hi. simpl. eexists. split; [reflexivity|].
    split; [reflexivity|]. apply select_rows_incl.
  - exists df. auto.
Qed.

Lemma reversed_range_empty (df : DataFrame) (v : option string) (lo hi : Z) :
  (hi < lo)%Z ->
  v = None \/ has_column df ID_COL = true ->
  lap_cells_comparable df = true ->
  exists filtered,
    apply_filters df v (Some (lo, hi)) = Ok filtered /\
    df_empty filtered = true.
Proof.
  intros Hlt Hv Hc.
  destruct (filter_vehicle_Ok df v Hv) as (d & Hd & Hcols & Hrows).
  unfold apply_filters. rewrite Hd. cbn [bind filter_laps].
  unfold lap_cells_comparable, getitem in Hc. unfold getitem. rewrite Hcols.
  destruct (position LAP_COL (columns df)) as [j|]; [|discriminate].
  cbn [bind]. rewrite forallb_forall in Hc.
  rewrite (mapR_all_false (in_range lo hi)).
  - cbn [bind]. eexists. split; [reflexivity|].
    apply df_empty_no_rows. apply select_rows_none.
  - intros c Hin. apply in_range_reversed; [assumption|].
    apply Hc. apply in_map_iff in Hin as (r & <- & Hr).
    apply in_map_iff. exists r. split; [reflexivity|]. now apply Hrows.
Qed.

(** C9 (as amended).  When the filters can be evaluated and leave no row,
    [process_telemetry] returns an empty metrics map and the empty table,
    without raising; and a lap range whose maximum is below its minimum,
    such as (1, 0), can be evaluated and leaves no row whenever the table
    has a lap column holding numbers or absent values (and a vehicle_id
    column if a vehicle is given). *)
Theorem process_telemetry_empty_selection
  (df : DataFrame) (vehicle_id : option string) (lap_range : option (Z * Z)) :
  (exists filtered,
      apply_filters df vehicle_id lap_range = Ok filtered /\
      df_empty filtered = true) \/
  (exists lo hi,
      lap_range = Some (lo, hi) /\ (hi < lo)%Z /\
      (vehicle_id = None \/ has_column df ID_COL = true) /\
      lap_cells_comparable df = true) ->
  process_telemetry df vehicle_id lap_range = Ok (∅, empty_frame).
Proof.
  intros H.
  assert (Hf : exists filtered,
             apply_filters df vehicle_id lap_range = Ok filtered /\
             df_empty filtered = true).
  { destruct H as [H|(lo & hi & -> & Hlt & Hv & Hc)]; [exact H|].
    now apply reversed_range_empty. }
  destruct Hf as (filtered & Hf & He).
  unfold process_telemetry. destruct (df_empty df); [reflexivity|].
  cbv zeta.
  destruct (negb (has_column df "telemetry_name")
            || negb (has_column df "telemetry_value"));
    rewrite Hf; cbn [bind]; now rewrite He.
Qed.

Lemma process_telemetry_empty_selection_witness :
  ((exists filtered,
       apply_filters wide_two_laps (Some "7") (Some (1, 0)%Z) = Ok filtered /\
       df_empty filtered = true) \/
   (exists lo hi,
       Some (1, 0)%Z = Some (lo, hi) /\ (hi < lo)%Z /\
       (Some "7" = None \/ has_column wide_two_laps ID_COL = true) /\
       lap_cells_comparable wide_two_laps = true)) /\
  process_telemetry wide_two_laps (Some "7") (Some (1, 0)%Z)
  = Ok (∅, empty_frame).
Proof.
  assert (H : (exists filtered,
                  apply_filters wide_two_laps (Some "7") (Some (1, 0)%Z)
                  = Ok filtered /\
                  df_empty filtered = true) \/
              (exists lo hi,
                  Some (1, 0)%Z = Some (lo, hi) /\ (hi < lo)%Z /\
                  (Some "7" = None \/ has_column wide_two_laps ID_COL = true) /\
                  lap_cells_comparable wide_two_laps = true)).
  { right. exists 1%Z, 0%Z. split; [reflexivity|]. split; [lia|].
    split; [right; reflexivity|reflexivity]. }
  split; [exact H|].
  exact (process_telemetry_empty_selection wide_two_laps (Some "7")
           (Some (1, 0)%Z) H).
Defined.

Lemma process_telemetry_missing_lap_column :
  ~ (forall df vehicle_id,
        process_telemetry df vehicle_id (Some (1, 0)%Z) = Ok (∅, empty_frame)).
Proof.
  intros H. specialize (H wide_no_lap None).
  assert (E : process_telemetry wide_no_lap None (Some (1, 0)%Z)
              = Raise KeyError) by reflexivity.
  rewrite E in H. discriminate.
Qed.

(** ** No metric without its source column *)

Lemma sourced_empty (pivot : DataFrame) : sourced pivot ∅.
Proof. intros m ser H. rewrite lookup_empty in H. discriminate. Qed.

Lemma sourced_insert (pivot : DataFrame) (ms : gmap string Series)
      (key col : string) (s : Series) :
  metric_source (columns pivot) key = Some col ->
  has_column pivot col = true ->
  sourced pivot ms -> sourced pivot (<[key := s]> ms).
Proof.
  intros Hsrc Hcol Hms m ser Hm.
  destruct (String.eqb_spec m key) as [->|Hne].
  - exists col. auto.
  - rewrite lookup_insert_ne in Hm by congruence. exact (Hms m ser Hm).
Qed.

Lemma add_metric_sourced (pivot : DataFrame) (key col : string)
      (m0 m1 : gmap string Series) :
  (has_column pivot col = true ->
   metric_source (columns pivot) key = Some col) ->
  add_metric pivot key col m0 = Ok m1 ->
  sourced pivot m0 -> sourced pivot m1.
Proof.
  intros Hsrc. unfold add_metric.
  destruct (has_column pivot col) eqn:Hc.
  - intros H Hm0. apply bind_Ok in H as (s & _ & H). injection H as <-.
    apply (sourced_insert pivot m0 key col s (Hsrc eq_refl) Hc Hm0).
  - now intros [= <-].
Qed.

Lemma add_brake_sourced (pivot : DataFrame) (m0 m1 : gmap string Series) :
  add_brake pivot m0 = Ok m1 -> sourced pivot m0 -> sourced pivot m1.
Proof.
  unfold add_brake.
  destruct (List.filter has_pbrake (columns pivot)) as [|c0 r] eqn:Hf;
    [now intros [= <-]|].
  destruct c0 as [| | |c|]; try (now intros [= <-]).
  intros H Hm0. apply bind_Ok in H as (s & _ & H). injection H as <-.
  apply (sourced_insert pivot m0 "brake_usage" c s); [| |exact Hm0].
  - unfold metric_source. cbn. now rewrite Hf.
  - unfold has_column. apply existsb_exists. exists (CStr c).
    split; [|now apply is_label_eq].
    assert (H : In (CStr c) (List.filter has_pbrake (columns pivot)))
      by (rewrite Hf; now left).
    now apply filter_In in H as [H _].
Qed.

Lemma extract_metrics_sourced (pivot : DataFrame) (ms : gmap string Series) :
  extract_metrics pivot = Ok ms -> sourced pivot ms.
Proof.
  unfold extract_metrics. intros H.
  apply bind_Ok in H as (m1 & H1 & H). apply bind_Ok in H as (m2 & H2 & H).
  apply bind_Ok in H as (m3 & H3 & H). apply bind_Ok in H as (m4 & H4 & H).
  apply bind_Ok in H as (m5 & H5 & H6).
  assert (Src : forall key col,
             metric_source (columns pivot) key
             = (if existsb (is_label col) (columns pivot) then Some col else None) ->
             has_column pivot col = true ->
             metric_source (columns pivot) key = Some col).
  { intros key col E Hc. unfold has_column in Hc. now rewrite E, Hc. }
  apply (add_metric_sourced pivot "rpm" "nmot" m5 ms
           (Src "rpm" "nmot" eq_refl) H6).
  apply (add_metric_sourced pivot "gear" "gear" m4 m5
           (Src "gear" "gear" eq_refl) H5).
  apply (add_metric_sourced pivot "acceleration" "accx_can" m3 m4
           (Src "acceleration" "accx_can" eq_refl) H4).
  apply (add_brake_sourced pivot m2 m3 H3).
  apply (add_metric_sourced pivot "fuel_usage" "aps" m1 m2
           (Src "fuel_usage" "aps" eq_refl) H2).
  apply (add_metric_sourced pivot "speed" "speed" ∅ m1
           (Src "speed" "speed" eq_refl) H1).
  apply sourced_empty.
Qed.

Lemma process_telemetry_sourced (df : DataFrame) (v : option string)
      (lr : option (Z * Z)) (ms : gmap string Series) (pivot : DataFrame) :
  process_telemetry df v lr = Ok (ms, pivot) -> sourced pivot ms.
Proof.
  unfold process_telemetry.
  destruct (df_empty df); [intros [= <- <-]; apply sourced_empty|].
  cbv zeta.
  destruct (negb (has_column df "telemetry_name")
            || negb (has_column df "telemetry_value")).
  - intros H. apply bind_Ok in H as (f & _ & H).
    destruct (df_empty f); [injection H as <- <-; apply sourced_empty|].
    apply bind_Ok in H as (ms' & Hms & [= <- <-]).
    now apply extract_metrics_sourced.
  - intros H. apply bind_Ok in H as (f & _ & H).
    destruct (df_empty f); [injection H as <- <-; apply sourced_empty|].
    destruct (s <- long_samples f ;; pivot_table_reset s) as [p|e];
      [|injection H as <- <-; apply sourced_empty].
    apply bind_Ok in H as (ms' & Hms & [= <- <-]).
    now apply extract_metrics_sourced.
Qed.

(** ** The store is only extended *)

Import TelemetryObjects.

Lemma extends_refl (h : heap) : extends h h.
Proof. exists []. now rewrite app_nil_r. Qed.

Lemma extends_trans (h1 h2 h3 : heap) :
  extends h1 h2 -> extends h2 h3 -> extends h1 h3.
Proof. intros [a ->] [b ->]. exists (a ++ b). now rewrite app_assoc. Qed.

Lemma extends_alloc (h : heap) (df : DataFrame) : extends h (h ++ [df]).
Proof. now exists [df]. Qed.

Lemma extends_nth (h h' : heap) (r : ref) :
  (r < length h)%nat -> extends h h' ->
  nth r h' empty_frame = nth r h empty_frame.
Proof. intros Hr [news ->]. now apply app_nth1. Qed.

Lemma nth_alloc (h : heap) (df : DataFrame) :
  nth (length h) (h ++ [df]) empty_frame = df.
Proof. now rewrite nth_middle. Qed.

(** A filter step: the reference it yields points to the filtered table,
    in a heap that extends the given one. *)
Lemma filter_vehicle_obj_spec (h : heap) (r : ref) (v : option string) :
  match filter_vehicle (nth r h empty_frame) v with
  | Ok d => exists r' h', filter_vehicle_obj r v h = (Ok r', h') /\
                          extends h h' /\ nth r' h' empty_frame = d
  | Raise e => filter_vehicle_obj r v h = (Raise e, h)
  end.
Proof.
  unfold filter_vehicle_obj. destruct v as [x|].
  - unfold bind_st, deref, lift.
    destruct (filter_vehicle (nth r h empty_frame) (Some x)) as [d|e];
      [|reflexivity].
    exists (length h), (h ++ [d]). split; [reflexivity|].
    split; [apply extends_alloc|apply nth_alloc].
  - simpl. exists r, h. split; [reflexivity|]. split; [apply extends_refl|reflexivity].
Qed.

Lemma filter_laps_obj_spec (h : heap) (r : ref) (lr : option (Z * Z)) :
  match filter_laps (nth r h empty_frame) lr with
  | Ok d => exists r' h', filter_laps_obj r lr h = (Ok r', h') /\
                          extends h h' /\ nth r' h' empty_frame = d
  | Raise e => filter_laps_obj r lr h = (Raise e, h)
  end.
Proof.
  unfold filter_laps_obj. destruct lr as [p|].
  - unfold bind_st, deref, lift.
    destruct (filter_laps (nth r h empty_frame) (Some p)) as [d|e];
      [|reflexivity].
    exists (length h), (h ++ [d]). split; [reflexivity|].
    split; [apply extends_alloc|apply nth_alloc].
  - simpl. exists r, h. split; [reflexivity|]. split; [apply extends_refl|reflexivity].
Qed.

Lemma return_empty_spec (h : heap) :
  view (return_empty h) = Ok (∅, empty_frame) /\ extends h (snd (return_empty h)).
Proof.
  unfold return_empty, bind_st, alloc, ret, view. cbn [snd].
  rewrite nth_alloc. split; [reflexivity|apply extends_alloc].
Qed.

Lemma finish_spec (h : heap) (pivot : DataFrame) :
  let run :=
    (telemetry_pivot <~ alloc pivot ;;
     metrics <~ lift (extract_metrics pivot) ;;
     ret (metrics, telemetry_pivot)) h in
  view run = (metrics <- extract_metrics pivot ;; Ok (metrics, pivot)) /\
  extends h (snd run).
Proof.
  unfold bind_st, alloc, lift, ret, raise, view.
  destruct (extract_metrics pivot) as [ms|e]; cbn [snd bind].
  - rewrite nth_alloc. split; [reflexivity|apply extends_alloc].
  - split; [reflexivity|apply extends_alloc].
Qed.

Lemma process_telemetry_obj_spec (h : heap) (r : ref) (v : option string)
      (lr : option (Z * Z)) :
  view (process_telemetry_obj r v lr h)
  = process_telemetry (nth r h empty_frame) v lr /\
  extends h (snd (process_telemetry_obj r v lr h)).
Proof.
  remember (process_telemetry_obj r v lr h) as run eqn:Hrun.
  unfold process_telemetry, apply_filters.
  unfold process_telemetry_obj in Hrun.
  unfold bind_st at 1 in Hrun. unfold deref at 1 in Hrun.
  destruct (df_empty (nth r h empty_frame));
    [subst run; apply return_empty_spec|].
  cbv zeta in Hrun |- *. unfold bind_st at 1 in Hrun.
  pose proof (filter_vehicle_obj_spec h r v) as Hv.
  destruct (filter_vehicle (nth r h empty_frame) v) as [d1|e1].
  2:{ rewrite Hv in Hrun. subst run. cbn [bind view snd].
      split; [now destruct (negb _ || negb _)|apply extends_refl]. }
  destruct Hv as (r1 & h1 & Hv & Hx1 & Hd1). rewrite Hv in Hrun. cbn [bind].
  unfold bind_st at 1 in Hrun.
  pose proof (filter_laps_obj_spec h1 r1 lr) as Hl. rewrite Hd1 in Hl.
  destruct (filter_laps d1 lr) as [d2|e2].
  2:{ rewrite Hl in Hrun. subst run. cbn [bind view snd].
      split; [now destruct (negb _ || negb _)|exact Hx1]. }
  destruct Hl as (r2 & h2 & Hl & Hx2 & Hd2). rewrite Hl in Hrun. cbn [bind].
  unfold bind_st at 1 in Hrun. unfold deref at 1 in Hrun. rewrite Hd2 in Hrun.
  assert (Hx : extends h h2) by (eapply extends_trans; eauto).
  destruct (df_empty d2).
  { subst run. destruct (return_empty_spec h2) as [E1 E2].
    split; [rewrite E1; now destruct (negb _ || negb _)
           |eapply extends_trans; eauto]. }
  destruct (negb (has_column (nth r h empty_frame) "telemetry_name")
            || negb (has_column (nth r h empty_frame) "telemetry_value")).
  - destruct (finish_spec h2 d2) as [E1 E2].
    assert (Eq : run = (telemetry_pivot <~ alloc d2 ;;
                        metrics <~ lift (extract_metrics d2) ;;
                        ret (metrics, telemetry_pivot)) h2).
    { rewrite Hrun. unfold bind_st, alloc, deref. now rewrite nth_alloc. }
    rewrite Eq. split; [exact E1|eapply extends_trans; eauto].
  - destruct (s <- long_samples d2 ;; pivot_table_reset s) as [pivot|e].
    + subst run. destruct (finish_spec h2 pivot) as [E1 E2].
      split; [exact E1|eapply extends_trans; eauto].
    + subst run. destruct (return_empty_spec h2) as [E1 E2].
      split; [exact E1|eapply extends_trans; eauto].
Qed.

(** C8.  [process_telemetry] is a function of its arguments alone: run
    on a table object of the store it returns what the function gives on
    that table, it leaves the table (and every other object) as it was,
    only adding new objects, and so a second call with the same arguments
    returns the same metrics and wide table.  A metric is in the returned
    map only if the pivot has its source column. *)
Theorem process_telemetry_pure
  (h : heap) (telemetry_df : ref) (vehicle_id : option string)
  (lap_range : option (Z * Z)) :
  (telemetry_df < length h)%nat ->
  let run1 := process_telemetry_obj telemetry_df vehicle_id lap_range h in
  let run2 := process_telemetry_obj telemetry_df vehicle_id lap_range (snd run1) in
  view run1
  = process_telemetry (nth telemetry_df h empty_frame) vehicle_id lap_range /\
  view run2 = view run1 /\
  extends h (snd run1) /\
  nth telemetry_df (snd run2) empty_frame = nth telemetry_df h empty_frame /\
  forall metrics pivot m ser,
    view run1 = Ok (metrics, pivot) -> metrics !! m = Some ser ->
    exists c, metric_source (columns pivot) m = Some c /\
              has_column pivot c = true.
Proof.
  intros Hr run1 run2.
  destruct (process_telemetry_obj_spec h telemetry_df vehicle_id lap_range)
    as [V1 X1].
  destruct (process_telemetry_obj_spec (snd run1) telemetry_df vehicle_id
              lap_range) as [V2 X2].
  fold run1 in V1, X1. fold run2 in V2, X2.
  assert (N1 : nth telemetry_df (snd run1) empty_frame
               = nth telemetry_df h empty_frame)
    by (now apply extends_nth).
  assert (Hr1 : (telemetry_df < length (snd run1))%nat).
  { destruct X1 as [news ->]. rewrite length_app. lia. }
  split; [exact V1|]. split; [now rewrite V2, N1, V1|].
  split; [exact X1|].
  split; [now rewrite (extends_nth _ _ _ Hr1 X2)|].
  intros metrics pivot m ser Hv Hm. rewrite V1 in Hv.
  exact (process_telemetry_sourced _ _ _ _ _ Hv m ser Hm).
Qed.

Lemma process_telemetry_pure_witness :
  let h := [wide_two_laps] in
  let run1 := process_telemetry_obj 0 (Some "7") (Some (2, 5)%Z) h in
  let run2 := process_telemetry_obj 0 (Some "7") (Some (2, 5)%Z) (snd run1) in
  (0 < length h)%nat /\
  view run1 = process_telemetry (nth 0 h empty_frame) (Some "7") (Some (2, 5)%Z) /\
  view run2 = view run1 /\
  extends h (snd run1) /\
  nth 0 (snd run2) empty_frame = nth 0 h empty_frame /\
  forall metrics pivot m ser,
    view run1 = Ok (metrics, pivot) -> metrics !! m = Some ser ->
    exists c, metric_source (columns pivot) m = Some c /\
              has_column pivot c = true.
Proof.
  intros h run1 run2.
  assert (Hr : (0 < length h)%nat) by (simpl; lia).
  split; [exact Hr|].
  exact (process_telemetry_pure h 0%nat (Some "7") (Some (2, 5)%Z) Hr).
Defined.

End TelemetryFacts.

(** ** Facts on the command line *)

Module PreprocessCliFacts.
Import Config Preprocess PreprocessCli.
Import stdpp.base stdpp.gmap stdpp.strings.

Section ScriptFacts.
Context {conv : PandasConv}.

(** The three ways one race can go. *)
Lemma process_race_cases (e : env) (i o : string) (fs : gmap string file) :
  (fs !! i = None /\ process_race e i o fs = (Returned, fs)) \/
  (exists f chunks wide,
      fs !! i = Some f /\
      read_csv CHUNK_SIZE f = Ok chunks /\
      aggregate_chunks chunks = Ok wide /\
      write_fails e o = false /\
      process_race e i o fs = (Returned, <[o := Parquet wide]> fs)) \/
  (exists f fs',
      fs !! i = Some f /\ ~ passes e f o /\
      process_race e i o fs = (Exited 1, fs') /\
      (fs' = fs \/ fs' = <[o := Partial]> fs)).
Proof.
  unfold process_race, aggregate_telemetry_file.
  destruct (fs !! i) as [f|] eqn:Hf; [|now left].
  right. destruct (read_csv CHUNK_SIZE f) as [chunks|e1] eqn:Hr.
  - cbn [bind]. destruct (aggregate_chunks chunks) as [wide|e2] eqn:Ha.
    + unfold to_parquet. destruct (write_fails e o) eqn:Hw.
      * right. eexists f, _. split; [reflexivity|]. split.
        { intros (c & w & _ & _ & Hw'). congruence. }
        split; [reflexivity|]. destruct (leaves_partial e o); auto.
      * left. exists f, chunks, wide. auto.
    + right. exists f, fs. split; [reflexivity|]. split; [|auto].
      intros (c & w & Hc & Hw & _). congruence.
  - right. exists f, fs. split; [reflexivity|]. split; [|auto].
    intros (c & w & Hc & _). congruence.
Qed.

End ScriptFacts.



End PreprocessCliFacts.

(** * Further properties of the code *)

Section Castable.
Context {conv : PandasConv}.

Lemma mapR_astype_Int64 (cs : list cell) :
  if forallb lap_castable cs
  then exists laps, mapR astype_Int64 (map to_numeric cs) = Ok laps
  else mapR astype_Int64 (map to_numeric cs) = Raise TypeError.
Proof.
  induction cs as [|c t IH]; simpl; [eauto|].
  unfold lap_castable at 1. unfold astype_Int64 at 1 3. unfold whole.
  destruct (to_numeric c) as [q|]; cbv zeta.
  - destruct (Pos.eqb (Qden (Qred q)) 1 && int64_range (Qnum (Qred q)));
      simpl; [|reflexivity].
    destruct (forallb lap_castable t).
    + destruct IH as [laps ->]. simpl. eauto.
    + rewrite IH. reflexivity.
  - simpl. destruct (forallb lap_castable t).
    + destruct IH as [laps ->]. simpl. eauto.
    + rewrite IH. reflexivity.
Qed.

Lemma getitem_has (df : DataFrame) (name : string) :
  has_column df name = true -> exists cs, getitem df name = Ok cs.
Proof.
  unfold has_column, getitem. intros [i Hi]%position_has. rewrite Hi. eauto.
Qed.

Lemma usable_inv (df : DataFrame) (time_cols : list string) :
  usable df time_cols = true ->
  df_empty df = false /\ has_column df ID_COL = true /\
  has_column df LAP_COL = true /\
  exists ts_col, find (has_column df) time_cols = Some ts_col /\
                 has_column df ts_col = true.
Proof.
  unfold usable. rewrite !andb_true_iff, negb_true_iff.
  intros [[[H1 H2] H3] H4]. repeat split; auto.
  apply existsb_exists in H4 as (c & Hc & Hh).
  destruct (find (has_column df) time_cols) as [ts|] eqn:Hf.
  - exists ts. split; [reflexivity|]. now apply find_some in Hf.
  - exfalso. pose proof (find_none _ _ Hf c Hc). congruence.
Qed.

(** On a usable sheet the reconstruction is the coercion followed by the
    grouped computation. *)
Lemma compute_usable (df : DataFrame) (time_cols : list string) :
  usable df time_cols = true ->
  exists ts_col,
    has_column df ts_col = true /\
    compute_lap_time_from_timestamps (Some df) ID_COL LAP_COL time_cols
    = (base <- coerce df ID_COL LAP_COL ts_col ;;
       Ok (reset_index (drop_duplicates (groupby_apply base)))).
Proof.
  intros (H1 & H2 & H3 & ts & Hf & Hts)%usable_inv.
  exists ts. split; [assumption|].
  unfold compute_lap_time_from_timestamps. now rewrite H1, H2, H3, Hf.
Qed.

Lemma compute_unusable (df : DataFrame) (time_cols : list string) :
  usable df time_cols = false ->
  compute_lap_time_from_timestamps (Some df) ID_COL LAP_COL time_cols = Ok [].
Proof.
  unfold usable, compute_lap_time_from_timestamps. intros H.
  destruct (df_empty df); [reflexivity|].
  destruct (has_column df ID_COL); [|reflexivity].
  destruct (has_column df LAP_COL); [|reflexivity].
  simpl in H |- *.
  destruct (find (has_column df) time_cols) as [ts|] eqn:Hf; [|reflexivity].
  apply find_some in Hf as [Hin Hh].
  assert (existsb (has_column df) time_cols = true)
    by (apply existsb_exists; eauto).
  congruence.
Qed.

Lemma coerce_cases (df : DataFrame) (ts_col : string) :
  has_column df ID_COL = true -> has_column df LAP_COL = true ->
  has_column df ts_col = true ->
  if uncastable_lap df
  then coerce df ID_COL LAP_COL ts_col = Raise TypeError
  else exists base, coerce df ID_COL LAP_COL ts_col = Ok base.
Proof.
  intros [ids Hi]%getitem_has [lapc Hl]%getitem_has [tsc Ht]%getitem_has.
  unfold uncastable_lap, coerce. rewrite Hi, Hl. cbn [bind].
  pose proof (mapR_astype_Int64 lapc) as H.
  destruct (forallb lap_castable lapc); cbn [negb].
  - destruct H as [laps ->]. cbn [bind]. rewrite Ht. cbn [bind]. eauto.
  - now rewrite H.
Qed.

Lemma compute_cases (df : option DataFrame) (time_cols : list string) :
  if match df with
     | Some d => usable d time_cols && uncastable_lap d
     | None => false
     end
  then compute_lap_time_from_timestamps df ID_COL LAP_COL time_cols
       = Raise TypeError
  else exists res,
      compute_lap_time_from_timestamps df ID_COL LAP_COL time_cols = Ok res.
Proof.
  destruct df as [d|]; [|simpl; eauto].
  destruct (usable d time_cols) eqn:Hu.
  - destruct (compute_usable d time_cols Hu) as (ts & Hts & ->).
    apply usable_inv in Hu as (_ & H2 & H3 & _).
    pose proof (coerce_cases d ts H2 H3 Hts) as H.
    cbn [andb]. destruct (uncastable_lap d).
    + now rewrite H.
    + destruct H as [base ->]. cbn [bind]. eauto.
  - rewrite (compute_unusable d time_cols Hu). simpl. eauto.
Qed.

End Castable.

(** X1.  [build_laps] raises exactly when one of the two sheets of the
    race passes the guards of the reconstruction and holds a lap that
    parses to a number the cast to a nullable integer rejects: one that
    is not whole (1.5, say) or lies outside the 64-bit integers (2^63,
    say).  The cast then fails with [TypeError].  In every other case
    (sheets unreadable, empty, without the needed columns, laps that are
    text or absent) it returns a table. *)
Theorem build_laps_raises_on_uncastable_lap
  {conv : PandasConv} (wb : workbook) (race : string) :
  if sheet_rejected wb (fst (race_sheets race)) TIME_COLS_END
     || sheet_rejected wb (snd (race_sheets race)) TIME_COLS_TIME
  then build_laps wb race = Raise TypeError
  else exists out, build_laps wb race = Ok out.
Proof.
  unfold build_laps, end_laps_of, time_laps_of, sheet_rejected.
  pose proof (compute_cases (read_sheet wb (fst (race_sheets race)))
                TIME_COLS_END) as He.
  pose proof (compute_cases (read_sheet wb (snd (race_sheets race)))
                TIME_COLS_TIME) as Ht.
  destruct (read_sheet wb (fst (race_sheets race))) as [d1|];
    destruct (read_sheet wb (snd (race_sheets race))) as [d2|].
  all: repeat match goal with
         | H : context [if ?b then _ else _] |- _ => destruct b eqn:?
         end.
  all: repeat match goal with
         | H : exists _, _ |- _ => destruct H as [? H]
         end.
  all: cbn [orb]; rewrite ?He, ?Ht; cbn [bind]; rewrite ?Ht; cbn [bind];
    try reflexivity; eauto.
Qed.

Lemma build_laps_fractional_lap_example :
  build_laps (conv := sheet_conv) wb_fractional "Race 1" = Raise TypeError.
Proof. vm_compute. reflexivity. Qed.

Lemma build_laps_huge_lap_example :
  build_laps (conv := sheet_conv) wb_huge_lap "Race 1" = Raise TypeError.
Proof. vm_compute. reflexivity. Qed.

(** ** Completeness of the reconstruction *)

Section Completeness.
Context {conv : PandasConv}.

Lemma per_id_keys (g : list BaseRow) :
  map (fun p => (fst p, lap_key (snd p))) (per_id g)
  = map (fun b => (b_index b, (b_id b, b_lap b))) (sort_values g).
Proof.
  unfold per_id, diff.
  destruct (sort_values g) as [|r t]; [reflexivity|].
  cbn [map snd fst lap_key vehicle_id lap]. f_equal. apply diff_from_keys.
Qed.

Lemma per_id_complete (g : list BaseRow) (b : BaseRow) :
  In b g -> exists p, In p (per_id g) /\ from_base b p.
Proof.
  intros Hb.
  assert (Hs : In b (sort_values g)) by (unfold sort_values; now apply isort_In).
  apply (in_map (fun b => (b_index b, (b_id b, b_lap b)))) in Hs.
  rewrite <- per_id_keys in Hs.
  apply in_map_iff in Hs as (p & Hp & Hin).
  exists p. split; [assumption|].
  unfold from_base, lap_key in *. injection Hp as H1 H2 H3. auto.
Qed.

Lemma groupby_apply_complete (base : list BaseRow) (b : BaseRow) :
  In b base -> exists p, In p (groupby_apply base) /\ from_base b p.
Proof.
  intros Hb.
  assert (Hk : In (b_id b) (group_keys base)).
  { unfold group_keys. apply isort_In, nodup_In. now apply in_map. }
  assert (Hg : In b (group_of base (b_id b))).
  { unfold group_of. apply filter_In. split; [assumption|].
    apply String.eqb_refl. }
  destruct (per_id_complete _ _ Hg) as (p & Hp & Hf).
  assert (Hc : In p (List.concat (map per_id (groups base)))).
  { apply in_concat. exists (per_id (group_of base (b_id b))).
    split; [|assumption]. apply in_map. unfold groups. now apply in_map. }
  exists p. split; [|assumption].
  unfold groupby_apply. cbv zeta. destruct (negb _); [assumption|].
  unfold reindex. apply in_flat_map. exists (fst p). split.
  - destruct Hf as [-> _]. now apply in_map.
  - apply filter_In. split; [assumption|]. apply Nat.eqb_refl.
Qed.

Lemma mk_base_complete (n k : nat) (ids : list string) (laps ts : list (option Z))
      (v : string) (l t : option Z) :
  nth_error ids k = Some v -> nth_error laps k = Some l ->
  nth_error ts k = Some t ->
  In (mkBase (n + k) v l t) (mk_base n ids laps ts).
Proof.
  revert n ids laps ts.
  induction k as [|k IH]; intros n [|v' ids] [|l' laps] [|t' ts]; simpl;
    try discriminate.
  - intros [= ->] [= ->] [= ->]. left. f_equal. lia.
  - intros H1 H2 H3. right.
    replace (n + S k)%nat with (S n + k)%nat by lia. now apply IH.
Qed.

Lemma mapR_length {A B} (f : A -> result B) (l : list A) (r : list B) :
  mapR f l = Ok r -> length r = length l.
Proof.
  revert r. induction l as [|a t IH]; intros r; simpl.
  - now intros [= <-].
  - intros H. apply bind_Ok in H as (b & _ & H).
    apply bind_Ok in H as (bs & Hbs & [= <-]). simpl. f_equal. now apply IH.
Qed.

Lemma mapR_nth_error {A B} (f : A -> result B) (l : list A) (r : list B)
      (k : nat) (x : A) :
  mapR f l = Ok r -> nth_error l k = Some x ->
  exists y, nth_error r k = Some y /\ f x = Ok y.
Proof.
  revert r k. induction l as [|a t IH]; intros r k; simpl.
  - destruct k; discriminate.
  - intros H. apply bind_Ok in H as (b & Hb & H).
    apply bind_Ok in H as (bs & Hbs & [= <-]).
    destruct k as [|k]; simpl.
    + intros [= <-]. eauto.
    + intros Hk. now apply (IH _ _ Hbs).
Qed.

Lemma to_dt_length (s : list cell) : length (to_dt s) = length s.
Proof.
  unfold to_dt. destruct (mapR to_datetime_utc s) as [r|] eqn:H1.
  - now apply mapR_length in H1.
  - destruct (mapR to_datetime s) as [r|] eqn:H2.
    + now apply mapR_length in H2.
    + apply length_map.
Qed.

Lemma getitem_nth_error (df : DataFrame) (name : string) (cs : list cell)
      (i k : nat) (row : list cell) :
  getitem df name = Ok cs -> position name (columns df) = Some i ->
  nth_error (rows df) k = Some row ->
  nth_error cs k = Some (nth i row CNull).
Proof.
  unfold getitem. intros H Hi Hk. rewrite Hi in H. injection H as <-.
  now rewrite nth_error_map, Hk.
Qed.

Lemma Qred_inject_Z (z : Z) : Qred (inject_Z z) = inject_Z z.
Proof.
  unfold Qred, inject_Z.
  pose proof (Z.ggcd_correct_divisors z 1) as H.
  pose proof (Z.ggcd_gcd z 1) as G. rewrite Z.gcd_1_r in G.
  destruct (Z.ggcd z 1) as [g [aa bb]]. simpl in G. subst g.
  destruct H as [H1 H2]. rewrite Z.mul_1_l in H1, H2. now subst.
Qed.

Lemma astype_Int64_whole (q : Q) (z : Z) (l : option Z) :
  q == inject_Z z -> astype_Int64 (Some q) = Ok l -> l = Some z.
Proof.
  intros H. unfold astype_Int64. cbv zeta.
  rewrite (Qred_complete _ _ H), Qred_inject_Z. cbn [Qden Qnum inject_Z].
  destruct (int64_range z); cbn [Pos.eqb andb]; [|discriminate].
  now intros [= <-].
Qed.

Lemma coerce_complete (df : DataFrame) (ts_col : string) (base : list BaseRow)
      (v : string) (z : Z) :
  coerce df ID_COL LAP_COL ts_col = Ok base -> parsed_row df v z ->
  exists b, In b base /\ b_id b = v /\ b_lap b = Some z.
Proof.
  unfold coerce. intros H (row & i & j & q & Hrow & Hi & Hj & Hv & Hq & Hqz).
  apply bind_Ok in H as (ids & Hids & H).
  apply bind_Ok in H as (lapc & Hlapc & H).
  apply bind_Ok in H as (laps & Hlaps & H).
  apply bind_Ok in H as (tsc & Htsc & [= <-]).
  apply In_nth_error in Hrow as [k Hk].
  pose proof (getitem_nth_error _ _ _ _ _ _ Hids Hi Hk) as E1.
  pose proof (getitem_nth_error _ _ _ _ _ _ Hlapc Hj Hk) as E2.
  assert (E2' : nth_error (map to_numeric lapc) k = Some (Some q))
    by (now rewrite nth_error_map, E2; simpl; rewrite Hq).
  destruct (mapR_nth_error _ _ _ _ _ Hlaps E2') as (l & El & Hl).
  apply (astype_Int64_whole q z l Hqz) in Hl. subst l.
  assert (Et : exists t, nth_error (to_dt tsc) k = Some t).
  { destruct (nth_error (to_dt tsc) k) as [t|] eqn:E; [eauto|].
    apply nth_error_None in E. rewrite to_dt_length in E.
    assert (Hlen : length tsc = length (rows df)).
    { unfold getitem in Htsc.
      destruct (position ts_col (columns df)); [|discriminate].
      injection Htsc as <-. apply length_map. }
    assert (k < length (rows df))%nat by (apply nth_error_Some; congruence).
    lia. }
  destruct Et as [t Et].
  exists (mkBase (0 + k) v (Some z) t). split; [|auto].
  apply mk_base_complete; [|assumption|assumption].
  now rewrite nth_error_map, E1; simpl; rewrite Hv.
Qed.

(** Every row of a usable sheet whose lap parses to a whole number has
    its (vehicle, lap) pair in the result. *)
Lemma compute_complete (df : DataFrame) (time_cols : list string)
      (res : list LapRow) (v : string) (z : Z) :
  usable df time_cols = true ->
  compute_lap_time_from_timestamps (Some df) ID_COL LAP_COL time_cols = Ok res ->
  parsed_row df v z ->
  exists r, In r res /\ lap_key r = (v, Some z).
Proof.
  intros Hu H Hp. destruct (compute_usable df time_cols Hu) as (ts & _ & E).
  rewrite E in H. apply bind_Ok in H as (base & Hb & [= <-]).
  destruct (coerce_complete _ _ _ _ _ Hb Hp) as (b & Hin & Hv & Hz).
  destruct (groupby_apply_complete _ _ Hin) as (p & Hp' & _ & Hpv & Hpz).
  destruct (drop_duplicates_keeps_key _ _ Hp') as (p' & Hin' & Hk).
  exists (snd p'). split; [unfold reset_index; now apply in_map|].
  unfold pair_key in Hk. rewrite Hk. unfold lap_key. congruence.
Qed.

Lemma merge_sources_keys (el tl : list LapRow) (r : LapRow) :
  In r el \/ In r tl ->
  exists r', In r' (merge_sources el tl) /\ lap_key r' = lap_key r.
Proof.
  unfold merge_sources. destruct tl as [|t tl'].
  - intros [H|[]]. eauto.
  - intros [H|H].
    + unfold merge_outer.
      assert (Hm : exists r', In r' (merge_row (t :: tl') r)
                              /\ lap_key r' = lap_key r).
      { unfold merge_row.
        destruct (filter (same_key r) (t :: tl')) as [|m ms].
        - eexists. split; [now left|reflexivity].
        - eexists. split; [simpl; left; reflexivity|reflexivity]. }
      destruct Hm as (r' & Hr' & Hk). exists r'. split; [|assumption].
      apply in_or_app. left. apply in_flat_map. eauto.
    + exists r. split; [now apply merge_outer_right|reflexivity].
Qed.

End Completeness.

(** X2.  No lap is lost: for every row of the end-log or of the time-log
    sheet (the sheet passing the guards) whose lap parses to a whole
    number, the table returned by [build_laps] has a record of that
    vehicle and lap. *)
Theorem build_laps_complete
  {conv : PandasConv} (wb : workbook) (race : string) (out : list LapRow)
  (df : DataFrame) (v : string) (z : Z) :
  build_laps wb race = Ok out ->
  (read_sheet wb (fst (race_sheets race)) = Some df /\
   usable df TIME_COLS_END = true) \/
  (read_sheet wb (snd (race_sheets race)) = Some df /\
   usable df TIME_COLS_TIME = true) ->
  parsed_row df v z ->
  exists d, In (mkLap v (Some z) d) out.
Proof.
  intros H Hsrc Hp.
  apply build_laps_inv in H as (el & tl & He & Ht & ->).
  assert (Hr : exists r, (In r el \/ In r tl) /\ lap_key r = (v, Some z)).
  { destruct Hsrc as [[Hs Hu]|[Hs Hu]].
    - unfold end_laps_of in He. rewrite Hs in He.
      destruct (compute_complete _ _ _ _ _ Hu He Hp) as (r & Hr & Hk). eauto.
    - unfold time_laps_of in Ht. rewrite Hs in Ht.
      destruct (compute_complete _ _ _ _ _ Hu Ht Hp) as (r & Hr & Hk). eauto. }
  destruct Hr as (r & Hr & Hk).
  destruct (merge_sources_keys el tl r Hr) as (r' & Hr' & Hk').
  exists (lap_time_s r').
  rewrite (lap_row_eta r' v (Some z)) by congruence.
  apply finalize_In. split; [assumption|]. right.
  assert (lap r' = Some z) by (unfold lap_key in *; congruence). congruence.
Qed.

Lemma build_laps_complete_witness :
  exists d, In (mkLap "12" (Some 2%Z) d)
               [mkLap "12" (Some 1%Z) None; mkLap "12" (Some 2%Z) (Some 95)].
Proof.
  apply (build_laps_complete (conv := sheet_conv) wb_both "Race 1" _
           (lap_sheet [[CStr "12"; CInt 1; CTime (sec 0)];
                       [CStr "12"; CInt 2; CTime (sec 90)]]) "12" 2%Z).
  - vm_compute. reflexivity.
  - left. split; vm_compute; reflexivity.
  - exists [CStr "12"; CInt 2; CTime (sec 90)], 0%nat, 1%nat, (inject_Z 2).
    repeat split; try reflexivity. simpl. auto.
Defined.

(** ** Which log a duration comes from *)

(** X3.  The durations computed from the end-log are used only when the
    time-log yields no lap at all.  As soon as the time-log yields one
    lap, every record of the output either is a record of the time-log
    result or belongs to a (vehicle, lap) pair that only the end-log has,
    and then its duration is absent, whatever the end-log computed. *)
Theorem build_laps_duration_source
  {conv : PandasConv} (wb : workbook) (race : string) (el tl : list LapRow) :
  end_laps_of wb race = Ok el ->
  time_laps_of wb race = Ok tl ->
  exists out,
    build_laps wb race = Ok out /\
    forall r, In r out ->
      match tl with
      | [] => In r el
      | _ :: _ =>
          In r tl \/
          (lap_time_s r = None /\
           (exists l, In l el /\ lap_key l = lap_key r) /\
           forall t, In t tl -> lap_key t <> lap_key r)
      end.
Proof.
  intros He Ht. exists (finalize (merge_sources el tl)).
  split; [unfold build_laps; rewrite He, Ht; reflexivity|].
  intros r Hr. apply finalize_In in Hr as [Hr _].
  unfold merge_sources in Hr. destruct tl as [|t tl']; [assumption|].
  apply merge_outer_inv in Hr as [Hr|(l & Hl & -> & Hno)]; [now left|].
  right. split; [reflexivity|]. split; [exists l; auto|]. exact Hno.
Qed.

Lemma build_laps_duration_source_witness :
  exists out,
    build_laps (conv := sheet_conv) wb_end_only_lap "Race 1" = Ok out /\
    forall r, In r out ->
      In r [mkLap "12" (Some 2%Z) None] \/
      (lap_time_s r = None /\
       (exists l, In l [mkLap "12" (Some 1%Z) None; mkLap "12" (Some 2%Z) (Some 90)]
                  /\ lap_key l = lap_key r) /\
       forall t, In t [mkLap "12" (Some 2%Z) None] -> lap_key t <> lap_key r).
Proof.
  apply (build_laps_duration_source (conv := sheet_conv) wb_end_only_lap "Race 1"
           [mkLap "12" (Some 1%Z) None; mkLap "12" (Some 2%Z) (Some 90)]
           [mkLap "12" (Some 2%Z) None]); vm_compute; reflexivity.
Defined.

Section RollingWindow.
Variable w : nat.
Hypothesis w_ge : (3 <= w)%nat.

Lemma nth_roll_at (s : list (option Q)) (i : nat) :
  nth i (map (roll_at w 3 s) (seq 0 (length s))) None
  = if Nat.ltb i (length s) then roll_at w 3 s i else None.
Proof.
  destruct (Nat.ltb_spec i (length s)) as [Hlt|Hge].
  - apply nth_error_nth. rewrite nth_error_map, nth_error_seq0 by assumption.
    reflexivity.
  - apply nth_overflow. now rewrite length_map, length_seq.
Qed.

Lemma roll_at_first_two (s : list (option Q)) (i : nat) :
  (i < 2)%nat -> roll_at w 3 s i = None.
Proof.
  intros Hi. unfold roll_at. cbv zeta.
  assert (Hlen : (length (present (window_at w i s)) <= 2)%nat).
  { etransitivity; [apply present_length_le|].
    unfold window_at. rewrite length_map, length_seq. lia. }
  destruct (Nat.leb_spec 3 (length (present (window_at w i s)))); [lia|].
  reflexivity.
Qed.

Lemma roll_at_nonneg (x med : list (option Q)) (i : nat) (v : Q) :
  roll_at w 3 (abs_deviation x med) i = Some v -> 0 <= v.
Proof.
  unfold roll_at. cbv zeta. destruct (Nat.leb 3 _); [|discriminate].
  intros H. apply some_eq in H. rewrite <- H.
  apply median_nonneg. intros q Hq.
  apply window_In in Hq as (j & Hj). eapply abs_deviation_nonneg; eauto.
Qed.

(** A series absent at its first two positions has fewer than three
    observations in any window that ends before the fifth position. *)
Lemma roll_at_first_four (d : list (option Q)) (i : nat) :
  nth 0 d None = None -> nth 1 d None = None -> (i < 4)%nat ->
  roll_at w 3 d i = None.
Proof.
  intros E0 E1 Hi. unfold roll_at. cbv zeta.
  assert (Hlen : (length (present (window_at w i d)) <= 2)%nat).
  { unfold window_at.
    assert (Hc : (i <= 2 \/ i = 3 /\ w = 3 \/ i = 3 /\ 4 <= w)%nat) by lia.
    destruct Hc as [Hc|[[-> ->]|[-> Hc]]].
    - replace (S i - w)%nat with 0%nat by lia.
      replace (Nat.min w (S i)) with (S i) by lia.
      assert (Hi' : (i = 0 \/ i = 1 \/ i = 2)%nat) by lia.
      destruct Hi' as [-> | [-> | ->]]; cbn [seq map];
        rewrite ?E0, ?E1; cbn [present flat_map app].
      + simpl. lia.
      + simpl. lia.
      + destruct (nth 2 d None); simpl; lia.
    - cbn [Nat.sub Nat.min seq map]. rewrite E1. cbn [present flat_map app].
      destruct (nth 2 d None), (nth 3 d None); simpl; lia.
    - replace (4 - w)%nat with 0%nat by lia.
      replace (Nat.min w 4) with 4%nat by lia.
      cbn [seq map]. rewrite E0, E1. cbn [present flat_map app].
      destruct (nth 2 d None), (nth 3 d None); simpl; lia. }
  destruct (Nat.leb_spec 3 (length (present (window_at w i d)))); [lia|].
  reflexivity.
Qed.

(** The last three positions of a window, when present, are enough. *)
Lemma window_last_three (s : list (option Q)) (i : nat) :
  (2 <= i)%nat ->
  (forall j, (i - 2 <= j <= i)%nat -> exists q, nth j s None = Some q) ->
  (3 <= length (present (window_at w i s)))%nat.
Proof.
  intros Hi Hs. unfold window_at.
  replace (Nat.min w (S i)) with ((Nat.min w (S i) - 3) + 3)%nat by lia.
  rewrite seq_app, map_app, present_app, length_app.
  replace (S i - w + (Nat.min w (S i) - 3))%nat with (i - 2)%nat by lia.
  cbn [seq map].
  destruct (Hs (i - 2)%nat) as [q0 ->]; [lia|].
  destruct (Hs (S (i - 2))) as [q1 ->]; [lia|].
  destruct (Hs (S (S (i - 2)))) as [q2 ->]; [lia|].
  simpl. lia.
Qed.

Lemma roll_at_last_three (s : list (option Q)) (i : nat) :
  (2 <= i)%nat ->
  (forall j, (i - 2 <= j <= i)%nat -> exists q, nth j s None = Some q) ->
  roll_at w 3 s i = Some (median (present (window_at w i s))).
Proof.
  intros Hi Hs. unfold roll_at. cbv zeta.
  pose proof (window_last_three s i Hi Hs) as Hlen.
  apply Nat.leb_le in Hlen. now rewrite Hlen.
Qed.

Variable x : list (option Q).

Lemma dev_w_length : length (dev_w w x) = length x.
Proof.
  unfold dev_w. apply abs_deviation_length.
  unfold med_w. now rewrite length_map, length_seq.
Qed.

Lemma out_w_length : length (out_w w x) = length x.
Proof. unfold out_w. now rewrite !length_map, length_seq, dev_w_length. Qed.

Lemma out_w_nth_error (i : nat) :
  (i < length x)%nat ->
  nth_error (out_w w x) i
  = Some (option_map (Qmult (14826 # 10000)) (roll_at w 3 (dev_w w x) i)).
Proof.
  intros Hi. unfold out_w.
  rewrite !nth_error_map, nth_error_seq0 by (rewrite dev_w_length; assumption).
  reflexivity.
Qed.

Lemma dev_w_first_two (i : nat) : (i < 2)%nat -> nth i (dev_w w x) None = None.
Proof.
  intros Hi. unfold dev_w. rewrite abs_deviation_nth.
  unfold med_w. rewrite nth_roll_at.
  destruct (Nat.ltb i (length x)).
  - rewrite roll_at_first_two by assumption. now destruct (nth i x None).
  - now destruct (nth i x None).
Qed.

Lemma out_w_first_four (i : nat) :
  (i < 4)%nat -> (i < length x)%nat -> nth_error (out_w w x) i = Some None.
Proof.
  intros Hi Hlt. rewrite out_w_nth_error by assumption.
  rewrite roll_at_first_four; [reflexivity| | |assumption];
    apply dev_w_first_two; lia.
Qed.

Lemma out_w_nonneg (i : nat) (v : Q) :
  nth_error (out_w w x) i = Some (Some v) -> 0 <= v.
Proof.
  intros H.
  assert (Hi : (i < length x)%nat).
  { rewrite <- out_w_length. apply nth_error_Some. congruence. }
  rewrite out_w_nth_error in H by assumption. apply some_eq in H.
  destruct (roll_at w 3 (dev_w w x) i) as [m|] eqn:Hm; [|discriminate].
  simpl in H. apply some_eq in H. rewrite <- H.
  apply Qmult_le_0_compat; [discriminate|].
  unfold dev_w in Hm. eapply roll_at_nonneg; eauto.
Qed.

Hypothesis x_all : forall o, In o x -> o <> None.

Lemma x_nth_present (j : nat) :
  (j < length x)%nat -> exists q, nth j x None = Some q.
Proof.
  intros Hj. pose proof (nth_In x None Hj) as Hin.
  destruct (nth j x None) as [q|] eqn:E; [eauto|].
  exfalso. now apply (x_all None).
Qed.

Lemma med_w_nth (j : nat) :
  (2 <= j)%nat -> (j < length x)%nat ->
  nth j (med_w w x) None = Some (median (present (window_at w j x))).
Proof.
  intros H2 Hj. unfold med_w. rewrite nth_roll_at.
  apply Nat.ltb_lt in Hj as Hj'. rewrite Hj'.
  apply roll_at_last_three; [assumption|].
  intros k Hk. apply x_nth_present. lia.
Qed.

Lemma dev_w_nth (j : nat) :
  (2 <= j)%nat -> (j < length x)%nat ->
  exists a, nth j x None = Some a /\
            nth j (dev_w w x) None
            = Some (Qabs (a - median (present (window_at w j x)))).
Proof.
  intros H2 Hj. unfold dev_w. rewrite abs_deviation_nth.
  destruct (x_nth_present j Hj) as [a Ha]. rewrite Ha, med_w_nth by assumption.
  eauto.
Qed.

Lemma out_w_from_fifth (i : nat) :
  (4 <= i)%nat -> (i < length x)%nat ->
  nth_error (out_w w x) i
  = Some (Some ((14826 # 10000)
                * median (present (window_at w i (dev_w w x))))).
Proof.
  intros H4 Hi. rewrite out_w_nth_error by assumption.
  rewrite roll_at_last_three; [reflexivity|lia|].
  intros j Hj. destruct (dev_w_nth j) as (a & _ & ->); [lia|lia|eauto].
Qed.

End RollingWindow.

Lemma rolling_consistency_out_w (x : list (option Q)) (window : Z) :
  (3 <= window)%Z ->
  rolling_consistency x window = Ok (out_w (Z.to_nat window) x).
Proof.
  intros H. unfold rolling_consistency, rolling_median.
  destruct (Z.ltb_spec window 0); [lia|].
  destruct (Z.ltb_spec window (Z.of_nat 3)); [lia|].
  reflexivity.
Qed.

Lemma rolling_consistency_short_window (x : list (option Q)) (window : Z) :
  (window < 3)%Z -> rolling_consistency x window = Raise ValueError.
Proof.
  intros H. unfold rolling_consistency, rolling_median.
  destruct (Z.ltb_spec window 0); [reflexivity|].
  destruct (Z.ltb_spec window (Z.of_nat 3)); [reflexivity|lia].
Qed.

(** X4.  [rolling_consistency] rejects a window shorter than the three
    observations it requires (a [ValueError], as for a negative window).
    For every window of at least 3 (what the strategy tab passes is at
    least 6) it returns a series as long as its input, absent at the
    first four positions, in which no value is negative, and which holds
    a value at every later position when no entry of the input is
    absent. *)
Theorem rolling_consistency_any_window (x : list (option Q)) (window : Z) :
  if (window <? 3)%Z
  then rolling_consistency x window = Raise ValueError
  else exists out,
      rolling_consistency x window = Ok out /\
      length out = length x /\
      (forall i, (i < 4)%nat -> (i < length x)%nat ->
                 nth_error out i = Some None) /\
      (forall i v, nth_error out i = Some (Some v) -> 0 <= v) /\
      ((forall o, In o x -> o <> None) ->
       forall i, (4 <= i)%nat -> (i < length x)%nat ->
                 exists v, nth_error out i = Some (Some v)).
Proof.
  destruct (Z.ltb_spec window 3) as [Hlt|Hge].
  - now apply rolling_consistency_short_window.
  - assert (Hw : (3 <= Z.to_nat window)%nat) by lia.
    exists (out_w (Z.to_nat window) x).
    split; [now apply rolling_consistency_out_w|].
    split; [apply out_w_length|].
    split; [now apply out_w_first_four|].
    split; [apply out_w_nonneg|].
    intros Hx i H4 Hi. eexists. now apply out_w_from_fifth.
Qed.

(** ** A constant series *)

Lemma isort_repeat (q : Q) (n : nat) :
  isort Qle_bool (repeat q n) = repeat q n.
Proof.
  induction n as [|n IH]; [reflexivity|].
  simpl. rewrite IH. destruct n as [|n]; [reflexivity|].
  simpl. assert (E : Qle_bool q q = true) by (apply Qle_bool_iff, Qle_refl).
  now rewrite E.
Qed.

(** The median of values that all equal [c] is [c]. *)
Lemma median_all_eq (l : list Q) (c : Q) :
  l <> [] -> (forall v, In v l -> v == c) -> median l == c.
Proof.
  intros Hne Hall.
  assert (Hlen : (0 < length (isort Qle_bool l))%nat).
  { rewrite (Permutation_length (isort_perm Qle_bool l)).
    destruct l; [congruence|simpl; lia]. }
  assert (Hn : forall k, (k < length (isort Qle_bool l))%nat ->
                         nth k (isort Qle_bool l) 0 == c).
  { intros k Hk. apply Hall. apply (isort_In Qle_bool). now apply nth_In. }
  unfold median. cbv zeta.
  set (s := isort Qle_bool l) in *.
  assert (H2 : (length s / 2 < length s)%nat)
    by (apply Nat.div_lt; lia).
  destruct (Nat.even (length s)).
  - rewrite (Hn (length s / 2 - 1)%nat) by lia.
    rewrite (Hn (length s / 2)%nat) by assumption. field.
  - now apply Hn.
Qed.

Section Constant.
Variables (w : nat) (q : Q) (n : nat).
Hypothesis w_ge : (3 <= w)%nat.

Variable x : list (option Q).
Hypothesis x_const : x = repeat (Some q) n.

Lemma const_all : forall o, In o x -> o <> None.
Proof. intros o Ho. rewrite x_const in Ho. apply repeat_spec in Ho. congruence. Qed.

Lemma const_length : length x = n.
Proof. rewrite x_const. apply repeat_length. Qed.

Lemma const_nth (j : nat) : (j < n)%nat -> nth j x None = Some q.
Proof.
  intros Hj. apply nth_error_nth. rewrite x_const. now apply nth_error_repeat.
Qed.

Lemma const_window_median (j : nat) :
  (2 <= j)%nat -> (j < n)%nat ->
  median (present (window_at w j x)) == q.
Proof.
  intros H2 Hj. apply median_all_eq.
  - assert (H : (3 <= length (present (window_at w j x)))%nat).
    { apply window_last_three; [assumption|assumption|].
      intros k Hk. exists q. apply const_nth. lia. }
    destruct (present (window_at w j x)); [simpl in H; lia|discriminate].
  - intros v Hv. apply window_In in Hv as (k & Hk).
    destruct (Nat.lt_ge_cases k n) as [Hlt|Hge].
    + rewrite const_nth in Hk by assumption. now injection Hk as <-.
    + rewrite nth_overflow in Hk; [discriminate|].
      now rewrite const_length.
Qed.

Lemma const_dev (j : nat) (d : Q) :
  nth j (dev_w w x) None = Some d -> d == 0.
Proof.
  intros H.
  destruct (Nat.lt_ge_cases j 2) as [Hlt|Hge].
  { rewrite dev_w_first_two in H by assumption. discriminate. }
  destruct (Nat.lt_ge_cases j n) as [Hj|Hj].
  - destruct (dev_w_nth w w_ge x const_all j) as (a & Ha & Hd);
      [assumption|now rewrite const_length|].
    rewrite const_nth in Ha by assumption. injection Ha as <-.
    rewrite Hd in H. apply some_eq in H. rewrite <- H.
    pose proof (const_window_median j Hge Hj) as E.
    rewrite E. assert (Z0 : q - q == 0) by ring. rewrite Z0. reflexivity.
  - rewrite nth_overflow in H; [discriminate|].
    rewrite dev_w_length. now rewrite const_length.
Qed.

Lemma const_out (i : nat) :
  (4 <= i)%nat -> (i < n)%nat ->
  exists v, nth_error (out_w w x) i = Some (Some v) /\ v == 0.
Proof.
  intros H4 Hi.
  assert (Hlen : (i < length x)%nat) by (now rewrite const_length).
  eexists. split; [apply (out_w_from_fifth w w_ge x const_all i H4 Hlen)|].
  assert (Hm : median (present (window_at w i (dev_w w x))) == 0).
  { apply median_all_eq.
    - assert (H : (3 <= length (present (window_at w i (dev_w w x))))%nat).
      { apply window_last_three; [assumption|lia|].
        intros j Hj.
        destruct (dev_w_nth w w_ge x const_all j) as (a & _ & ->);
          [lia|lia|eauto]. }
      destruct (present (window_at w i (dev_w w x)));
        [simpl in H; lia|discriminate].
    - intros v Hv. apply window_In in Hv as (k & Hk).
      now apply const_dev in Hk. }
  rewrite Hm. ring.
Qed.

End Constant.

(** X5.  Perfectly even lap times score zero: on a series that repeats
    one lap time, [rolling_consistency] (any window of at least 3) gives
    0 at every position from the fifth on. *)
Theorem rolling_consistency_constant_series
  (q : Q) (n : nat) (window : Z) (i : nat) :
  (3 <= window)%Z -> (4 <= i)%nat -> (i < n)%nat ->
  exists out v,
    rolling_consistency (repeat (Some q) n) window = Ok out /\
    nth_error out i = Some (Some v) /\ v == 0.
Proof.
  intros Hw H4 Hi.
  assert (Hw' : (3 <= Z.to_nat window)%nat) by lia.
  destruct (const_out (Z.to_nat window) q n Hw' _ eq_refl i H4 Hi)
    as (v & Hv & Hz).
  exists (out_w (Z.to_nat window) (repeat (Some q) n)), v.
  split; [now apply rolling_consistency_out_w|]. auto.
Qed.

Lemma rolling_consistency_constant_series_witness :
  exists out v,
    rolling_consistency (repeat (Some (903 # 10)) 6) 6 = Ok out /\
    nth_error out 5 = Some (Some v) /\ v == 0.
Proof.
  apply (rolling_consistency_constant_series (903 # 10) 6 6 5); lia.
Defined.

Lemma total_seconds_delta (p c : Z) :
  total_seconds (delta (Some p) (Some c)) = Some (Qred ((c - p) # 1000000000)).
Proof. reflexivity. Qed.

Lemma diff_from_sum (p : Z) (t : list BaseRow) :
  (forall b, In b t -> b_ts b <> None) ->
  exists e, b_ts (last t (mkBase 0 "" None (Some p))) = Some e /\
            series_sum (map (fun r => lap_time_s (snd r)) (diff_from (Some p) t))
            == (e - p) # 1000000000.
Proof.
  revert p. induction t as [|r t IH]; intros p Hall.
  - exists p. split; [reflexivity|]. unfold series_sum. simpl.
    replace (p - p)%Z with 0%Z by lia. reflexivity.
  - destruct (b_ts r) as [c|] eqn:Hc; [|exfalso; apply (Hall r); simpl; auto].
    destruct (IH c) as (e & He & Hs); [intros b Hb; apply Hall; now right|].
    exists e. split.
    + destruct t as [|r' t']; [simpl in *; congruence|].
      change (last (r :: r' :: t') (mkBase 0 "" None (Some p)))
        with (last (r' :: t') (mkBase 0 "" None (Some p))).
      rewrite <- He. clear. revert r'.
      induction t' as [|a t' IH']; intros r'; [reflexivity|].
      change (last (r' :: a :: t') ?d) with (last (a :: t') d). apply IH'.
    + cbn [diff_from map snd lap_time_s]. rewrite Hc, total_seconds_delta.
      unfold series_sum in *. cbn [present flat_map app fold_right].
      fold (present (map (fun r0 => lap_time_s (snd r0)) (diff_from (Some c) t))).
      rewrite Hs, Qred_correct. unfold Qeq, Qplus. simpl. lia.
Qed.

(** X6.  Telescoping: when every row of a vehicle has a timestamp, the
    durations computed for the vehicle add up (in exact arithmetic) to the
    time between the first and the last of its rows in (lap, timestamp)
    order. *)
Theorem per_id_durations_telescope
  (g rest : list BaseRow) (first : BaseRow) (t0 t1 : Z) :
  (forall b, In b g -> b_ts b <> None) ->
  sort_values g = first :: rest ->
  b_ts first = Some t0 ->
  b_ts (last rest first) = Some t1 ->
  series_sum (map (fun p => lap_time_s (snd p)) (per_id g))
  == (t1 - t0) # 1000000000.
Proof.
  intros Hall Hs H0 H1.
  assert (Hrest : forall b, In b rest -> b_ts b <> None).
  { intros b Hb. apply Hall. apply (isort_In row_leb). fold (sort_values g).
    rewrite Hs. now right. }
  unfold per_id, diff. rewrite Hs, H0.
  cbn [map snd lap_time_s]. unfold series_sum. cbn [present flat_map app].
  destruct (diff_from_sum t0 rest Hrest) as (e & He & Hsum).
  fold (present (map (fun p => lap_time_s (snd p)) (diff_from (Some t0) rest))).
  unfold series_sum in Hsum. rewrite Hsum.
  assert (e = t1); [|subst; reflexivity].
  destruct rest as [|r rest']; [simpl in *; congruence|].
  assert (L : forall d d', last (r :: rest') d = last (r :: rest') d').
  { clear. revert r. induction rest' as [|a t IH]; intros r d d'; [reflexivity|].
    change (last (r :: a :: t) ?x) with (last (a :: t) x). apply IH. }
  rewrite (L _ first) in He. congruence.
Qed.

Lemma per_id_durations_telescope_witness :
  series_sum (map (fun p => lap_time_s (snd p))
                  (per_id [mkBase 0 "12" (Some 2%Z) (Some (sec 90));
                           mkBase 1 "12" (Some 1%Z) (Some (sec 0));
                           mkBase 2 "12" (Some 3%Z) (Some (sec 181))]))
  == (sec 181 - sec 0) # 1000000000.
Proof.
  apply (per_id_durations_telescope _
           [mkBase 0 "12" (Some 2%Z) (Some (sec 90));
            mkBase 2 "12" (Some 3%Z) (Some (sec 181))]
           (mkBase 1 "12" (Some 1%Z) (Some (sec 0)))).
  - intros b [<-|[<-|[<-|[]]]]; discriminate.
  - vm_compute. reflexivity.
  - reflexivity.
  - reflexivity.
Defined.

(** ** Orders on keys *)

Section Comparison.
Context {A : Type} (cmp : A -> A -> comparison).
Hypothesis cmp_antisym : forall a b, cmp b a = CompOpp (cmp a b).
Hypothesis cmp_lt_trans :
  forall a b c, cmp a b = Lt -> cmp b c = Lt -> cmp a c = Lt.
Hypothesis cmp_eq_l : forall a b c, cmp a b = Eq -> cmp a c = cmp b c.

Lemma cmp_eq_r (a b c : A) : cmp a b = Eq -> cmp c a = cmp c b.
Proof.
  intros H. rewrite (cmp_antisym a c), (cmp_antisym b c).
  f_equal. now apply cmp_eq_l.
Qed.

Lemma is_le_total (a b : A) :
  is_le (cmp a b) = true \/ is_le (cmp b a) = true.
Proof.
  rewrite (cmp_antisym a b). destruct (cmp a b); simpl; auto.
Qed.

Lemma is_le_trans (a b c : A) :
  is_le (cmp a b) = true -> is_le (cmp b c) = true -> is_le (cmp a c) = true.
Proof.
  destruct (cmp a b) eqn:E1; [|destruct (cmp b c) eqn:E2|discriminate].
  - now rewrite (cmp_eq_l a b c E1).
  - now rewrite <- (cmp_eq_r b c a E2), E1.
  - now rewrite (cmp_lt_trans a b c E1 E2).
  - discriminate.
Qed.

End Comparison.

Section LexComparison.
Context {A B : Type} (ca : A -> A -> comparison) (cb : B -> B -> comparison).
Hypothesis ca_antisym : forall a b, ca b a = CompOpp (ca a b).
Hypothesis ca_lt_trans : forall a b c, ca a b = Lt -> ca b c = Lt -> ca a c = Lt.
Hypothesis ca_eq_l : forall a b c, ca a b = Eq -> ca a c = ca b c.
Hypothesis cb_antisym : forall a b, cb b a = CompOpp (cb a b).
Hypothesis cb_lt_trans : forall a b c, cb a b = Lt -> cb b c = Lt -> cb a c = Lt.
Hypothesis cb_eq_l : forall a b c, cb a b = Eq -> cb a c = cb b c.

Lemma lex_antisym (x y : A * B) :
  lex (ca (fst y) (fst x)) (cb (snd y) (snd x))
  = CompOpp (lex (ca (fst x) (fst y)) (cb (snd x) (snd y))).
Proof.
  rewrite (ca_antisym (fst x) (fst y)), (cb_antisym (snd x) (snd y)).
  now destruct (ca (fst x) (fst y)).
Qed.

Lemma lex_lt_trans (x y z : A * B) :
  lex (ca (fst x) (fst y)) (cb (snd x) (snd y)) = Lt ->
  lex (ca (fst y) (fst z)) (cb (snd y) (snd z)) = Lt ->
  lex (ca (fst x) (fst z)) (cb (snd x) (snd z)) = Lt.
Proof.
  destruct (ca (fst x) (fst y)) eqn:E1; simpl; [| |discriminate];
    destruct (ca (fst y) (fst z)) eqn:E2; simpl; try discriminate.
  - rewrite (ca_eq_l _ _ _ E1), E2. simpl. apply cb_lt_trans.
  - intros _ _. now rewrite (ca_eq_l _ _ _ E1), E2.
  - intros _ _. now rewrite <- (cmp_eq_r ca ca_antisym ca_eq_l _ _ _ E2), E1.
  - intros _ _. now rewrite (ca_lt_trans _ _ _ E1 E2).
Qed.

Lemma lex_eq_l (x y z : A * B) :
  lex (ca (fst x) (fst y)) (cb (snd x) (snd y)) = Eq ->
  lex (ca (fst x) (fst z)) (cb (snd x) (snd z))
  = lex (ca (fst y) (fst z)) (cb (snd y) (snd z)).
Proof.
  destruct (ca (fst x) (fst y)) eqn:E1; simpl; try discriminate.
  intros E2. now rewrite (ca_eq_l _ _ _ E1), (cb_eq_l _ _ _ E2).
Qed.

End LexComparison.

Lemma string_compare_eq_l (a b c : string) :
  String.compare a b = Eq -> String.compare a c = String.compare b c.
Proof. intros H. apply String.compare_eq_iff in H. now subst. Qed.

Lemma cell_compare_antisym (a b : cell) :
  cell_compare b a = CompOpp (cell_compare a b).
Proof.
  unfold cell_compare.
  destruct (cell_view a), (cell_view b); simpl; try reflexivity.
  - symmetry. apply Qcompare_antisym.
  - apply Z.compare_antisym.
  - apply String.compare_antisym.
Qed.

Lemma cell_compare_lt_trans (a b c : cell) :
  cell_compare a b = Lt -> cell_compare b c = Lt -> cell_compare a c = Lt.
Proof.
  unfold cell_compare.
  destruct (cell_view a), (cell_view b), (cell_view c); simpl;
    try discriminate; try reflexivity.
  - rewrite <- !Qlt_alt. apply Qlt_trans.
  - rewrite !Z.compare_lt_iff. lia.
  - apply string_compare_lt_trans.
Qed.

Lemma cell_compare_eq_l (a b c : cell) :
  cell_compare a b = Eq -> cell_compare a c = cell_compare b c.
Proof.
  unfold cell_compare.
  destruct (cell_view a), (cell_view b), (cell_view c); simpl;
    try discriminate; try reflexivity.
  - intros H. apply Qeq_alt in H. now rewrite H.
  - intros H. apply Z.compare_eq in H. now subst.
  - apply string_compare_eq_l.
Qed.

Lemma cell_leb_total (a b : cell) : cell_leb a b = true \/ cell_leb b a = true.
Proof. apply (is_le_total cell_compare cell_compare_antisym). Qed.

Lemma cell_leb_trans (a b c : cell) :
  cell_leb a b = true -> cell_leb b c = true -> cell_leb a c = true.
Proof.
  apply (is_le_trans cell_compare cell_compare_antisym cell_compare_lt_trans
           cell_compare_eq_l).
Qed.

Ltac cell_order :=
  solve [apply cell_compare_antisym | apply cell_compare_lt_trans
        | apply cell_compare_eq_l].

Lemma key2_leb_total (a b : key2) : key2_leb a b = true \/ key2_leb b a = true.
Proof.
  apply (is_le_total
           (fun x y : key2 => lex (cell_compare (fst x) (fst y))
                                  (cell_compare (snd x) (snd y)))).
  intros x y. apply (lex_antisym cell_compare cell_compare); cell_order.
Qed.

Lemma key2_leb_trans (a b c : key2) :
  key2_leb a b = true -> key2_leb b c = true -> key2_leb a c = true.
Proof.
  apply (is_le_trans
           (fun x y : key2 => lex (cell_compare (fst x) (fst y))
                                  (cell_compare (snd x) (snd y)))).
  - intros x y. apply (lex_antisym cell_compare cell_compare); cell_order.
  - intros x y z. apply (lex_lt_trans cell_compare cell_compare); cell_order.
  - intros x y z. apply (lex_eq_l cell_compare cell_compare); cell_order.
Qed.

(** ** Distinct and ascending lists *)

Section Distinct.
Context {A : Type} (eqb leb : A -> A -> bool).
Hypothesis eqb_sym : forall a b, eqb a b = eqb b a.

Lemma distinct_filter (p : A -> bool) (l : list A) :
  distinct_by eqb l -> distinct_by eqb (filter p l).
Proof.
  unfold distinct_by. induction 1 as [|a l Ha Hl IH]; simpl; [constructor|].
  destruct (p a); [|assumption]. constructor; [|assumption].
  apply Forall_forall. intros b Hb. apply filter_In in Hb as [Hb _].
  rewrite Forall_forall in Ha. now apply Ha.
Qed.

Lemma unique_by_distinct (l : list A) : distinct_by eqb (unique_by eqb l).
Proof.
  induction l as [|a t IH]; simpl; [constructor|].
  constructor.
  - apply Forall_forall. intros b Hb. apply filter_In in Hb as [_ Hb].
    now apply negb_true_iff in Hb.
  - now apply distinct_filter.
Qed.

Lemma place_distinct (x : A) (l : list A) :
  Forall (fun y => eqb x y = false) l -> distinct_by eqb l ->
  distinct_by eqb (place leb x l).
Proof.
  unfold distinct_by. intros Hx Hl. revert Hx.
  induction Hl as [|a l Ha Hl IH]; intros Hx; simpl.
  - constructor; constructor.
  - destruct (leb x a).
    + constructor; [assumption|]. now constructor.
    + inversion Hx as [|? ? Hxa Hxl]; subst.
      constructor; [|now apply IH].
      apply Forall_forall. intros b Hb.
      apply (Permutation_in _ (insert_perm leb x l)) in Hb.
      destruct Hb as [<-|Hb]; [now rewrite eqb_sym|].
      rewrite Forall_forall in Ha. now apply Ha.
Qed.

Lemma isort_distinct (l : list A) :
  distinct_by eqb l -> distinct_by eqb (isort leb l).
Proof.
  unfold distinct_by. induction 1 as [|a l Ha Hl IH]; simpl; [constructor|].
  apply place_distinct; [|assumption].
  apply Forall_forall. intros b Hb. apply isort_In in Hb.
  rewrite Forall_forall in Ha. now apply Ha.
Qed.

End Distinct.

(** ** The shape of the wide table *)

Lemma groupby_agg_keyed (l : list Sample) (a : Sample) :
  In a (groupby_agg l) -> null_key a = false.
Proof.
  unfold groupby_agg. intros H. apply in_map_iff in H as (k & <- & Hk).
  apply isort_In, unique_by_incl in Hk.
  apply in_map_iff in Hk as (s & <- & Hs). apply filter_In in Hs as [_ Hs].
  apply negb_true_iff in Hs. exact Hs.
Qed.

Lemma null_key_parts (a : Sample) :
  null_key a = false ->
  isnull (s_id a) = false /\ isnull (s_lap a) = false /\ isnull (s_name a) = false.
Proof.
  unfold null_key. intros H. apply orb_false_iff in H as [H H3].
  apply orb_false_iff in H as [H1 H2]. auto.
Qed.

Section WideShape.
Variable final : list Sample.

Lemma pivot_agged_keyed (a : Sample) :
  In a (pivot_agged final) -> null_key a = false.
Proof.
  unfold pivot_agged. intros H. apply filter_In in H as [H _].
  now apply groupby_agg_keyed in H.
Qed.

Lemma pivot_names_present (n : cell) :
  In n (pivot_names final) -> isnull n = false.
Proof.
  unfold pivot_names. rewrite isort_In. intros H%unique_by_incl.
  apply in_map_iff in H as (a & <- & Ha).
  now apply pivot_agged_keyed, null_key_parts in Ha.
Qed.

Lemma pivot_index_present (ik : key2) :
  In ik (pivot_index final) ->
  isnull (fst ik) = false /\ isnull (snd ik) = false.
Proof.
  unfold pivot_index. rewrite isort_In. intros H%unique_by_incl.
  apply in_map_iff in H as (a & <- & Ha).
  apply pivot_agged_keyed, null_key_parts in Ha. simpl. tauto.
Qed.

Lemma wide_row_keys : map row_key (rows (wide_of final)) = pivot_index final.
Proof.
  unfold wide_of. cbn [rows]. rewrite map_map.
  rewrite <- (map_id (pivot_index final)) at 2.
  apply map_ext. now intros [i l].
Qed.

Lemma wide_rows_aligned :
  Forall (fun row => length row = length (columns (wide_of final)))
         (rows (wide_of final)).
Proof.
  apply Forall_forall. intros row Hrow. unfold wide_of in *. cbn [rows columns] in *.
  apply in_map_iff in Hrow as (ik & <- & _). simpl. now rewrite length_map.
Qed.

End WideShape.

(** X10.  The table the aggregator writes is well formed.  Its columns
    are the two key columns followed by the channels, which are present,
    pairwise different, in ascending order, and none of which bears the
    label of a key column; every row has one cell per column; the
    (vehicle, lap) keys of the rows are present, pairwise different and in
    ascending order. *)
Theorem aggregate_chunks_wide_shape
  {conv : PandasConv} (chunks : list DataFrame) (wide : DataFrame) :
  aggregate_chunks chunks = Ok wide ->
  exists names,
    columns wide = CStr ID_COL :: CStr LAP_COL :: names /\
    Forall (fun n => isnull n = false /\ is_label ID_COL n = false /\
                     is_label LAP_COL n = false) names /\
    distinct_by cell_eqb names /\ ascending cell_leb names /\
    Forall (fun row => length row = length (columns wide)) (rows wide) /\
    Forall (fun k => isnull (fst k) = false /\ isnull (snd k) = false)
           (map row_key (rows wide)) /\
    distinct_by key2_eqb (map row_key (rows wide)) /\
    ascending key2_leb (map row_key (rows wide)).
Proof.
  unfold aggregate_chunks. intros H.
  apply bind_Ok in H as (aggs & _ & H).
  apply bind_Ok in H as (combined & _ & H).
  set (final := groupby_agg combined) in *.
  unfold pivot_table_reset in H.
  destruct (existsb (is_label ID_COL) (pivot_names final)) eqn:E1;
    [discriminate|].
  destruct (existsb (is_label LAP_COL) (pivot_names final)) eqn:E2;
    [discriminate|].
  injection H as <-. exists (pivot_names final).
  split; [reflexivity|]. split.
  { apply Forall_forall. intros n Hn.
    split; [now apply (pivot_names_present final)|].
    split.
    - destruct (is_label ID_COL n) eqn:E; [|reflexivity].
      assert (existsb (is_label ID_COL) (pivot_names final) = true)
        by (apply existsb_exists; eauto).
      congruence.
    - destruct (is_label LAP_COL n) eqn:E; [|reflexivity].
      assert (existsb (is_label LAP_COL) (pivot_names final) = true)
        by (apply existsb_exists; eauto).
      congruence. }
  split.
  { unfold pivot_names. apply isort_distinct; [apply cell_eqb_sym|].
    apply unique_by_distinct. }
  split.
  { unfold ascending, pivot_names.
    apply isort_sorted; [apply cell_leb_total|apply cell_leb_trans]. }
  split; [apply wide_rows_aligned|].
  rewrite wide_row_keys. split.
  { apply Forall_forall. intros k Hk.
    now apply (pivot_index_present final) in Hk. }
  split.
  - unfold pivot_index. apply isort_distinct; [apply key2_eqb_sym|].
    apply unique_by_distinct.
  - unfold ascending, pivot_index.
    apply isort_sorted; [apply key2_leb_total|apply key2_leb_trans].
Qed.

Lemma aggregate_chunks_wide_shape_witness :
  exists names,
    columns wide_aps = CStr ID_COL :: CStr LAP_COL :: names /\
    Forall (fun n => isnull n = false /\ is_label ID_COL n = false /\
                     is_label LAP_COL n = false) names /\
    distinct_by cell_eqb names /\ ascending cell_leb names /\
    Forall (fun row => length row = length (columns wide_aps)) (rows wide_aps) /\
    Forall (fun k => isnull (fst k) = false /\ isnull (snd k) = false)
           (map row_key (rows wide_aps)) /\
    distinct_by key2_eqb (map row_key (rows wide_aps)) /\
    ascending key2_leb (map row_key (rows wide_aps)).
Proof.
  apply (aggregate_chunks_wide_shape (conv := sheet_conv)
           (read_chunks CHUNK_SIZE raw_aps) wide_aps).
  vm_compute. reflexivity.
Defined.

(** ** The value the aggregator writes *)

Lemma mean_normal (l : list Q) (m : Q) : mean l = Some m -> Qred m = m.
Proof.
  destruct l as [|a t]; [discriminate|]. unfold mean.
  intros H. apply some_eq in H. rewrite <- H.
  apply Qred_complete, Qred_correct.
Qed.

Lemma mean_one (m : Q) : Qred m = m -> mean [m] = Some m.
Proof.
  intros H. unfold mean. f_equal. transitivity (Qred m); [|exact H].
  apply Qred_complete. cbn [fold_right length].
  change (inject_Z (Z.of_nat 1)) with 1. field.
Qed.

Lemma mean_present_one (o : option Q) :
  (forall m, o = Some m -> Qred m = m) -> mean (present [o]) = o.
Proof.
  destruct o as [m|]; intros H; [|reflexivity].
  change (present [Some m]) with [m]. apply mean_one. now apply H.
Qed.

Lemma group_mean_normal (l : list Sample) (k : key3) (m : Q) :
  group_mean l k = Some m -> Qred m = m.
Proof. apply mean_normal. Qed.

(** One aggregation leaves, for a key, the mean of its group and nothing
    else. *)
Lemma values_agg (l : list Sample) (k : key3) :
  key_present k ->
  present (map s_value (group_rows (groupby_agg l) k))
  = present [group_mean l k].
Proof.
  intros Hk. unfold group_mean.
  destruct (group_rows l k) as [|a g] eqn:Hg.
  - now rewrite (group_rows_agg_nil l k Hg).
  - destruct (group_rows_agg_some l k a) as (k' & Hk' & ->).
    { rewrite (group_rows_kept l k Hk), Hg. now left. }
    cbn [map]. unfold agg_row. cbn [s_value].
    now rewrite (group_rows_congr _ _ _ Hk'), (group_rows_kept l k Hk), Hg.
Qed.

Lemma group_mean_agg (l : list Sample) (k : key3) :
  key_present k -> group_mean (groupby_agg l) k = group_mean l k.
Proof.
  intros Hk. unfold group_mean at 1. rewrite (values_agg l k Hk).
  apply mean_present_one. apply group_mean_normal.
Qed.

Lemma present_concat (ls : list (list (option Q))) :
  present (concat ls) = concat (map present ls).
Proof.
  induction ls as [|l ls IH]; simpl; [reflexivity|].
  now rewrite present_app, IH.
Qed.

Lemma group_mean_chunks (ss : list (list Sample)) (k : key3) :
  key_present k ->
  group_mean (concat (map groupby_agg ss)) k = mean_of_means ss k.
Proof.
  intros Hk. unfold group_mean at 1, mean_of_means. f_equal.
  rewrite group_rows_concat, concat_map, present_concat, !map_map.
  induction ss as [|s ss IH]; [reflexivity|].
  cbn [map concat]. rewrite IH, (values_agg s k Hk).
  change (group_mean s k :: map (fun c => group_mean c k) ss)
    with ([group_mean s k] ++ map (fun c => group_mean c k) ss).
  now rewrite present_app.
Qed.

Lemma pivot_cell_mean (l : list Sample) (ik : key2) (n : cell) :
  key_present (ik, n) ->
  pivot_cell (pivot_agged l) ik n = value_cell (group_mean l (ik, n)).
Proof.
  intros Hk. unfold pivot_cell, pivot_agged.
  rewrite find_filter, filter_comm.
  fold (group_rows (groupby_agg l) (ik, n)).
  unfold group_mean.
  destruct (group_rows l (ik, n)) as [|a g] eqn:Hg.
  - now rewrite (group_rows_agg_nil l _ Hg).
  - destruct (group_rows_agg_some l (ik, n) a) as (k' & Hk' & ->).
    { rewrite (group_rows_kept l _ Hk), Hg. now left. }
    cbn [filter]. unfold has_value at 1, agg_row at 1. cbn [s_value].
    rewrite (group_rows_congr _ _ _ Hk'), (group_rows_kept l _ Hk), Hg.
    destruct (mean (present (map s_value (a :: g)))) as [m|] eqn:Hm.
    + cbn [hd_error]. unfold agg_row. cbn [s_value].
      now rewrite (group_rows_congr _ _ _ Hk'), (group_rows_kept l _ Hk), Hg, Hm.
    + reflexivity.
Qed.

Lemma wide_cell (final : list Sample) (row : list cell) (j : nat) (n : cell) :
  In row (rows (wide_of final)) -> (2 <= j)%nat ->
  nth_error (columns (wide_of final)) j = Some n ->
  key_present (row_key row, n) /\
  nth j row CNull = pivot_cell (pivot_agged final) (row_key row) n.
Proof.
  intros Hrow Hj Hn. unfold wide_of in *. cbn [rows columns] in *.
  apply in_map_iff in Hrow as (ik & <- & Hik).
  destruct j as [|[|j]]; [lia|lia|]. cbn [nth_error nth] in *.
  assert (Hin : In n (pivot_names final)) by (eapply nth_error_In; eauto).
  split.
  - destruct (pivot_index_present final ik Hik) as [H1 H2].
    unfold key_present, row_key. cbn [nth fst snd].
    split; [assumption|]. split; [assumption|].
    now apply (pivot_names_present final).
  - unfold row_key. cbn [nth]. destruct ik as [i l]. cbn [fst snd].
    apply nth_error_nth. now rewrite nth_error_map, Hn.
Qed.

(** X12.  What the aggregator writes for a (vehicle, lap) and a channel
    is the mean, over the chunks that hold a value for them, of the
    chunk's own mean: each chunk counts once, however many samples it
    holds.  When the whole input is read as one chunk this is the mean of
    all the samples of that vehicle, lap and channel. *)
Theorem aggregate_chunks_mean_of_chunk_means
  {conv : PandasConv} (chunks : list DataFrame) (ss : list (list Sample))
  (wide : DataFrame) (row : list cell) (j : nat) (n : cell) :
  mapR chunk_samples chunks = Ok ss ->
  aggregate_chunks chunks = Ok wide ->
  In row (rows wide) -> (2 <= j)%nat ->
  nth_error (columns wide) j = Some n ->
  nth j row CNull = value_cell (mean_of_means ss (row_key row, n)) /\
  forall s, ss = [s] ->
            nth j row CNull = value_cell (group_mean s (row_key row, n)).
Proof.
  intros Hss H Hrow Hj Hn. unfold aggregate_chunks in H.
  rewrite (mapR_then chunk_samples groupby_agg _ ss Hss) in H. cbn [bind] in H.
  apply bind_Ok in H as (combined & Hc & H).
  assert (Ec : combined = concat (map groupby_agg ss)).
  { unfold concat_chunks in Hc. destruct (map groupby_agg ss); [discriminate|].
    now injection Hc as <-. }
  unfold pivot_table_reset in H.
  destruct (_ || _); [discriminate|]. injection H as <-.
  destruct (wide_cell _ row j n Hrow Hj Hn) as [Hk ->].
  assert (E : pivot_cell (pivot_agged (groupby_agg combined)) (row_key row) n
              = value_cell (mean_of_means ss (row_key row, n))).
  { rewrite (pivot_cell_mean _ _ _ Hk), (group_mean_agg _ _ Hk), Ec.
    now rewrite (group_mean_chunks ss _ Hk). }
  split; [exact E|].
  intros s ->. rewrite E. unfold mean_of_means. cbn [map].
  f_equal. apply mean_present_one. apply group_mean_normal.
Qed.

Lemma aggregate_chunks_mean_of_chunk_means_witness :
  let chunks := [chunk_two_tens; chunk_one_forty] in
  let ss := [[mkSample (CStr "7") (CInt 3) (CStr "aps") (Some (inject_Z 10)) (Some 0%Z);
              mkSample (CStr "7") (CInt 3) (CStr "aps") (Some (inject_Z 10)) (Some 1%Z)];
             [mkSample (CStr "7") (CInt 3) (CStr "aps") (Some (inject_Z 40)) (Some 2%Z)]] in
  let row := [CStr "7"; CInt 3; CFloat 25] in
  aggregate_chunks (conv := sheet_conv) chunks
  = Ok (mkFrame [CStr "vehicle_id"; CStr "lap"; CStr "aps"] [row]) /\
  (nth 2 row CNull = value_cell (mean_of_means ss (row_key row, CStr "aps")) /\
   forall s, ss = [s] ->
             nth 2 row CNull = value_cell (group_mean s (row_key row, CStr "aps"))).
Proof.
  intros chunks ss row. split; [vm_compute; reflexivity|].
  apply (aggregate_chunks_mean_of_chunk_means (conv := sheet_conv) chunks ss
           (mkFrame [CStr "vehicle_id"; CStr "lap"; CStr "aps"] [row]) row 2
           (CStr "aps")).
  - vm_compute. reflexivity.
  - vm_compute. reflexivity.
  - now left.
  - lia.
  - reflexivity.
Defined.

Module PreprocessRunFacts.
Import Config Preprocess PreprocessCli PreprocessCliFacts.
Import stdpp.base stdpp.gmap stdpp.strings.

Section Runs.
Context {conv : PandasConv}.

(** One race changes the file system at its output path only. *)
Lemma process_race_frame (e : env) (i o : string) (fs : gmap string file)
      (path : string) :
  path <> o -> snd (process_race e i o fs) !! path = fs !! path.
Proof.
  intros Hne.
  destruct (process_race_cases e i o fs)
    as [(_ & ->)|[(f & c & w & _ & _ & _ & _ & ->)
                 |(f & fs' & _ & _ & -> & [->| ->])]];
    cbn [snd]; try reflexivity; now rewrite lookup_insert_ne.
Qed.

(** What one race does depends on the file system through its input
    only. *)
Lemma process_race_input (e : env) (i o : string) (fs1 fs2 : gmap string file)
      (w : DataFrame) :
  fs1 !! i = fs2 !! i ->
  process_race e i o fs1 = (Returned, <[o := Parquet w]> fs1) ->
  fs1 !! i <> None ->
  process_race e i o fs2 = (Returned, <[o := Parquet w]> fs2).
Proof.
  unfold process_race, aggregate_telemetry_file. intros <- H Hsome.
  destruct (fs1 !! i) as [f|]; [|congruence].
  destruct (chunks <- read_csv CHUNK_SIZE f ;; aggregate_chunks chunks)
    as [pivot|]; [|discriminate].
  unfold to_parquet in *. destruct (write_fails e o); [discriminate|].
  injection H as H.
  assert (E : (<[o := Parquet pivot]> fs1) !! o = (<[o := Parquet w]> fs1) !! o)
    by (now rewrite H).
  rewrite !lookup_insert_eq in E. injection E as ->. reflexivity.
Qed.

Lemma process_race_skip (e : env) (i o : string) (fs1 fs2 : gmap string file) :
  fs1 !! i = None -> fs2 !! i = None ->
  process_race e i o fs2 = (Returned, fs2).
Proof. unfold process_race. now intros _ ->. Qed.

End Runs.

Lemma main_frame {conv : PandasConv} (e : env) (fs : gmap string file)
      (path : string) :
  path <> TELEMETRY_R1_AGGREGATED_PATH ->
  path <> TELEMETRY_R2_AGGREGATED_PATH ->
  snd (main e fs) !! path = fs !! path.
Proof.
  intros N1 N2. unfold main.
  pose proof (process_race_frame e TELEMETRY_R1_PATH
                TELEMETRY_R1_AGGREGATED_PATH fs path N1) as F1.
  destruct (process_race e TELEMETRY_R1_PATH TELEMETRY_R1_AGGREGATED_PATH fs)
    as [[|code] fs1]; cbn [snd] in *; [|assumption].
  pose proof (process_race_frame e TELEMETRY_R2_PATH
                TELEMETRY_R2_AGGREGATED_PATH fs1 path N2) as F2.
  destruct (process_race e TELEMETRY_R2_PATH TELEMETRY_R2_AGGREGATED_PATH fs1)
    as [[|code] fs2]; cbn [snd] in *; congruence.
Qed.

(** X7.  The script writes at the two output paths and nowhere else:
    every other path of the file system, the two input files among them,
    is after the run what it was before, whatever the exit status. *)
Theorem main_writes_outputs_only
  {conv : PandasConv} (e : env) (fs : gmap string file) (path : string) :
  snd (main e fs) !! path = fs !! path \/
  path = TELEMETRY_R1_AGGREGATED_PATH \/ path = TELEMETRY_R2_AGGREGATED_PATH.
Proof.
  destruct (decide (path = TELEMETRY_R1_AGGREGATED_PATH)) as [->|N1]; [auto|].
  destruct (decide (path = TELEMETRY_R2_AGGREGATED_PATH)) as [->|N2]; [auto|].
  left. now apply main_frame.
Qed.

(** X8.  A failure on Race 1 ends the run: the exit status is 1 and the
    output of Race 2 is left as it was, even when the input of Race 2
    would have gone through. *)
Theorem main_stops_at_first_failure
  {conv : PandasConv} (e : env) (fs : gmap string file) (f : file) :
  fs !! TELEMETRY_R1_PATH = Some f ->
  ~ passes e f TELEMETRY_R1_AGGREGATED_PATH ->
  fst (main e fs) = 1%Z /\
  snd (main e fs) !! TELEMETRY_R2_AGGREGATED_PATH
  = fs !! TELEMETRY_R2_AGGREGATED_PATH.
Proof.
  intros Hf Hno. unfold main.
  pose proof (process_race_frame e TELEMETRY_R1_PATH
                TELEMETRY_R1_AGGREGATED_PATH fs TELEMETRY_R2_AGGREGATED_PATH)
    as F1.
  destruct (process_race_cases e TELEMETRY_R1_PATH TELEMETRY_R1_AGGREGATED_PATH fs)
    as [(N & _)|[(f1 & c & w & F & R & A & W & _)|(f1 & fs1 & _ & _ & E & _)]].
  - congruence.
  - exfalso. apply Hno. assert (f1 = f) by congruence. subst f1.
    exists c, w. auto.
  - rewrite E in *. cbn [fst snd] in *. split; [reflexivity|].
    apply F1. discriminate.
Qed.

Lemma main_stops_at_first_failure_witness :
  let fs : gmap string file :=
    <[TELEMETRY_R2_PATH := Csv raw_aps None]>
      (<[TELEMETRY_R1_PATH := Partial]> ∅) in
  fst (main (conv := sheet_conv) env_ok fs) = 1%Z /\
  snd (main (conv := sheet_conv) env_ok fs) !! TELEMETRY_R2_AGGREGATED_PATH
  = fs !! TELEMETRY_R2_AGGREGATED_PATH.
Proof.
  intros fs.
  apply (main_stops_at_first_failure (conv := sheet_conv) env_ok fs Partial).
  - vm_compute. reflexivity.
  - intros (c & w & Hc & _). discriminate.
Defined.

(** X9.  Running the script again is harmless: after a run that exited
    with status 0, a second run in the same environment exits with status
    0 as well and leaves the file system exactly as the first run left
    it. *)
Theorem main_rerun_same
  {conv : PandasConv} (e : env) (fs : gmap string file) :
  fst (main e fs) = 0%Z ->
  main e (snd (main e fs)) = (0%Z, snd (main e fs)).
Proof.
  unfold main.
  destruct (process_race_cases e TELEMETRY_R1_PATH TELEMETRY_R1_AGGREGATED_PATH fs)
    as [(N1 & E1)|[(f1 & c1 & w1 & F1 & R1 & A1 & W1 & E1)
                  |(f1 & fs1 & _ & _ & E1 & _)]];
    rewrite E1; [| |cbn [fst]; discriminate].
  - (* Race 1 skipped *)
    destruct (process_race_cases e TELEMETRY_R2_PATH TELEMETRY_R2_AGGREGATED_PATH fs)
      as [(N2 & E2)|[(f2 & c2 & w2 & F2 & R2 & A2 & W2 & E2)
                    |(f2 & fs2 & _ & _ & E2 & _)]];
      rewrite E2; cbn [fst snd]; [| |discriminate]; intros _.
    + now rewrite E1, E2.
    + assert (I1 : (<[TELEMETRY_R2_AGGREGATED_PATH := Parquet w2]> fs)
                     !! TELEMETRY_R1_PATH = None)
        by (now rewrite lookup_insert_ne).
      rewrite (process_race_skip e _ _ fs _ N1 I1).
      assert (I2 : fs !! TELEMETRY_R2_PATH
                   = (<[TELEMETRY_R2_AGGREGATED_PATH := Parquet w2]> fs)
                       !! TELEMETRY_R2_PATH)
        by (now rewrite lookup_insert_ne).
      rewrite (process_race_input e _ _ fs _ w2 I2 E2) by congruence.
      now rewrite insert_insert_eq.
  - (* Race 1 written *)
    set (fsa := <[TELEMETRY_R1_AGGREGATED_PATH := Parquet w1]> fs) in *.
    destruct (process_race_cases e TELEMETRY_R2_PATH TELEMETRY_R2_AGGREGATED_PATH fsa)
      as [(N2 & E2)|[(f2 & c2 & w2 & F2 & R2 & A2 & W2 & E2)
                    |(f2 & fs2 & _ & _ & E2 & _)]];
      rewrite E2; cbn [fst snd]; [| |discriminate]; intros _.
    + assert (I1 : fs !! TELEMETRY_R1_PATH = fsa !! TELEMETRY_R1_PATH)
        by (unfold fsa; now rewrite lookup_insert_ne).
      rewrite (process_race_input e _ _ fs _ w1 I1 E1) by congruence.
      unfold fsa at 1 2. rewrite insert_insert_eq. fold fsa. now rewrite E2.
    + set (fsb := <[TELEMETRY_R2_AGGREGATED_PATH := Parquet w2]> fsa) in *.
      assert (I1 : fs !! TELEMETRY_R1_PATH = fsb !! TELEMETRY_R1_PATH)
        by (unfold fsb, fsa; now rewrite !lookup_insert_ne).
      rewrite (process_race_input e _ _ fs _ w1 I1 E1) by congruence.
      assert (Eb : <[TELEMETRY_R1_AGGREGATED_PATH := Parquet w1]> fsb = fsb).
      { apply insert_id. unfold fsb, fsa.
        rewrite lookup_insert_ne by done. apply lookup_insert_eq. }
      rewrite Eb.
      assert (I2 : fsa !! TELEMETRY_R2_PATH = fsb !! TELEMETRY_R2_PATH)
        by (unfold fsb; now rewrite lookup_insert_ne).
      rewrite (process_race_input e _ _ fsa _ w2 I2 E2) by congruence.
      unfold fsb. now rewrite insert_insert_eq.
Qed.

Lemma main_rerun_same_witness :
  let fs : gmap string file := <[TELEMETRY_R1_PATH := Csv raw_aps None]> ∅ in
  main (conv := sheet_conv) env_ok (snd (main (conv := sheet_conv) env_ok fs))
  = (0%Z, snd (main (conv := sheet_conv) env_ok fs)).
Proof.
  intros fs. apply (main_rerun_same (conv := sheet_conv) env_ok fs).
  vm_compute. reflexivity.
Defined.

(** ** An input with a header and no row *)




End PreprocessRunFacts.

Module ProcessTelemetryFacts.
Import Config Telemetry TelemetryRows TelemetryFacts.
Import stdpp.base stdpp.gmap stdpp.strings.

Lemma select_rows_filter {A : Type} (p : A -> bool) (l : list A) :
  map fst (List.filter snd (combine l (map p l))) = List.filter p l.
Proof.
  induction l as [|a t IH]; simpl; [reflexivity|].
  destruct (p a); simpl; now rewrite IH.
Qed.

Lemma mapR_bool_map {A : Type} (f : A -> result bool) (l : list A)
      (mask : list bool) :
  mapR f l = Ok mask ->
  mask = map (fun a => match f a with Ok b => b | Raise _ => false end) l.
Proof.
  revert mask. induction l as [|a t IH]; intros mask; simpl.
  - now intros [= <-].
  - intros H. apply bind_Ok in H as (b & Hb & H).
    apply bind_Ok in H as (bs & Hbs & [= <-]).
    rewrite Hb. f_equal. now apply IH.
Qed.

Lemma cell_at_columns (d df : DataFrame) (name : string) (row : list cell) :
  columns d = columns df -> cell_at d name row = cell_at df name row.
Proof. unfold cell_at. now intros ->. Qed.

Lemma getitem_cell_at (df : DataFrame) (name : string) (cs : list cell) :
  getitem df name = Ok cs -> cs = map (cell_at df name) (rows df).
Proof.
  unfold getitem, cell_at.
  destruct (position name (columns df)) as [i|]; [|discriminate].
  now intros [= <-].
Qed.

Lemma filter_all {A : Type} (p : A -> bool) (l : list A) :
  (forall a, p a = true) -> List.filter p l = l.
Proof.
  intros H. induction l as [|a t IH]; simpl; [reflexivity|].
  now rewrite H, IH.
Qed.

Lemma filter_vehicle_selection (df d : DataFrame) (v : option string) :
  filter_vehicle df v = Ok d -> d = selection df v None.
Proof.
  unfold filter_vehicle, selection, row_selected. destruct v as [x|].
  - intros H. apply bind_Ok in H as (ids & Hids & [= <-]).
    apply getitem_cell_at in Hids. subst ids.
    unfold select_rows. f_equal. rewrite map_map.
    rewrite (select_rows_filter
               (fun r => cell_eqb (cell_at df ID_COL r) (CStr x))).
    apply filter_ext. intros r. now rewrite andb_true_r.
  - intros [= <-]. destruct df as [cols rws]. cbn [columns rows]. f_equal.
    symmetry. now apply filter_all.
Qed.

Lemma filter_laps_selection (d f : DataFrame) (lr : option (Z * Z)) :
  filter_laps d lr = Ok f -> f = selection d None lr.
Proof.
  unfold filter_laps, selection, row_selected. destruct lr as [[lo hi]|].
  - intros H. apply bind_Ok in H as (laps & Hlaps & H).
    apply bind_Ok in H as (mask & Hmask & [= <-]).
    apply getitem_cell_at in Hlaps. subst laps.
    apply mapR_bool_map in Hmask. subst mask.
    unfold select_rows. f_equal. rewrite map_map.
    rewrite (select_rows_filter
               (fun r => match in_range lo hi (cell_at d LAP_COL r) with
                         | Ok b => b
                         | Raise _ => false
                         end)).
    apply filter_ext. intros r. reflexivity.
  - intros [= <-]. destruct d as [cols rws]. cbn [columns rows]. f_equal.
    symmetry. now apply filter_all.
Qed.

Lemma filter_and {A : Type} (p q : A -> bool) (l : list A) :
  List.filter q (List.filter p l) = List.filter (fun a => p a && q a) l.
Proof.
  induction l as [|a t IH]; simpl; [reflexivity|].
  destruct (p a); simpl; [destruct (q a)|]; now rewrite IH.
Qed.

Lemma apply_filters_selection (df f : DataFrame) (v : option string)
      (lr : option (Z * Z)) :
  apply_filters df v lr = Ok f -> f = selection df v lr.
Proof.
  unfold apply_filters. intros H. apply bind_Ok in H as (d & Hd & Hf).
  apply filter_vehicle_selection in Hd. apply filter_laps_selection in Hf.
  subst d f. unfold selection. cbn [columns rows]. f_equal.
  rewrite filter_and. apply filter_ext. intros r. unfold row_selected.
  cbn [andb]. rewrite andb_true_r. f_equal.
Qed.

Lemma selection_id (df : DataFrame) : selection df None None = df.
Proof.
  unfold selection, row_selected. destruct df as [cols rws].
  cbn [columns rows]. f_equal. now apply filter_all.
Qed.




(** ** What a metric series holds *)

Lemma combine_map3 {A B C D : Type} (f : A -> B) (g : A -> C) (h : A -> D)
      (l : list A) :
  combine (combine (map f l) (map g l)) (map h l)
  = map (fun a => ((f a, g a), h a)) l.
Proof. induction l as [|a t IH]; simpl; [reflexivity|]. now rewrite IH. Qed.

Lemma set_index_get_entries (pivot : DataFrame) (c : string) (ser : Series) :
  set_index_get pivot c = Ok ser -> ser = map (row_entry pivot c) (rows pivot).
Proof.
  unfold set_index_get. intros H.
  apply bind_Ok in H as (ids & Hids & H).
  apply bind_Ok in H as (laps & Hlaps & H).
  apply bind_Ok in H as (vals & Hvals & [= <-]).
  apply getitem_cell_at in Hids, Hlaps, Hvals. subst.
  apply combine_map3.
Qed.

(** Every series of the map is the series of its source column. *)
Lemma extract_metrics_series (pivot : DataFrame) (ms : gmap string Series)
      (m : string) (ser : Series) :
  extract_metrics pivot = Ok ms -> ms !! m = Some ser ->
  exists c, metric_source (columns pivot) m = Some c /\
            set_index_get pivot c = Ok ser.
Proof.
  intros H Hm.
  assert (Hid : has_column pivot ID_COL = true /\ has_column pivot LAP_COL = true).
  { destruct (extract_metrics_sourced pivot ms H m ser Hm) as (c & Hc & _).
    unfold extract_metrics in H.
    assert (Hset : forall key col m0 m1,
               add_metric pivot key col m0 = Ok m1 ->
               m1 = m0 \/ exists s, set_index_get pivot col = Ok s).
    { intros key col m0 m1. unfold add_metric.
      destruct (has_column pivot col); [|intros [= <-]; now left].
      intros E. apply bind_Ok in E as (s & Hs & _). eauto. }
    assert (Hkeys : forall col s, set_index_get pivot col = Ok s ->
               has_column pivot ID_COL = true /\ has_column pivot LAP_COL = true).
    { intros col s. unfold set_index_get, getitem, has_column.
      destruct (position ID_COL (columns pivot)) as [i|] eqn:Pi; [|discriminate].
      destruct (position LAP_COL (columns pivot)) as [j|] eqn:Pj;
        [|simpl; discriminate].
      intros _. split; apply position_has; eauto. }
    apply bind_Ok in H as (m1 & H1 & H). apply bind_Ok in H as (m2 & H2 & H).
    apply bind_Ok in H as (m3 & H3 & H). apply bind_Ok in H as (m4 & H4 & H).
    apply bind_Ok in H as (m5 & H5 & H6).
    destruct (Hset _ _ _ _ H6) as [->|[s Hs]]; [|eauto].
    destruct (Hset _ _ _ _ H5) as [->|[s Hs]]; [|eauto].
    destruct (Hset _ _ _ _ H4) as [->|[s Hs]]; [|eauto].
    assert (B : m3 = m2 \/ exists col s, set_index_get pivot col = Ok s).
    { unfold add_brake in H3.
      destruct (List.filter has_pbrake (columns pivot)) as [|[| | |c0|] r];
        try (injection H3 as <-; now left).
      apply bind_Ok in H3 as (s & Hs & _). eauto. }
    destruct B as [->|(col & s & Hs)]; [|eauto].
    destruct (Hset _ _ _ _ H2) as [->|[s Hs]]; [|eauto].
    destruct (Hset _ _ _ _ H1) as [->|[s Hs]]; [|eauto].
    rewrite lookup_empty in Hm. discriminate. }
  destruct Hid as [Hid Hlap].
  destruct (extract_metrics_spec pivot Hid Hlap) as (ms' & E & Hspec).
  assert (ms' = ms) by congruence. subst ms'.
  rewrite Hspec in Hm.
  destruct (metric_source (columns pivot) m) as [c|]; [|discriminate].
  exists c. split; [reflexivity|]. unfold series_of in Hm.
  destruct (set_index_get pivot c); congruence.
Qed.

(** The metrics of a returned pair are read from the returned table. *)
Lemma process_telemetry_extracts (df : DataFrame) (v : option string)
      (lr : option (Z * Z)) (ms : gmap string Series) (pivot : DataFrame) :
  process_telemetry df v lr = Ok (ms, pivot) ->
  ms = ∅ \/ extract_metrics pivot = Ok ms.
Proof.
  unfold process_telemetry.
  destruct (df_empty df); [intros [= <- <-]; now left|].
  cbv zeta.
  destruct (negb (has_column df "telemetry_name")
            || negb (has_column df "telemetry_value")).
  - intros H. apply bind_Ok in H as (f & _ & H).
    destruct (df_empty f); [injection H as <- <-; now left|].
    apply bind_Ok in H as (ms' & Hms & [= <- <-]). now right.
  - intros H. apply bind_Ok in H as (f & _ & H).
    destruct (df_empty f); [injection H as <- <-; now left|].
    destruct (s <- long_samples f ;; pivot_table_reset s) as [p|e];
      [|injection H as <- <-; now left].
    apply bind_Ok in H as (ms' & Hms & [= <- <-]). now right.
Qed.

(** X14.  A metric series follows the returned table row by row: the
    series of a metric has one entry per row of the table, in the order
    of the rows, made of the row's vehicle_id and lap and of its value in
    the metric's source column. *)
Theorem process_telemetry_series_rows
  (df : DataFrame) (vehicle_id : option string) (lap_range : option (Z * Z))
  (metrics : gmap string Series) (pivot : DataFrame) (m : string) (ser : Series) :
  process_telemetry df vehicle_id lap_range = Ok (metrics, pivot) ->
  metrics !! m = Some ser ->
  exists c, metric_source (columns pivot) m = Some c /\
            ser = map (row_entry pivot c) (rows pivot).
Proof.
  intros H Hm.
  destruct (process_telemetry_extracts _ _ _ _ _ H) as [->|He].
  - rewrite lookup_empty in Hm. discriminate.
  - destruct (extract_metrics_series pivot metrics m ser He Hm) as (c & Hc & Hs).
    exists c. split; [assumption|]. now apply set_index_get_entries.
Qed.

Lemma process_telemetry_series_rows_witness :
  exists c, metric_source (columns wide_two_laps) "speed" = Some c /\
            [((CStr "7", CInt 1), CFloat 101); ((CStr "7", CInt 2), CFloat 99)]
            = map (row_entry wide_two_laps c) (rows wide_two_laps).
Proof.
  apply (process_telemetry_series_rows wide_two_laps None None
           {["speed" := [((CStr "7", CInt 1), CFloat 101);
                         ((CStr "7", CInt 2), CFloat 99)]]}
           wide_two_laps "speed").
  - vm_compute. reflexivity.
  - vm_compute. reflexivity.
Defined.

(** ** When [process_telemetry] raises *)

Lemma set_index_get_raises (pivot : DataFrame) (c : string) (e : exn) :
  set_index_get pivot c = Raise e -> e = KeyError.
Proof.
  unfold set_index_get, getitem.
  destruct (position ID_COL (columns pivot)); [|now intros [= <-]].
  destruct (position LAP_COL (columns pivot)); [|now intros [= <-]].
  destruct (position c (columns pivot)); [discriminate|now intros [= <-]].
Qed.

Lemma bind_Raise {A B} (m : result A) (k : A -> result B) (e : exn) :
  bind m k = Raise e -> m = Raise e \/ exists a, m = Ok a /\ k a = Raise e.
Proof. destruct m as [a|e']; simpl; [eauto|intros [= ->]; now left]. Qed.

Lemma add_metric_raises (pivot : DataFrame) (key col : string)
      (m0 : gmap string Series) (e : exn) :
  add_metric pivot key col m0 = Raise e -> e = KeyError.
Proof.
  unfold add_metric. destruct (has_column pivot col); [|discriminate].
  intros [H|(s & _ & H)]%bind_Raise; [|discriminate].
  now apply set_index_get_raises in H.
Qed.

Lemma extract_metrics_raises (pivot : DataFrame) (e : exn) :
  extract_metrics pivot = Raise e -> e = KeyError.
Proof.
  unfold extract_metrics. intros H.
  apply bind_Raise in H as [H|(m1 & _ & H)]; [now apply add_metric_raises in H|].
  apply bind_Raise in H as [H|(m2 & _ & H)]; [now apply add_metric_raises in H|].
  apply bind_Raise in H as [H|(m3 & _ & H)].
  { unfold add_brake in H.
    destruct (List.filter has_pbrake (columns pivot)) as [|[| | |c0|] r];
      try discriminate.
    apply bind_Raise in H as [H|(s & _ & H)]; [|discriminate].
    now apply set_index_get_raises in H. }
  apply bind_Raise in H as [H|(m4 & _ & H)]; [now apply add_metric_raises in H|].
  apply bind_Raise in H as [H|(m5 & _ & H)]; [now apply add_metric_raises in H|].
  now apply add_metric_raises in H.
Qed.

Lemma getitem_raises (df : DataFrame) (name : string) (e : exn) :
  getitem df name = Raise e -> e = KeyError /\ has_column df name = false.
Proof.
  unfold getitem, has_column.
  destruct (position name (columns df)) as [i|] eqn:P; [discriminate|].
  intros [= <-]. split; [reflexivity|].
  destruct (existsb (is_label name) (columns df)) eqn:E; [|reflexivity].
  apply position_has in E as [i Hi]. congruence.
Qed.

Lemma in_range_comparable (lo hi : Z) (c : cell) :
  match in_range lo hi c with
  | Ok _ => comparable c = true
  | Raise e => e = TypeError /\ comparable c = false
  end.
Proof. destruct c; simpl; auto. Qed.

Lemma mapR_in_range (lo hi : Z) (l : list cell) :
  match mapR (in_range lo hi) l with
  | Ok _ => forallb comparable l = true
  | Raise e => e = TypeError /\ forallb comparable l = false
  end.
Proof.
  induction l as [|c t IH]; simpl; [reflexivity|].
  pose proof (in_range_comparable lo hi c) as Hc.
  destruct (in_range lo hi c) as [b|e]; simpl.
  - rewrite Hc. simpl.
    destruct (mapR (in_range lo hi) t) as [bs|e]; simpl; assumption.
  - destruct Hc as [-> ->]. auto.
Qed.

Lemma selection_lap_cells (df : DataFrame) (v : option string)
      (lr : option (Z * Z)) :
  lap_cells_comparable df = true ->
  forallb comparable (map (cell_at df LAP_COL) (rows (selection df v lr))) = true.
Proof.
  unfold lap_cells_comparable. intros H.
  destruct (getitem df LAP_COL) as [laps|] eqn:G; [|discriminate].
  apply getitem_cell_at in G. subst laps.
  rewrite forallb_forall in *. intros c Hc.
  apply in_map_iff in Hc as (r & <- & Hr). apply H.
  apply in_map. unfold selection in Hr. cbn [rows] in Hr.
  now apply filter_In in Hr as [Hr _].
Qed.

Lemma filter_laps_cases (d df : DataFrame) (lr : option (Z * Z)) :
  columns d = columns df ->
  match filter_laps d lr with
  | Ok _ => True
  | Raise e =>
      lr <> None /\
      ((e = KeyError /\ has_column df LAP_COL = false) \/
       (e = TypeError /\ has_column df LAP_COL = true /\
        forallb comparable (map (cell_at df LAP_COL) (rows d)) = false))
  end.
Proof.
  intros Hcols. unfold filter_laps. destruct lr as [[lo hi]|]; [|exact I].
  destruct (getitem d LAP_COL) as [laps|e] eqn:G; cbn [bind].
  - pose proof (getitem_cell_at _ _ _ G) as El.
    pose proof (mapR_in_range lo hi laps) as M.
    destruct (mapR (in_range lo hi) laps) as [mask|e]; cbn [bind]; [exact I|].
    destruct M as [-> M]. split; [discriminate|]. right.
    split; [reflexivity|]. split.
    + unfold getitem in G. unfold has_column. rewrite <- Hcols.
      destruct (position LAP_COL (columns d)) as [j|] eqn:P; [|discriminate].
      apply position_has. eauto.
    + rewrite <- M, El. f_equal. apply map_ext. intros r.
      now apply cell_at_columns.
  - apply getitem_raises in G as [-> G]. split; [discriminate|]. left.
    split; [reflexivity|]. unfold has_column in *. now rewrite <- Hcols.
Qed.

Lemma apply_filters_cases (df : DataFrame) (v : option string)
      (lr : option (Z * Z)) :
  match apply_filters df v lr with
  | Ok f => f = selection df v lr
  | Raise e =>
      (e = KeyError /\
       (has_column df ID_COL = false \/ has_column df LAP_COL = false)) \/
      (e = TypeError /\ lr <> None /\ lap_cells_comparable df = false)
  end.
Proof.
  destruct (apply_filters df v lr) as [f|e] eqn:E;
    [now apply apply_filters_selection|].
  unfold apply_filters in E.
  apply bind_Raise in E as [E|(d & Hd & E)].
  - unfold filter_vehicle in E. destruct v as [x|]; [|discriminate].
    apply bind_Raise in E as [E|(ids & _ & E)]; [|discriminate].
    apply getitem_raises in E as [-> E]. left. auto.
  - apply filter_vehicle_selection in Hd.
    pose proof (filter_laps_cases d df lr) as C. rewrite E in C.
    destruct C as [Hlr [[-> C]|(-> & Hl & C)]]; [now subst d|left; auto|].
    right. split; [reflexivity|]. split; [assumption|].
    destruct (lap_cells_comparable df) eqn:L; [|reflexivity].
    rewrite Hd, (selection_lap_cells df v None L) in C. discriminate.
Qed.

Lemma extract_metrics_wide_of (s : list Sample) :
  exists ms, extract_metrics (wide_of s) = Ok ms.
Proof.
  destruct (extract_metrics_spec (wide_of s)) as (ms & H & _);
    [reflexivity|reflexivity|eauto].
Qed.

(** X15.  [process_telemetry] raises in two cases only: a [KeyError]
    when the table lacks the vehicle_id or the lap column, and a
    [TypeError] when a lap range is given and the lap column holds text or
    timestamps.  A table that has both key columns and laps that are
    numbers or absent always gets a result, whatever the filters and
    whatever its other columns hold; an empty table does too. *)
Theorem process_telemetry_errors
  (df : DataFrame) (vehicle_id : option string) (lap_range : option (Z * Z)) :
  (forall e,
      process_telemetry df vehicle_id lap_range = Raise e ->
      df_empty df = false /\
      ((e = KeyError /\
        (has_column df ID_COL = false \/ has_column df LAP_COL = false)) \/
       (e = TypeError /\ lap_range <> None /\
        lap_cells_comparable df = false))) /\
  (df_empty df = true \/
   (has_column df ID_COL = true /\ has_column df LAP_COL = true /\
    lap_cells_comparable df = true) ->
   exists res, process_telemetry df vehicle_id lap_range = Ok res).
Proof.
  assert (R : forall e,
             process_telemetry df vehicle_id lap_range = Raise e ->
             df_empty df = false /\
             ((e = KeyError /\
               (has_column df ID_COL = false \/ has_column df LAP_COL = false)) \/
              (e = TypeError /\ lap_range <> None /\
               lap_cells_comparable df = false))).
  { intros e. unfold process_telemetry.
    destruct (df_empty df) eqn:He; [discriminate|]. cbv zeta.
    intros H. split; [reflexivity|].
    pose proof (apply_filters_cases df vehicle_id lap_range) as C.
    destruct (apply_filters df vehicle_id lap_range) as [f|e'].
    - cbn [bind] in H. subst f.
      set (sel := selection df vehicle_id lap_range) in *.
      destruct (negb (has_column df "telemetry_name")
                || negb (has_column df "telemetry_value")).
      + destruct (df_empty sel); [discriminate|].
        apply bind_Raise in H as [H|(ms & _ & H)]; [|discriminate].
        pose proof (extract_metrics_raises _ _ H) as ->. left.
        split; [reflexivity|].
        destruct (has_column df ID_COL) eqn:Hid; [|now left].
        destruct (has_column df LAP_COL) eqn:Hlap; [|now right].
        destruct (extract_metrics_spec sel Hid Hlap) as (ms & E & _).
        congruence.
      + destruct (df_empty sel); [discriminate|].
        destruct (s <- long_samples sel ;; pivot_table_reset s) as [p|e'] eqn:P;
          [|discriminate].
        apply bind_Raise in H as [H|(ms & _ & H)]; [|discriminate].
        apply bind_Ok in P as (s & _ & P). unfold pivot_table_reset in P.
        destruct (_ || _); [discriminate|]. injection P as <-.
        destruct (extract_metrics_wide_of s) as [ms E]. congruence.
    - assert (e' = e).
      { destruct (negb (has_column df "telemetry_name")
                  || negb (has_column df "telemetry_value"));
          cbn [bind] in H; congruence. }
      subst e'. exact C. }
  split; [exact R|].
  intros Hok.
  destruct (process_telemetry df vehicle_id lap_range) as [res|e] eqn:E;
    [eauto|].
  exfalso. destruct (R e eq_refl) as [He [[_ [H|H]]|(_ & _ & H)]];
    destruct Hok as [Hok|(H1 & H2 & H3)]; congruence.
Qed.

Lemma process_telemetry_text_laps :
  process_telemetry wide_text_laps None (Some (1, 5)%Z) = Raise TypeError.
Proof. vm_compute. reflexivity. Qed.

End ProcessTelemetryFacts.

Module TelemetryLoadFacts.
Import Config Preprocess PreprocessCli PreprocessCliFacts PreprocessRunFacts.
Import TelemetryLoad.
Import stdpp.base stdpp.gmap stdpp.strings.

Section LoadFacts.
Context {conv : PandasConv}.

Lemma telemetry_files_cases (race : string) :
  telemetry_files race = (TELEMETRY_R1_AGGREGATED_PATH, TELEMETRY_R1_PATH) \/
  telemetry_files race = (TELEMETRY_R2_AGGREGATED_PATH, TELEMETRY_R2_PATH).
Proof. unfold telemetry_files. destruct (String.eqb race "Race 1"); auto. Qed.

Lemma load_csv_input (fs1 fs2 : gmap string file) (csv_file : string) :
  fs1 !! csv_file = fs2 !! csv_file -> load_csv fs1 csv_file = load_csv fs2 csv_file.
Proof. unfold load_csv. now intros ->. Qed.

(** What a run leaves at the output path of a race: what was there, a
    partial file, or the complete wide table of the input. *)
Lemma process_race_artifact (e : env) (i o : string) (fs : gmap string file) :
  snd (process_race e i o fs) !! o = fs !! o \/
  snd (process_race e i o fs) !! o = Some Partial \/
  exists f chunks wide,
    fs !! i = Some f /\ read_csv CHUNK_SIZE f = Ok chunks /\
    aggregate_chunks chunks = Ok wide /\
    snd (process_race e i o fs) !! o = Some (Parquet wide).
Proof.
  destruct (process_race_cases e i o fs)
    as [(_ & ->)|[(f & c & w & F & R & A & _ & ->)
                 |(f & fs' & _ & _ & -> & [->| ->])]]; cbn [snd].
  - now left.
  - right. right. exists f, c, w. rewrite lookup_insert_eq. auto.
  - now left.
  - right. left. apply lookup_insert_eq.
Qed.

Lemma main_artifact_r1 (e : env) (fs : gmap string file) :
  snd (main e fs) !! TELEMETRY_R1_AGGREGATED_PATH
  = snd (process_race e TELEMETRY_R1_PATH TELEMETRY_R1_AGGREGATED_PATH fs)
      !! TELEMETRY_R1_AGGREGATED_PATH.
Proof.
  unfold main.
  destruct (process_race e TELEMETRY_R1_PATH TELEMETRY_R1_AGGREGATED_PATH fs)
    as [[|code] fs1]; cbn [snd]; [|reflexivity].
  pose proof (process_race_frame e TELEMETRY_R2_PATH
                TELEMETRY_R2_AGGREGATED_PATH fs1 TELEMETRY_R1_AGGREGATED_PATH)
    as F.
  destruct (process_race e TELEMETRY_R2_PATH TELEMETRY_R2_AGGREGATED_PATH fs1)
    as [[|code] fs2]; cbn [snd] in *; now apply F.
Qed.

Lemma main_artifact_r2 (e : env) (fs : gmap string file) :
  snd (main e fs) !! TELEMETRY_R2_AGGREGATED_PATH
  = fs !! TELEMETRY_R2_AGGREGATED_PATH \/
  snd (main e fs) !! TELEMETRY_R2_AGGREGATED_PATH = Some Partial \/
  exists f chunks wide,
    fs !! TELEMETRY_R2_PATH = Some f /\ read_csv CHUNK_SIZE f = Ok chunks /\
    aggregate_chunks chunks = Ok wide /\
    snd (main e fs) !! TELEMETRY_R2_AGGREGATED_PATH = Some (Parquet wide).
Proof.
  unfold main.
  pose proof (process_race_frame e TELEMETRY_R1_PATH
                TELEMETRY_R1_AGGREGATED_PATH fs) as F.
  destruct (process_race e TELEMETRY_R1_PATH TELEMETRY_R1_AGGREGATED_PATH fs)
    as [[|code] fs1]; cbn [snd] in *.
  - pose proof (process_race_artifact e TELEMETRY_R2_PATH
                  TELEMETRY_R2_AGGREGATED_PATH fs1) as A.
    destruct (process_race e TELEMETRY_R2_PATH TELEMETRY_R2_AGGREGATED_PATH fs1)
      as [[|code] fs2]; cbn [snd] in *;
      rewrite !F in A by discriminate; exact A.
  - left. now apply F.
Qed.

End LoadFacts.

(** X16.  The application never loads a half-written artifact.  Starting
    without an artifact for a race, after a run of the preprocessing
    script (whatever its exit status) [load_telemetry] returns for that
    race either the complete wide table of the race's input, or exactly
    what it returned before the run: an artifact that a failed write left
    unreadable is passed over for the CSV path. *)
Theorem load_telemetry_after_main
  {conv : PandasConv} (e : env) (fs : gmap string file) (race : string) :
  fs !! fst (telemetry_files race) = None ->
  load_telemetry (snd (main e fs)) race = load_telemetry fs race \/
  exists f chunks wide,
    fs !! snd (telemetry_files race) = Some f /\
    read_csv CHUNK_SIZE f = Ok chunks /\
    aggregate_chunks chunks = Ok wide /\
    load_telemetry (snd (main e fs)) race = wide.
Proof.
  intros Hnone. unfold load_telemetry.
  assert (A : snd (main e fs) !! fst (telemetry_files race)
              = fs !! fst (telemetry_files race) \/
              snd (main e fs) !! fst (telemetry_files race) = Some Partial \/
              exists f chunks wide,
                fs !! snd (telemetry_files race) = Some f /\
                read_csv CHUNK_SIZE f = Ok chunks /\
                aggregate_chunks chunks = Ok wide /\
                snd (main e fs) !! fst (telemetry_files race)
                = Some (Parquet wide)).
  { destruct (telemetry_files_cases race) as [-> | ->]; cbn [fst snd].
    - rewrite main_artifact_r1. apply process_race_artifact.
    - apply main_artifact_r2. }
  assert (C : load_csv (snd (main e fs)) (snd (telemetry_files race))
              = load_csv fs (snd (telemetry_files race))).
  { apply load_csv_input. apply main_frame;
      destruct (telemetry_files_cases race) as [-> | ->]; discriminate. }
  destruct (telemetry_files race) as [agg csv]. cbn [fst snd] in *.
  unfold USE_AGGREGATED_TELEMETRY. rewrite Hnone.
  destruct A as [A|[A|(f & c & w & F & R & G & A)]]; rewrite A.
  - left. now rewrite Hnone.
  - left. exact C.
  - right. exists f, c, w. auto.
Qed.

Lemma load_telemetry_after_main_witness :
  let fs : gmap string file := <[TELEMETRY_R1_PATH := Csv raw_aps None]> ∅ in
  load_telemetry (conv := sheet_conv)
    (snd (main (conv := sheet_conv) env_ok fs)) "Race 1"
  = load_telemetry (conv := sheet_conv) fs "Race 1" \/
  exists f chunks wide,
    fs !! snd (telemetry_files "Race 1") = Some f /\
    read_csv CHUNK_SIZE f = Ok chunks /\
    aggregate_chunks (conv := sheet_conv) chunks = Ok wide /\
    load_telemetry (conv := sheet_conv)
      (snd (main (conv := sheet_conv) env_ok fs)) "Race 1" = wide.
Proof.
  intros fs.
  apply (load_telemetry_after_main (conv := sheet_conv) env_ok fs "Race 1").
  vm_compute. reflexivity.
Defined.

End TelemetryLoadFacts.

Module LiveModeFacts.
Import Config DataProcessing LiveMode.

Lemma qmin_qmax_bounds (x : Q) : 1 # 2 <= qmin 1 (qmax (1 # 2) x) <= 1.
Proof.
  unfold qmin, qmax.
  destruct (Qle_bool x (1 # 2)) eqn:E1.
  - assert (E : Qle_bool 1 (1 # 2) = false) by reflexivity. rewrite E.
    split; [apply Qle_refl|discriminate].
  - destruct (Qle_bool 1 x) eqn:E2.
    + split; [discriminate|apply Qle_refl].
    + split.
      * apply Qlt_le_weak, Qnot_le_lt. intros H.
        apply Qle_bool_iff in H. congruence.
      * apply Qlt_le_weak, Qnot_le_lt. intros H.
        apply Qle_bool_iff in H. congruence.
Qed.

Section LiveFacts.
Context {conv : PandasConv}.

Lemma handle_live_mode_started
      (file_source : workbook) (current_time t0 : Q) (c : Z) (s : session) :
  lap_live s = Some true -> last_lap_update s = Some t0 ->
  current_lap_filter s = Some c ->
  handle_live_mode file_source current_time s
  = (laps <- build_laps file_source
               (match selected_race s with Some r => r | None => "Race 1" end) ;;
     max_lap <- max_lap_or_default laps ;;
     if Qle_bool LIVE_MODE_UPDATE_INTERVAL (current_time - t0)
     then Ok (mkSession (selected_race s) (selected_vehicle s)
                        (Some (Z.min (c + 1) max_lap)) (Some current_time)
                        (Some true),
              Rerun (3 # 10))
     else Ok (s, Rerun (qmin 1 (qmax (1 # 2)
                                     (LIVE_MODE_UPDATE_INTERVAL
                                      - (current_time - t0)))))).
Proof.
  intros L T C. unfold handle_live_mode. rewrite L, T. cbv zeta.
  rewrite T, C, L.
  destruct (build_laps file_source _) as [laps|e]; [|reflexivity].
  cbn [bind]. destruct (max_lap_or_default laps) as [M|e]; [|reflexivity].
  cbn [bind]. destruct (Qle_bool _ _); [|reflexivity].
  do 3 f_equal. f_equal. destruct (Z.ltb_spec c M); lia.
Qed.

(** X17.  One call of [handle_live_mode] in a session where live mode
    is on and the lap filter and the time of the last update are set.
    Whenever the call returns it asks for a rerun.  If the update interval
    has passed since the last update, the lap filter becomes the old lap
    plus one, capped at the last lap of the race (28 when there is no lap
    data), the time of the last update becomes the current time, and the
    sleep is 0.3 s; otherwise the session stays as it is and the sleep
    lies between 0.5 s and 1 s. *)
Theorem handle_live_mode_step
  (file_source : workbook) (current_time t0 : Q) (c : Z)
  (s s' : session) (a : action) :
  lap_live s = Some true -> last_lap_update s = Some t0 ->
  current_lap_filter s = Some c ->
  handle_live_mode file_source current_time s = Ok (s', a) ->
  exists laps max_lap,
    build_laps file_source
      (match selected_race s with Some r => r | None => "Race 1" end)
    = Ok laps /\
    max_lap_or_default laps = Ok max_lap /\
    if Qle_bool LIVE_MODE_UPDATE_INTERVAL (current_time - t0)
    then a = Rerun (3 # 10) /\
         s' = mkSession (selected_race s) (selected_vehicle s)
                        (Some (Z.min (c + 1) max_lap)) (Some current_time)
                        (Some true)
    else s' = s /\ exists w, a = Rerun w /\ 1 # 2 <= w <= 1.
Proof.
  intros L T C H. rewrite (handle_live_mode_started _ _ t0 c s L T C) in H.
  apply bind_Ok in H as (laps & Hb & H).
  apply bind_Ok in H as (M & HM & H).
  exists laps, M. split; [exact Hb|]. split; [exact HM|].
  destruct (Qle_bool _ _); injection H as <- <-.
  - auto.
  - split; [reflexivity|]. eexists. split; [reflexivity|].
    apply qmin_qmax_bounds.
Qed.

End LiveFacts.

Lemma handle_live_mode_step_witness :
  let s := mkSession (Some "Race 1") (Some None) (Some 1%Z) (Some 0) (Some true) in
  exists laps max_lap,
    build_laps (conv := sheet_conv) (wb_scenario 0) "Race 1" = Ok laps /\
    max_lap_or_default laps = Ok max_lap /\
    if Qle_bool LIVE_MODE_UPDATE_INTERVAL (6 - 0)
    then Rerun (3 # 10) = Rerun (3 # 10) /\
         mkSession (Some "Race 1") (Some None) (Some 2%Z) (Some 6) (Some true)
         = mkSession (selected_race s) (selected_vehicle s)
                     (Some (Z.min (1 + 1) max_lap)) (Some 6) (Some true)
    else mkSession (Some "Race 1") (Some None) (Some 2%Z) (Some 6) (Some true) = s
         /\ exists w, Rerun (3 # 10) = Rerun w /\ 1 # 2 <= w <= 1.
Proof.
  intros s.
  apply (handle_live_mode_step (conv := sheet_conv) (wb_scenario 0) 6 0 1%Z s
           (mkSession (Some "Race 1") (Some None) (Some 2%Z) (Some 6) (Some true))
           (Rerun (3 # 10))); reflexivity.
Defined.

End LiveModeFacts.

(** ** Aggregating twice *)

Lemma key3_leb_total (a b : key3) : key3_leb a b = true \/ key3_leb b a = true.
Proof.
  apply (is_le_total
           (fun x y : key3 =>
              lex (lex (cell_compare (fst (fst x)) (fst (fst y)))
                       (cell_compare (snd (fst x)) (snd (fst y))))
                  (cell_compare (snd x) (snd y)))).
  intros x y.
  apply (lex_antisym
           (fun p q : key2 => lex (cell_compare (fst p) (fst q))
                                  (cell_compare (snd p) (snd q)))
           cell_compare); [|cell_order].
  intros p q. apply (lex_antisym cell_compare cell_compare); cell_order.
Qed.

Lemma key3_leb_trans (a b c : key3) :
  key3_leb a b = true -> key3_leb b c = true -> key3_leb a c = true.
Proof.
  assert (A2 : forall p q : key2,
             lex (cell_compare (fst q) (fst p)) (cell_compare (snd q) (snd p))
             = CompOpp (lex (cell_compare (fst p) (fst q))
                            (cell_compare (snd p) (snd q)))).
  { intros p q. apply (lex_antisym cell_compare cell_compare); cell_order. }
  assert (T2 : forall p q r : key2,
             lex (cell_compare (fst p) (fst q)) (cell_compare (snd p) (snd q)) = Lt ->
             lex (cell_compare (fst q) (fst r)) (cell_compare (snd q) (snd r)) = Lt ->
             lex (cell_compare (fst p) (fst r)) (cell_compare (snd p) (snd r)) = Lt).
  { intros p q r. apply (lex_lt_trans cell_compare cell_compare); cell_order. }
  assert (E2 : forall p q r : key2,
             lex (cell_compare (fst p) (fst q)) (cell_compare (snd p) (snd q)) = Eq ->
             lex (cell_compare (fst p) (fst r)) (cell_compare (snd p) (snd r))
             = lex (cell_compare (fst q) (fst r)) (cell_compare (snd q) (snd r))).
  { intros p q r. apply (lex_eq_l cell_compare cell_compare); cell_order. }
  apply (is_le_trans
           (fun x y : key3 =>
              lex (lex (cell_compare (fst (fst x)) (fst (fst y)))
                       (cell_compare (snd (fst x)) (snd (fst y))))
                  (cell_compare (snd x) (snd y)))).
  - intros x y.
    apply (lex_antisym
             (fun p q : key2 => lex (cell_compare (fst p) (fst q))
                                    (cell_compare (snd p) (snd q)))
             cell_compare); [exact A2|cell_order].
  - intros x y z.
    apply (lex_lt_trans
             (fun p q : key2 => lex (cell_compare (fst p) (fst q))
                                    (cell_compare (snd p) (snd q)))
             cell_compare); try cell_order; assumption.
  - intros x y z.
    apply (lex_eq_l
             (fun p q : key2 => lex (cell_compare (fst p) (fst q))
                                    (cell_compare (snd p) (snd q)))
             cell_compare); try cell_order; assumption.
Qed.

Section SortedAlready.
Context {A : Type} (eqb leb : A -> A -> bool).

Lemma isort_ascending (l : list A) : ascending leb l -> isort leb l = l.
Proof.
  unfold ascending. induction 1 as [|a l Hl IH Ha]; simpl; [reflexivity|].
  rewrite IH. destruct l as [|b t]; [reflexivity|].
  simpl. inversion Ha as [|? ? Hab _]; subst. now rewrite Hab.
Qed.

Lemma unique_by_distinct_id (l : list A) :
  distinct_by eqb l -> unique_by eqb l = l.
Proof.
  unfold distinct_by. induction 1 as [|a l Ha Hl IH]; simpl; [reflexivity|].
  rewrite IH. f_equal. rewrite Forall_forall in Ha.
  clear IH Hl. induction l as [|b t IHt]; simpl; [reflexivity|].
  rewrite (Ha b) by now left. simpl. f_equal.
  apply IHt. intros x Hx. apply Ha. now right.
Qed.

End SortedAlready.

Lemma filter_all_In {A : Type} (p : A -> bool) (l : list A) :
  (forall a, In a l -> p a = true) -> filter p l = l.
Proof.
  induction l as [|a t IH]; simpl; intros H; [reflexivity|].
  rewrite (H a) by now left. f_equal. apply IH. intros b Hb. apply H. now right.
Qed.

Lemma agg_keys_ascending (l : list Sample) : ascending key3_leb (agg_keys l).
Proof.
  unfold ascending, agg_keys.
  apply isort_sorted; [apply key3_leb_total|apply key3_leb_trans].
Qed.

Lemma agg_keys_distinct (l : list Sample) : distinct_by key3_eqb (agg_keys l).
Proof.
  unfold agg_keys. apply isort_distinct; [apply key3_eqb_sym|].
  apply unique_by_distinct.
Qed.

Lemma agg_keys_present (l : list Sample) (k : key3) :
  In k (agg_keys l) -> key_present k.
Proof.
  unfold agg_keys. rewrite isort_In. intros H%unique_by_incl.
  apply in_map_iff in H as (s & <- & Hs). unfold kept in Hs.
  apply filter_In in Hs as [_ Hs]. apply negb_true_iff in Hs.
  apply null_key_parts in Hs. exact Hs.
Qed.

Lemma groupby_agg_keys (l : list Sample) :
  map sample_key (groupby_agg l) = agg_keys l.
Proof.
  unfold groupby_agg, agg_keys. fold (kept l). rewrite map_map.
  rewrite <- (map_id (isort _ _)) at 2. apply map_ext.
  intros k. apply sample_key_agg_row.
Qed.

Lemma kept_groupby_agg (l : list Sample) : kept (groupby_agg l) = groupby_agg l.
Proof.
  unfold kept. apply filter_all_In. intros a Ha.
  now rewrite (groupby_agg_keyed l a Ha).
Qed.

Lemma agg_keys_groupby_agg (l : list Sample) :
  agg_keys (groupby_agg l) = agg_keys l.
Proof.
  unfold agg_keys at 1. rewrite kept_groupby_agg, groupby_agg_keys.
  rewrite (unique_by_distinct_id key3_eqb _ (agg_keys_distinct l)).
  apply isort_ascending. apply agg_keys_ascending.
Qed.

(** What the pivot reads of a grouped table: its keys, each with the
    mean of its group. *)
Lemma groupby_agg_view (l : list Sample) :
  map keyed_value (groupby_agg l)
  = map (fun k => (k, group_mean l k)) (agg_keys l).
Proof.
  unfold groupby_agg. fold (kept l). fold (agg_keys l). rewrite map_map.
  apply map_ext_in. intros k Hk. unfold keyed_value.
  rewrite sample_key_agg_row. f_equal.
  unfold agg_row, group_mean. cbn [s_value].
  now rewrite (group_rows_kept l k (agg_keys_present l k Hk)).
Qed.

Lemma groupby_agg_twice (l : list Sample) :
  map keyed_value (groupby_agg (groupby_agg l)) = map keyed_value (groupby_agg l).
Proof.
  rewrite !groupby_agg_view, agg_keys_groupby_agg.
  apply map_ext_in. intros k Hk. f_equal.
  apply group_mean_agg. now apply (agg_keys_present l).
Qed.

(** ** Tables that the pivot cannot tell apart *)

Section SameView.
Variables X Y : list Sample.
Hypothesis same : map keyed_value X = map keyed_value Y.

Lemma same_view_filter (p : key3 * option Q -> bool) :
  map keyed_value (filter (fun s => p (keyed_value s)) X)
  = map keyed_value (filter (fun s => p (keyed_value s)) Y).
Proof.
  rewrite <- !filter_map_comm. now rewrite same.
Qed.

Lemma same_view_kept : map keyed_value (kept X) = map keyed_value (kept Y).
Proof.
  apply (same_view_filter
           (fun kv => negb (isnull (fst (fst (fst kv)))
                            || isnull (snd (fst (fst kv)))
                            || isnull (snd (fst kv))))).
Qed.

Lemma same_view_group (k : key3) :
  map keyed_value (group_rows X k) = map keyed_value (group_rows Y k).
Proof. apply (same_view_filter (fun kv => key3_eqb (fst kv) k)). Qed.

Lemma same_view_keys : agg_keys X = agg_keys Y.
Proof.
  unfold agg_keys. do 2 f_equal.
  assert (E : forall l, map sample_key l = map fst (map keyed_value l))
    by (intros l; now rewrite map_map).
  now rewrite !E, same_view_kept.
Qed.

Lemma same_view_mean (k : key3) : group_mean X k = group_mean Y k.
Proof.
  unfold group_mean. do 2 f_equal.
  assert (E : forall l, map s_value l = map snd (map keyed_value l))
    by (intros l; now rewrite map_map).
  now rewrite !E, same_view_group.
Qed.

Lemma same_view_agg :
  map keyed_value (groupby_agg X) = map keyed_value (groupby_agg Y).
Proof.
  rewrite !groupby_agg_view, same_view_keys.
  apply map_ext. intros k. now rewrite same_view_mean.
Qed.

End SameView.

Lemma erase_time_view (l : list Sample) :
  map keyed_value (map erase_time l) = map keyed_value l.
Proof. rewrite map_map. apply map_ext. now intros []. Qed.

Lemma kept_kept (l : list Sample) : kept (kept l) = kept l.
Proof.
  unfold kept. apply filter_all_In. intros a Ha.
  now apply filter_In in Ha as [_ Ha].
Qed.

Lemma kept_view_agg (l : list Sample) :
  map keyed_value (groupby_agg (kept l)) = map keyed_value (groupby_agg l).
Proof.
  rewrite !groupby_agg_view.
  assert (E : agg_keys (kept l) = agg_keys l)
    by (unfold agg_keys; now rewrite kept_kept).
  rewrite E. apply map_ext_in. intros k Hk. f_equal.
  unfold group_mean. now rewrite (group_rows_kept l k (agg_keys_present l k Hk)).
Qed.

(** The wide table is read off the keys and values of the grouped
    table. *)
Section SameWide.
Variables X Y : list Sample.
Hypothesis same : map keyed_value (groupby_agg X) = map keyed_value (groupby_agg Y).

Lemma same_pivot_agged :
  map keyed_value (pivot_agged X) = map keyed_value (pivot_agged Y).
Proof.
  unfold pivot_agged.
  apply (same_view_filter (groupby_agg X) (groupby_agg Y) same
           (fun kv => match snd kv with Some _ => true | None => false end)).
Qed.

Lemma same_pivot_index : pivot_index X = pivot_index Y.
Proof.
  unfold pivot_index. do 2 f_equal.
  assert (E : forall l, map (fun s => (s_id s, s_lap s)) l
                        = map (fun kv => fst (fst kv)) (map keyed_value l))
    by (intros l; now rewrite map_map).
  now rewrite !E, same_pivot_agged.
Qed.

Lemma same_pivot_names : pivot_names X = pivot_names Y.
Proof.
  unfold pivot_names. do 2 f_equal.
  assert (E : forall l, map s_name l
                        = map (fun kv => snd (fst kv)) (map keyed_value l))
    by (intros l; now rewrite map_map).
  now rewrite !E, same_pivot_agged.
Qed.

Lemma same_pivot_cell (ik : key2) (n : cell) :
  pivot_cell (pivot_agged X) ik n = pivot_cell (pivot_agged Y) ik n.
Proof.
  unfold pivot_cell. pose proof same_pivot_agged as H.
  revert H. generalize (pivot_agged X) (pivot_agged Y).
  induction l as [|a t IH]; intros [|b u] H; cbn [map] in H;
    try discriminate; [reflexivity|].
  assert (Hab : keyed_value a = keyed_value b) by congruence.
  assert (Htu : map keyed_value t = map keyed_value u) by congruence.
  assert (Hk : sample_key a = sample_key b)
    by (unfold keyed_value in Hab; congruence).
  assert (Hv : s_value a = s_value b)
    by (unfold keyed_value in Hab; congruence).
  cbn [find]. rewrite Hk.
  destruct (key3_eqb (sample_key b) (ik, n)); [now rewrite Hv|now apply IH].
Qed.

Lemma same_wide_of : wide_of X = wide_of Y.
Proof.
  unfold wide_of. rewrite same_pivot_names, same_pivot_index. f_equal.
  apply map_ext. intros ik. do 2 f_equal.
  apply map_ext. intros n. apply same_pivot_cell.
Qed.

Lemma same_pivot_table_reset : pivot_table_reset X = pivot_table_reset Y.
Proof.
  unfold pivot_table_reset. now rewrite same_pivot_names, same_wide_of.
Qed.

End SameWide.

(** ** The CSV path of the application against the aggregator *)

Module SingleChunkFacts.
Import Config Telemetry Preprocess PreprocessCli TelemetryLoad SingleChunk.
Import TelemetryFacts ProcessTelemetryFacts.
Import stdpp.base stdpp.gmap stdpp.strings.

Lemma nth_insert_eq (l : list cell) (i : nat) (x : cell) :
  (i < length l)%nat -> nth i (<[i := x]> l) CNull = x.
Proof.
  intros H. rewrite nth_lookup, list_lookup_insert_eq by assumption.
  reflexivity.
Qed.

Lemma nth_insert_ne (l : list cell) (i j : nat) (x : cell) :
  i <> j -> nth j (<[i := x]> l) CNull = nth j l CNull.
Proof.
  intros H. now rewrite !nth_lookup, list_lookup_insert_ne.
Qed.

Lemma position_distinct (cols : list cell) (a b : string) (i j : nat) :
  position a cols = Some i -> position b cols = Some j -> a <> b -> i <> j.
Proof.
  intros Ha Hb Hne ->. apply position_nth in Ha, Hb. congruence.
Qed.

Lemma combine_map_both {A B C : Type} (f : A -> B) (g : A -> C) (l : list A) :
  combine (map f l) (map g l) = map (fun a => (f a, g a)) l.
Proof. induction l as [|a t IH]; simpl; [reflexivity|]. now rewrite IH. Qed.

Lemma zip_samples_map {A : Type} (f1 f2 f3 f4 : A -> cell) (l : list A) :
  zip_samples (map f1 l) (map f2 l) (map f3 l) (map f4 l)
  = map (fun a => (f1 a, f2 a, f3 a, f4 a)) l.
Proof. induction l as [|a t IH]; simpl; [reflexivity|]. now rewrite IH. Qed.

Section Converted.
Context {conv : PandasConv}.
Variables (cols : list cell) (i1 i2 i3 i4 i5 : nat).
Hypothesis P1 : position "timestamp" cols = Some i1.
Hypothesis P2 : position "telemetry_value" cols = Some i2.
Hypothesis P3 : position ID_COL cols = Some i3.
Hypothesis P4 : position LAP_COL cols = Some i4.
Hypothesis P5 : position "telemetry_name" cols = Some i5.

(** The sample of a row as the application reads it after the
    conversions: no timestamp. *)
Lemma row_sample_erased (rws : list (list cell)) (s : list Sample) :
  mapR (row_sample i1 i2 i3 i4 i5) rws = Ok s ->
  map erase_time s
  = map (fun row => mkSample (nth i3 row CNull) (nth i4 row CNull)
                             (nth i5 row CNull) (to_numeric (nth i2 row CNull))
                             None) rws.
Proof.
  revert s. induction rws as [|r t IH]; intros s; simpl.
  - now intros [= <-].
  - intros H. apply bind_Ok in H as (b & Hb & H).
    apply bind_Ok in H as (bs & Hbs & [= <-]).
    unfold row_sample in Hb. apply bind_Ok in Hb as (ts & _ & [= <-]).
    simpl. f_equal. now apply IH.
Qed.

(** The row after the two conversions. *)
Lemma converted_row (row : list cell) (t v : cell) :
  length row = length cols ->
  let row' := <[i2 := v]> (<[i1 := t]> row) in
  nth i3 row' CNull = nth i3 row CNull /\
  nth i4 row' CNull = nth i4 row CNull /\
  nth i5 row' CNull = nth i5 row CNull /\
  nth i2 row' CNull = v.
Proof.
  intros Hlen row'. unfold row'.
  assert (N13 : i1 <> i3) by (eapply position_distinct; eauto; discriminate).
  assert (N14 : i1 <> i4) by (eapply position_distinct; eauto; discriminate).
  assert (N15 : i1 <> i5) by (eapply position_distinct; eauto; discriminate).
  assert (N23 : i2 <> i3) by (eapply position_distinct; eauto; discriminate).
  assert (N24 : i2 <> i4) by (eapply position_distinct; eauto; discriminate).
  assert (N25 : i2 <> i5) by (eapply position_distinct; eauto; discriminate).
  rewrite !nth_insert_ne by assumption.
  repeat split. apply nth_insert_eq. rewrite length_insert, Hlen.
  now apply position_lt in P2.
Qed.


Lemma combine_map_snd {A B C : Type} (g : B -> C) (l : list A) (l' : list B) :
  combine l (map g l') = map (fun ab => (fst ab, g (snd ab))) (combine l l').
Proof.
  revert l'. induction l as [|a t IH]; intros [|b t']; simpl; try reflexivity.
  now rewrite IH.
Qed.

Lemma map_fst_combine_same {A B : Type} (l : list A) (l' : list B) :
  length l' = length l -> map fst (combine l l') = l.
Proof.
  revert l'. induction l as [|a t IH]; intros [|b t']; simpl;
    try reflexivity; try discriminate.
  intros [= H]. now rewrite IH.
Qed.

Lemma convert_csv_rows (rws : list (list cell)) (ts : list (option Z)) :
  mapR to_datetime (map (fun r => nth i1 r CNull) rws) = Ok ts ->
  convert_csv (mkFrame cols rws)
  = Ok (mkFrame cols (map (converted i1 i2) (combine rws ts))).
Proof.
  intros Hts. unfold convert_csv.
  assert (H1 : has_column (mkFrame cols rws) "timestamp" = true)
    by (apply position_has; eauto).
  rewrite H1. unfold getitem at 1. cbn [columns rows]. rewrite P1.
  cbn [bind]. rewrite Hts. cbn [bind].
  assert (E : set_column (mkFrame cols rws) "timestamp" (map time_cell ts)
              = mkFrame cols (map (fun rv => <[i1 := snd rv]> (fst rv))
                                  (combine rws (map time_cell ts))))
    by (unfold set_column; cbn [columns rows]; now rewrite P1).
  rewrite E.
  match goal with
  | |- context [has_column ?d "telemetry_value"] =>
      assert (H2 : has_column d "telemetry_value" = true)
        by (apply position_has; eauto)
  end.
  rewrite H2. unfold getitem. cbn [columns rows]. rewrite P2. cbn [bind].
  unfold set_column. cbn [columns rows]. rewrite P2. do 2 apply f_equal.
  rewrite (combine_map_snd time_cell rws ts), !map_map, combine_map_both, map_map.
  apply map_ext. intros [row t]. reflexivity.
Qed.

Lemma converted_cells (rws : list (list cell)) (ts : list (option Z)) :
  Forall (fun row => length row = length cols) rws ->
  length ts = length rws ->
  map (fun r => (nth i3 r CNull, nth i4 r CNull, nth i5 r CNull, nth i2 r CNull))
      (map (converted i1 i2) (combine rws ts))
  = map (fun row => (nth i3 row CNull, nth i4 row CNull, nth i5 row CNull,
                     value_cell (to_numeric (nth i2 row CNull)))) rws.
Proof.
  intros Hal Hlen.
  rewrite <- (map_fst_combine_same rws ts Hlen) at 2.
  rewrite !map_map. apply map_ext_in. intros [row t] Hin.
  apply in_combine_l in Hin. rewrite List.Forall_forall in Hal.
  specialize (Hal row Hin). unfold converted. cbn [fst snd].
  destruct (converted_row row (time_cell t)
              (value_cell (to_numeric
                 (nth i2 (<[i1 := time_cell t]> row) CNull))) Hal)
    as (E3 & E4 & E5 & E2).
  rewrite E3, E4, E5, E2. do 3 f_equal.
  apply nth_insert_ne. eapply position_distinct; eauto; discriminate.
Qed.

Lemma cell_value_value_cell (v : option Q) : cell_value (value_cell v) = Ok v.
Proof. now destruct v. Qed.

(** What the pivot of the application reads of the converted table:
    the samples of the rows of the file, without their times, rows with
    an absent key left out. *)
Lemma long_samples_converted (rws : list (list cell)) (ts : list (option Z)) :
  Forall (fun row => length row = length cols) rws ->
  length ts = length rws ->
  long_samples (mkFrame cols (map (converted i1 i2) (combine rws ts)))
  = Ok (kept (map (fun row => mkSample (nth i3 row CNull) (nth i4 row CNull)
                                       (nth i5 row CNull)
                                       (to_numeric (nth i2 row CNull)) None)
                  rws)).
Proof.
  intros Hal Hlen. unfold long_samples, getitem. cbn [columns rows].
  rewrite P2, P3, P4, P5. cbn [bind].
  rewrite zip_samples_map, (converted_cells rws ts Hal Hlen).
  clear Hal Hlen. unfold kept.
  induction rws as [|row t IH]; [reflexivity|].
  cbn [map List.filter]. unfold null_key at 1. cbn [s_id s_lap s_name].
  destruct (negb (isnull (nth i3 row CNull) || isnull (nth i4 row CNull)
                  || isnull (nth i5 row CNull))); [|exact IH].
  cbn [mapR]. rewrite cell_value_value_cell. cbn [bind].
  rewrite IH. reflexivity.
Qed.

End Converted.

(** A file of at most [size] rows, and at least one, is read as one
    chunk: the file itself. *)
Lemma read_chunks_single (size : nat) (raw : DataFrame) :
  (0 < length (rows raw) <= size)%nat ->
  read_chunks size raw = [raw].
Proof.
  intros [Hpos Hle]. unfold read_chunks.
  destruct raw as [cols rws]. cbn [columns rows] in *.
  destruct rws as [|r t]; [simpl in Hpos; lia|].
  cbn [length chunk_rows].
  rewrite firstn_all2, skipn_all2 by assumption.
  destruct (length t); reflexivity.
Qed.

(** X19. A CSV file of at most [CHUNK_SIZE] rows, and at least one,
    each with one cell per column, from which the aggregator makes the
    wide table [wide]: [load_telemetry]'s conversions of the file raise
    nothing, and [process_telemetry], with no vehicle and no lap range
    chosen, pivots the converted table to [wide] itself and extracts its
    series from it. *)
Theorem csv_fallback_same_pivot {conv : PandasConv} (raw wide : DataFrame) :
  (0 < length (rows raw) <= CHUNK_SIZE)%nat ->
  aligned raw ->
  aggregate_chunks (read_chunks CHUNK_SIZE raw) = Ok wide ->
  exists df,
    convert_csv raw = Ok df /\
    process_telemetry df None None
    = (ms <- extract_metrics wide ;; Ok (ms, wide)).
Proof.
  intros Hsize Hal Hagg.
  rewrite (read_chunks_single CHUNK_SIZE raw Hsize) in Hagg.
  unfold aggregate_chunks in Hagg. cbn [mapR] in Hagg.
  apply bind_Ok in Hagg as (agg & Hmap & Hagg).
  apply bind_Ok in Hmap as (g & Hg & Hmap).
  apply bind_Ok in Hg as (S & HS & [= <-]).
  cbn [bind] in Hmap. injection Hmap as <-.
  cbn [concat_chunks concat bind] in Hagg. rewrite app_nil_r in Hagg.
  destruct (chunk_samples_positions raw S HS)
    as (i1 & i2 & i3 & i4 & i5 & P1 & P2 & P3 & P4 & P5).
  destruct raw as [cols rws]. cbn [columns rows] in *.
  assert (Hts : exists ts,
             mapR to_datetime (map (fun r => nth i1 r CNull) rws) = Ok ts).
  { unfold chunk_samples in HS. apply bind_Ok in HS as (tsc & Htsc & HS).
    apply bind_Ok in HS as (ts & Hts & _). exists ts.
    unfold getitem in Htsc. cbn [columns rows] in Htsc.
    rewrite P1 in Htsc. now injection Htsc as <-. }
  destruct Hts as (ts & Hts).
  assert (Hlen : length ts = length rws)
    by (rewrite (mapR_length _ _ _ Hts); apply length_map).
  rewrite (chunk_samples_rows cols rws i1 i2 i3 i4 i5 P1 P2 P3 P4 P5) in HS.
  exists (mkFrame cols (map (converted i1 i2) (combine rws ts))). split.
  - now apply (convert_csv_rows cols i1 i2 P1 P2).
  - unfold process_telemetry.
    assert (Hne : df_empty (mkFrame cols (map (converted i1 i2) (combine rws ts)))
                  = false).
    { destruct cols as [|c cols']; [discriminate P1|].
      destruct rws as [|r rws']; [simpl in Hsize; lia|].
      destruct ts as [|t ts']; [discriminate Hlen|]. reflexivity. }
    rewrite Hne.
    assert (Hn : has_column (mkFrame cols (map (converted i1 i2) (combine rws ts)))
                            "telemetry_name" = true)
      by (apply position_has; eauto).
    assert (Hv : has_column (mkFrame cols (map (converted i1 i2) (combine rws ts)))
                            "telemetry_value" = true)
      by (apply position_has; eauto).
    rewrite Hn, Hv. cbn [negb orb apply_filters filter_vehicle filter_laps bind].
    rewrite Hne.
    rewrite (long_samples_converted cols i1 i2 i3 i4 i5 P1 P2 P3 P4 P5 rws ts
               Hal Hlen).
    rewrite <- (row_sample_erased i1 i2 i3 i4 i5 rws S HS).
    cbn [bind].
    rewrite (same_pivot_table_reset (kept (map erase_time S))
               (groupby_agg (groupby_agg S))).
    + now rewrite Hagg.
    + rewrite kept_view_agg, !groupby_agg_twice.
      apply same_view_agg, erase_time_view.
Qed.

Lemma csv_fallback_same_pivot_witness :
  exists df,
    convert_csv (conv := sheet_conv) raw_aps = Ok df /\
    process_telemetry df None None
    = (ms <- extract_metrics wide_aps ;; Ok (ms, wide_aps)).
Proof.
  apply (csv_fallback_same_pivot (conv := sheet_conv) raw_aps wide_aps).
  - unfold CHUNK_SIZE. simpl. lia.
  - repeat constructor.
  - vm_compute. reflexivity.
Defined.

End SingleChunkFacts.
